(** * dualcalc: the expression engine and the converters

    A shallow embedding of [factorial], [decimalToFraction], [formatResult]
    and [evaluateExpression] of [src/utils/math.ts], of the unit and currency
    converters, and of the state handlers of the components [App] and
    [Display], followed by the properties established for them.  ECMAScript
    numbers are IEEE-754 binary64 values and are modelled
    by Rocq's primitive [float]; ECMAScript strings are modelled by [string],
    read as the UTF-8 encoding of the text. *)

From Stdlib Require Import ZArith Lia List String Ascii Bool Floats.
From Stdlib Require Import DecimalString DecimalPos.
Import ListNotations.

Set Warnings "-inexact-float,-register-all".

Local Open Scope string_scope.
Local Open Scope float_scope.

(** ** ECMAScript number primitives used by the source *)

Module JS.

(** [number | string], the type of several results in the source. *)
Definition number_or_string : Type := (float + string)%type.

(** The global [isNaN] and [isFinite] on a number. *)
Definition isNaN (x : float) : bool := is_nan x.
Definition isFinite (x : float) : bool := is_finite x.

(** Rounding an integer [m * 2^e] and a positive ratio [p / q] to the nearest
    binary64 value, ties to even. *)
Definition float_of_Z (m : Z) : float :=
  SF2Prim (binary_normalize prec emax m 0 false).

Definition float_of_ratio (p q : Z) : float :=
  match p, q with
  | Zpos p', Zpos q' =>
      SF2Prim (SFdiv prec emax (S754_finite false p' 0) (S754_finite false q' 0))
  | Z0, _ => zero
  | _, _ => nan
  end.

(** The exact value of a finite non-zero float as [(negative, num, den)]. *)
Definition exact_ratio (x : float) : option (bool * Z * Z) :=
  match Prim2SF x with
  | S754_finite s m e =>
      if (0 <=? e)%Z then Some (s, Z.shiftl (Zpos m) e, 1%Z)
      else Some (s, Zpos m, Z.shiftl 1 (- e))
  | _ => None
  end.

(** [Math.floor]. *)
Definition Math_floor (x : float) : float :=
  match Prim2SF x with
  | S754_finite s m e =>
      if (0 <=? e)%Z then x
      else float_of_Z (Z.shiftr (cond_Zopp s (Zpos m)) (- e))
  | _ => x
  end.

(** [Math.round]: the nearest integer, a tie going towards +infinity; a
    negative argument that rounds to zero gives -0. *)
Definition Math_round (x : float) : float :=
  match Prim2SF x with
  | S754_finite s m e =>
      if (0 <=? e)%Z then x
      else
        let den := Z.shiftl 1 (- e) in
        let n := ((2 * cond_Zopp s (Zpos m) + den) / (2 * den))%Z in
        if (n =? 0)%Z then (if s then neg_zero else zero) else float_of_Z n
  | _ => x
  end.

Definition Math_abs (x : float) : float := abs x.

(** [Math.sqrt] is the IEEE-754 square root. *)
Definition Math_sqrt (x : float) : float := sqrt x.

Definition Number_isInteger (x : float) : bool :=
  isFinite x && (Math_floor x =? x).

(** [Number.EPSILON] is 2^-52. *)
Definition Number_EPSILON : float := 0x1p-52.

Definition Math_PI : float := 0x1.921fb54442d18p+1.
Definition Math_E : float := 0x1.5bf0a8b145769p+1.

(** *** Decimal text of integers *)

Definition digits_of_Z (n : Z) : string :=
  match n with
  | Zpos p => NilEmpty.string_of_uint (Pos.to_uint p)
  | _ => "0"
  end.

Fixpoint zeros (n : nat) : string :=
  match n with
  | O => EmptyString
  | S n' => String "0" (zeros n')
  end.

Definition is_digit (c : ascii) : bool :=
  let n := nat_of_ascii c in (48 <=? n)%nat && (n <=? 57)%nat.

Definition digit_value (c : ascii) : Z := Z.of_nat (nat_of_ascii c) - 48.

(** The value of a run of decimal digits, most significant first. *)
Fixpoint Z_of_digits (acc : Z) (s : string) : Z :=
  match s with
  | EmptyString => acc
  | String c s' => Z_of_digits (10 * acc + digit_value c) s'
  end.

(** Splits a text into its longest prefix of decimal digits and the rest. *)
Fixpoint span_digits (s : string) : string * string :=
  match s with
  | String c s' =>
      if is_digit c then let (d, r) := span_digits s' in (String c d, r)
      else (EmptyString, s)
  | EmptyString => (EmptyString, EmptyString)
  end.

(** *** [Number::toString] (radix 10)

    For a positive finite [x], ECMAScript takes the least [k] for which
    some [s] of [k] digits and some [n] make [s * 10^(n-k)] round to [x],
    and among those the [s] closest to [x]. *)

(** [n] with [10^(n-1) <= p/q < 10^n]. *)
Definition decimal_exponent (p q : Z) : Z :=
  if (q <=? p)%Z then Z.of_nat (String.length (digits_of_Z (p / q)))
  else 1 - Z.of_nat (String.length (digits_of_Z ((q - 1) / p))).

(** [s * 10^e] as a float. *)
Definition float_of_decimal (s e : Z) : float :=
  if (0 <=? e)%Z then float_of_ratio (s * 10 ^ e) 1
  else float_of_ratio s (10 ^ (- e)).

(** The two [k]-digit candidates around [p/q], the closer one first, each
    with its decimal exponent. *)
Definition candidates (p q n : Z) (k : Z) : list (Z * Z) :=
  let num := if (0 <=? k - n)%Z then (p * 10 ^ (k - n))%Z else p in
  let den := if (0 <=? k - n)%Z then q else (q * 10 ^ (n - k))%Z in
  let lo := (num / den)%Z in
  let hi := (lo + 1)%Z in
  let c_lo := (lo, n) in
  let c_hi := if (hi =? 10 ^ k)%Z then (10 ^ (k - 1), n + 1)%Z else (hi, n) in
  if (2 * (num - lo * den) <=? den)%Z then [c_lo; c_hi] else [c_hi; c_lo].

Definition round_trips (x : float) (k : Z) (c : Z * Z) : bool :=
  let (s, n) := c in
  (10 ^ (k - 1) <=? s)%Z && (float_of_decimal s (n - k) =? x).

Fixpoint shortest_from (x : float) (p q n : Z) (k : Z) (fuel : nat)
  : Z * Z * Z :=
  match find (round_trips x k) (candidates p q n k) with
  | Some (s, n') => (s, n', k)
  | None =>
      match fuel with
      | O => ((p * 10 ^ (k - n)) / q, n, k)%Z
      | S fuel' => shortest_from x p q n (k + 1) fuel'
      end
  end.

Definition shortest_digits (x : float) : Z * Z * Z :=
  match exact_ratio x with
  | Some (_, p, q) => shortest_from x p q (decimal_exponent p q) 1 16
  | None => (0, 0, 1)%Z
  end.

Definition exponent_text (e : Z) : string :=
  (if (e <? 0)%Z then "-" else "+") ++ digits_of_Z (Z.abs e).

Definition layout (s n k : Z) : string :=
  let ds := digits_of_Z s in
  if ((k <=? n) && (n <=? 21))%Z then
    ds ++ zeros (Z.to_nat (n - k))
  else if ((0 <? n) && (n <=? 21))%Z then
    substring 0 (Z.to_nat n) ds ++ "."
      ++ substring (Z.to_nat n) (Z.to_nat (k - n)) ds
  else if ((-6 <? n) && (n <=? 0))%Z then
    "0." ++ zeros (Z.to_nat (- n)) ++ ds
  else if (k =? 1)%Z then
    ds ++ "e" ++ exponent_text (n - 1)
  else
    substring 0 1 ds ++ "." ++ substring 1 (Z.to_nat (k - 1)) ds
      ++ "e" ++ exponent_text (n - 1).

Definition Number_toString (x : float) : string :=
  if is_nan x then "NaN"
  else if x =? 0 then "0"
  else if is_infinity x then (if x <? 0 then "-Infinity" else "Infinity")
  else
    let '(s, n, k) := shortest_digits (abs x) in
    (if x <? 0 then "-" else EmptyString) ++ layout s n k.

(** *** Reading a decimal literal

    [digits [. digits] [(e|E) [+|-] digits]], as [StringToNumber] and the
    lexer's [NumericLiteral] read it.  The result is the literal's value and
    the unread rest; [None] when the text does not start with a literal. *)

Definition read_exponent (s : string) : option (Z * string) :=
  match s with
  | String c s' =>
      if (Ascii.eqb c "e" || Ascii.eqb c "E")%bool then
        let '(neg, s'') :=
          match s' with
          | String "+" t => (false, t)
          | String "-" t => (true, t)
          | _ => (false, s')
          end in
        let (ds, rest) := span_digits s'' in
        match ds with
        | EmptyString => None
        | _ => Some (if neg then (- Z_of_digits 0 ds)%Z else Z_of_digits 0 ds, rest)
        end
      else None
  | EmptyString => None
  end.

Definition read_decimal (s : string) : option (float * string) :=
  let (ip, r1) := span_digits s in
  let '(fp, r2, dot) :=
    match r1 with
    | String "." t => let (f, r) := span_digits t in (f, r, true)
    | _ => (EmptyString, r1, false)
    end in
  match ip, fp with
  | EmptyString, EmptyString => None
  | _, _ =>
      let mant := Z_of_digits (Z_of_digits 0 ip) fp in
      let flen := Z.of_nat (String.length fp) in
      let '(ex, r3) :=
        match read_exponent r2 with
        | Some (e, r) => (e, r)
        | None => (0%Z, r2)
        end in
      Some (float_of_decimal mant (ex - flen), r3)
  end.

(** [Number(text)] for a text that is one unsigned decimal literal. *)
Definition Number_of_string (s : string) : float :=
  match read_decimal s with
  | Some (x, EmptyString) => x
  | _ => nan
  end.

(** [parseFloat]: an optional sign, then the longest decimal literal. *)
Definition parseFloat (s : string) : float :=
  match s with
  | String "-" t =>
      match read_decimal t with Some (x, _) => - x | None => nan end
  | _ => match read_decimal s with Some (x, _) => x | None => nan end
  end.

(** *** [Number.prototype.toPrecision]

    The [p] significant digits nearest to the exact value, the larger one
    on a tie, in fixed notation when the exponent [e] has [-6 <= e < p]. *)
Definition toPrecision (x : float) (p : Z) : string :=
  if is_nan x then "NaN"
  else if is_infinity x then (if x <? 0 then "-Infinity" else "Infinity")
  else
    match exact_ratio x with
    | None => "0" ++ (if (p =? 1)%Z then EmptyString else "." ++ zeros (Z.to_nat (p - 1)))
    | Some (neg, num, den) =>
        let n0 := decimal_exponent num den in
        let sc := (p - n0)%Z in
        let nn := if (0 <=? sc)%Z then (num * 10 ^ sc)%Z else num in
        let dd := if (0 <=? sc)%Z then den else (den * 10 ^ (- sc))%Z in
        let r := ((2 * nn + dd) / (2 * dd))%Z in
        let '(ds, e) :=
          if (r =? 10 ^ p)%Z then (digits_of_Z (10 ^ (p - 1)), n0)
          else (digits_of_Z r, (n0 - 1)%Z) in
        let body :=
          if ((e <? -6) || (p <=? e))%Z then
            substring 0 1 ds
              ++ (if (p =? 1)%Z then EmptyString else "." ++ substring 1 (Z.to_nat (p - 1)) ds)
              ++ "e" ++ exponent_text e
          else if (e =? p - 1)%Z then ds
          else if (0 <=? e)%Z then
            substring 0 (Z.to_nat (e + 1)) ds ++ "."
              ++ substring (Z.to_nat (e + 1)) (Z.to_nat (p - (e + 1))) ds
          else "0." ++ zeros (Z.to_nat (- (e + 1))) ++ ds in
        (if neg then "-" else EmptyString) ++ body
    end.

End JS.

(** ** Numeric primitives of [src/utils/math.ts] *)

Module Primitives.
Import JS.

(** *** [factorial]

    The [for] loop of the source, one iteration per unit of [fuel]; [None]
    when the fuel runs out before the loop ends. *)
Fixpoint factorial_loop (fuel : nat) (i result n : float) : option float :=
  match fuel with
  | O => None
  | S fuel' =>
      if i <=? n then factorial_loop fuel' (i + 1) (result * i) n
      else Some result
  end.

Definition factorial (fuel : nat) (n : float) : option float :=
  if n <? 0 then Some nan
  else if (n =? 0) || (n =? 1) then Some 1
  else factorial_loop fuel 2 1 n.

(** *** [decimalToFraction] *)

Record convergents : Type := Convergents {
  h1 : float; h2 : float; k1 : float; k2 : float; b : float
}.

(** The body of the [do ... while] loop. *)
Definition cf_step (st : convergents) : convergents :=
  let a := Math_floor (b st) in
  {| h1 := a * h1 st + h2 st;
     h2 := h1 st;
     k1 := a * k1 st + k2 st;
     k2 := k1 st;
     b := 1 / (b st - a) |}.

(** The loop test
    [Math.abs(value - sign * h1 / k1) > value * tolerance && k1 <= maxDenominator]. *)
Definition cf_continue (value sign tolerance maxDenominator : float)
    (st : convergents) : bool :=
  (value * tolerance <? Math_abs (value - sign * h1 st / k1 st))
  && (k1 st <=? maxDenominator).

Fixpoint cf_loop (fuel : nat) (value sign tolerance maxDenominator : float)
    (st : convergents) : option convergents :=
  match fuel with
  | O => None
  | S fuel' =>
      let st' := cf_step st in
      if cf_continue value sign tolerance maxDenominator st'
      then cf_loop fuel' value sign tolerance maxDenominator st'
      else Some st'
  end.

Definition cf_init (absValue : float) : convergents :=
  {| h1 := 1; h2 := 0; k1 := 0; k2 := 1; b := absValue |}.

Definition default_tolerance : float := 1.0E-9.
Definition default_maxDenominator : float := 1000000.

Definition decimalToFraction (fuel : nat) (value tolerance maxDenominator : float)
  : option number_or_string :=
  if negb (isFinite value) then Some (inl value)
  else if Number_isInteger value then Some (inl value)
  else
    let sign := if value <? 0 then -1 else 1 in
    let absValue := Math_abs value in
    match cf_loop fuel value sign tolerance maxDenominator (cf_init absValue) with
    | None => None
    | Some st =>
        if (maxDenominator <? k1 st)
           || (tolerance <? Math_abs (value - sign * h1 st / k1 st))
        then Some (inl value)
        else Some (inr (Number_toString (sign * h1 st) ++ "/"
                          ++ Number_toString (k1 st)))
    end.

(** [String(x)] for [x : number | string]. *)
Definition String_of (x : number_or_string) : string :=
  match x with
  | inl n => Number_toString n
  | inr s => s
  end.

(** *** [formatResult] *)
Definition formatResult (fuel : nat) (result : number_or_string) : option string :=
  match result with
  | inr s => Some s
  | inl r =>
      if negb (isFinite r) then Some "Can't divide by 0"
      else if isNaN r then Some "Invalid Input"
      else if Math_abs (r - Math_round r) <? Number_EPSILON * 1000
      then Some (Number_toString (Math_round r))
      else
        let preciseResult := parseFloat (toPrecision r 15) in
        match decimalToFraction fuel preciseResult
                default_tolerance default_maxDenominator with
        | None => None
        | Some fraction => Some (String_of fraction)
        end
  end.

End Primitives.

(** ** The normalizer: steps 1 to 4 of [evaluateExpression] *)

Module Normalizer.
Import JS.

Definition is_letter (c : ascii) : bool :=
  let n := nat_of_ascii c in
  ((65 <=? n)%nat && (n <=? 90)%nat) || ((97 <=? n)%nat && (n <=? 122)%nat).

Definition is_open_paren (c : ascii) : bool := Ascii.eqb c "(".

(** The class [[a-zA-Z(]]. *)
Definition letter_or_open (c : ascii) : bool := is_letter c || is_open_paren c.

(** The class [[a-zA-Z0-9(]]. *)
Definition alnum_or_open (c : ascii) : bool :=
  is_letter c || is_digit c || is_open_paren c.

(** The UTF-8 text made of the given bytes. *)
Definition utf8 (bytes : list nat) : string :=
  string_of_list_ascii (map ascii_of_nat bytes).

(** The calculator glyphs of step 2: U+00D7 (multiplication sign), U+00F7
    (division sign), U+03C0 (pi), U+03C6 (phi) and U+221A (square root). *)
Definition glyph_times : string := utf8 [195; 151]%nat.
Definition glyph_divide : string := utf8 [195; 183]%nat.
Definition glyph_pi : string := utf8 [207; 128]%nat.
Definition glyph_phi : string := utf8 [207; 134]%nat.
Definition glyph_sqrt : string := utf8 [226; 136; 154]%nat.

(** Number of bytes of the white space character (the class [\s]) that
    starts the text, [0] when it starts with none: U+0009 to U+000D, U+0020,
    U+00A0, U+1680, U+2000 to U+200A, U+2028, U+2029, U+202F, U+205F,
    U+3000 and U+FEFF. *)
Definition whitespace_length (s : string) : nat :=
  match s with
  | String c1 r1 =>
      let n1 := nat_of_ascii c1 in
      if ((9 <=? n1) && (n1 <=? 13)) || (n1 =? 32) then 1
      else
        match r1 with
        | String c2 r2 =>
            let n2 := nat_of_ascii c2 in
            if (n1 =? 194) && (n2 =? 160) then 2
            else
              match r2 with
              | String c3 _ =>
                  let n3 := nat_of_ascii c3 in
                  if ((n1 =? 225) && (n2 =? 154) && (n3 =? 128))
                     || ((n1 =? 226) && (n2 =? 128)
                         && (((128 <=? n3) && (n3 <=? 138))
                             || (n3 =? 168) || (n3 =? 169) || (n3 =? 175)))
                     || ((n1 =? 226) && (n2 =? 129) && (n3 =? 159))
                     || ((n1 =? 227) && (n2 =? 128) && (n3 =? 128))
                     || ((n1 =? 239) && (n2 =? 187) && (n3 =? 191))
                  then 3
                  else 0
              | EmptyString => 0
              end
        | EmptyString => 0
        end
  | EmptyString => 0
  end%nat.

(** [replace(/\s/g, '')]. *)
Fixpoint strip_from (skip : nat) (s : string) : string :=
  match s with
  | EmptyString => EmptyString
  | String c s' =>
      match skip with
      | S k => strip_from k s'
      | O =>
          match whitespace_length s with
          | O => String c (strip_from 0 s')
          | S k => strip_from k s'
          end
      end
  end.

Definition strip_whitespace (s : string) : string := strip_from 0 s.

(** [replace(/pat/g, rep)] for a literal, non-empty [pat]: the matches are
    taken from left to right and do not overlap. *)
Fixpoint replace_from (pat rep : string) (skip : nat) (s : string) : string :=
  match s with
  | EmptyString => EmptyString
  | String c s' =>
      match skip with
      | S k => replace_from pat rep k s'
      | O =>
          if prefix pat s
          then rep ++ replace_from pat rep (String.length pat - 1) s'
          else String c (replace_from pat rep 0 s')
      end
  end.

Definition replace_all (pat rep : string) (s : string) : string :=
  replace_from pat rep 0 s.

(** [replace(/(?<![0-9.])e(?![0-9+-])/g, 'E')]. *)
Definition blocks_before (c : ascii) : bool := is_digit c || Ascii.eqb c ".".
Definition blocks_after (c : ascii) : bool :=
  is_digit c || Ascii.eqb c "+" || Ascii.eqb c "-".

Fixpoint replace_e (prev : option ascii) (s : string) : string :=
  match s with
  | EmptyString => EmptyString
  | String c s' =>
      let before := match prev with Some p => blocks_before p | None => false end in
      let after := match s' with String n _ => blocks_after n | EmptyString => false end in
      String (if Ascii.eqb c "e" && negb before && negb after then "E"%char else c)
             (replace_e (Some c) s')
  end.

(** Step 2, symbol replacement. *)
Definition replace_symbols (s : string) : string :=
  replace_all "--" "+"
    (replace_all "abs(" "abs("
      (replace_all glyph_sqrt "sqrt"
        (replace_all "^" "**"
          (replace_all glyph_phi "PHI"
            (replace_e None
              (replace_all glyph_pi "PI"
                (replace_all glyph_divide "/"
                  (replace_all glyph_times "*" s)))))))).

(** [replace(/(L)(R)/g, '$1*$2')] for two character classes [L] and [R]. *)
Fixpoint insert_star (L R : ascii -> bool) (s : string) : string :=
  match s with
  | EmptyString => EmptyString
  | String c1 s' =>
      match s' with
      | String c2 s'' =>
          if L c1 && R c2
          then String c1 (String "*" (String c2 (insert_star L R s'')))
          else String c1 (insert_star L R s')
      | EmptyString => String c1 EmptyString
      end
  end.

Definition is_close_paren (c : ascii) : bool := Ascii.eqb c ")".
Definition is_bang (c : ascii) : bool := Ascii.eqb c "!".

(** Step 3, the three passes of implicit multiplication. *)
Definition implicit_multiplication (s : string) : string :=
  insert_star is_bang alnum_or_open
    (insert_star is_close_paren alnum_or_open
      (insert_star is_digit letter_or_open s)).

(** Step 3 as the specification words it: one pass that puts a [*]
    between two adjacent characters exactly in the cases (a) digit then
    letter or open parenthesis, (b) close parenthesis then digit, letter or
    open parenthesis, (c) [!] then digit, letter or open parenthesis. *)
Definition needs_multiply (c1 c2 : ascii) : bool :=
  (is_digit c1 && letter_or_open c2)
  || (is_close_paren c1 && alnum_or_open c2)
  || (is_bang c1 && alnum_or_open c2).

Fixpoint multiply_after (P : ascii -> ascii -> bool) (c1 : ascii) (s : string)
  : string :=
  match s with
  | EmptyString => EmptyString
  | String c2 s' =>
      if P c1 c2 then String "*" (String c2 (multiply_after P c2 s'))
      else String c2 (multiply_after P c2 s')
  end.

Definition insert_multiply (P : ascii -> ascii -> bool) (s : string) : string :=
  match s with
  | EmptyString => EmptyString
  | String c s' => String c (multiply_after P c s')
  end.

(** The match of [(\d+(?:\.\d+)?)!] at the start of a text that starts with
    a digit: the literal and what follows the [!]. *)
Definition match_factorial (s : string) : option (string * string) :=
  let (d1, r1) := span_digits s in
  match r1 with
  | String "!" r => Some (d1, r)
  | String "." t =>
      let (d2, r2) := span_digits t in
      match d2, r2 with
      | String _ _, String "!" r => Some (d1 ++ "." ++ d2, r)
      | _, _ => None
      end
  | _ => None
  end.

(** Step 4: every literal followed by [!] becomes
    [String(factorial(Number(literal)))].  [steps] bounds the scan and is
    the length of the text; [fuel] is the fuel of each [factorial]. *)
Fixpoint replace_factorials (steps fuel : nat) (s : string) : option string :=
  match steps with
  | O => Some s
  | S steps' =>
      match s with
      | EmptyString => Some EmptyString
      | String c s' =>
          if is_digit c then
            match match_factorial s with
            | Some (num, rest) =>
                match Primitives.factorial fuel (Number_of_string num) with
                | None => None
                | Some f =>
                    option_map (append (Number_toString f))
                               (replace_factorials steps' fuel rest)
                end
            | None =>
                let (d1, r1) := span_digits s in
                option_map (append d1) (replace_factorials steps' fuel r1)
            end
          else option_map (String c) (replace_factorials steps' fuel s')
      end
  end.

Definition precompute_factorials (fuel : nat) (s : string) : option string :=
  replace_factorials (String.length s) fuel s.

(** Steps 1 to 4. *)
Definition sanitize (fuel : nat) (expression : string) : option string :=
  precompute_factorials fuel
    (implicit_multiplication (replace_symbols (strip_whitespace expression))).

End Normalizer.

(** ** Step 5: the script built by [evaluateExpression]

    The source runs [new Function(functionBody)], whose body declares the
    scope ([PI], [E], [PHI], the ten functions) and returns the sanitized
    expression.  The ECMAScript expressions made of decimal literals,
    identifiers, [+ - * / **], calls, parentheses, the comma operator and
    comments are evaluated here; any other script is left to the host. *)

Module Script.
Import JS.

(** Modelled from the spec: the type [AngleMode], imported from [../types],
    a module that is not among the sources.  The spec names the two modes,
    degrees and radians; the source compares a mode with ['deg']. *)
Inductive AngleMode : Type := deg | rad.

Inductive builtin : Type :=
  Sin | Cos | Tan | Csc | Sec | Cot | Log | Ln | Sqrt | Abs.

(** ECMAScript values: numbers, the functions of the scope, [undefined],
    and any other value, known by the result of [ToNumber] on it ([None]
    when [ToNumber] throws). *)
Inductive value : Type :=
  | VNum (x : float)
  | VFun (f : builtin)
  | VUndefined
  | VOther (toNumber : option float).

(** How running the function ends. *)
Inductive completion : Type :=
  | Returned (v : value)
  | Threw.

(** What the host provides: the implementation-approximated functions of
    [Math], the exponentiation of numbers, the properties of the global
    object, and the result of the scripts outside the fragment. *)
Record Host : Type := {
  Math_sin : float -> float;
  Math_cos : float -> float;
  Math_tan : float -> float;
  Math_log10 : float -> float;
  Math_log : float -> float;
  Math_pow : float -> float -> float;
  global : string -> option value;
  other_script : AngleMode -> string -> completion
}.

(** Three-way results: a result, a thrown error, or a script outside the
    fragment. *)
Inductive res (A : Type) : Type :=
  | Ok (a : A)
  | Throw
  | Unknown.
Arguments Ok {A} a.
Arguments Throw {A}.
Arguments Unknown {A}.

Definition bind {A B : Type} (r : res A) (k : A -> res B) : res B :=
  match r with
  | Ok a => k a
  | Throw => Throw
  | Unknown => Unknown
  end.

Notation "x <- r ;; k" := (bind r (fun x => k))
  (at level 61, r at next level, right associativity).
Notation "' p <- r ;; k" := (bind r (fun x => let 'p := x in k))
  (at level 61, p pattern, r at next level, right associativity).

(** *** Tokens *)

Inductive token : Type :=
  | TNum (x : float)
  | TIdent (name : string)
  | TPlus | TMinus | TStar | TStarStar | TSlash
  | TLParen | TRParen | TComma.

Definition is_ident_start (c : ascii) : bool :=
  Normalizer.is_letter c || Ascii.eqb c "$" || Ascii.eqb c "_".

Definition is_ident_part (c : ascii) : bool := is_ident_start c || is_digit c.

Fixpoint span_ident (s : string) : string * string :=
  match s with
  | String c s' =>
      if is_ident_part c then let (i, r) := span_ident s' in (String c i, r)
      else (EmptyString, s)
  | EmptyString => (EmptyString, EmptyString)
  end.

(** Words that are not plain identifier references. *)
Definition reserved_words : list string :=
  ["await"; "break"; "case"; "catch"; "class"; "const"; "continue";
   "debugger"; "default"; "delete"; "do"; "else"; "enum"; "export";
   "extends"; "false"; "finally"; "for"; "function"; "if"; "import"; "in";
   "instanceof"; "new"; "null"; "return"; "super"; "switch"; "this";
   "throw"; "true"; "try"; "typeof"; "var"; "void"; "while"; "with";
   "yield"; "let"; "static"; "async"; "arguments"; "eval"; "implements";
   "interface"; "package"; "private"; "protected"; "public"; "of"; "get";
   "set"; "target"; "meta"].

Definition is_reserved (name : string) : bool :=
  existsb (String.eqb name) reserved_words.

Definition non_ascii (c : ascii) : bool := (128 <=? nat_of_ascii c)%nat.

(** The text after the first [*/], if any. *)
Fixpoint after_comment_end (s : string) : option string :=
  match s with
  | String "*" ((String "/" r) as s') =>
      Some r
  | String _ s' => after_comment_end s'
  | EmptyString => None
  end.

Definition starts_with (P : ascii -> bool) (s : string) : bool :=
  match s with
  | String c _ => P c
  | EmptyString => false
  end.

(** The lexer; [steps] bounds the scan and is the length of the text. *)
Fixpoint lex (steps : nat) (s : string) : res (list token) :=
  match steps with
  | O => match s with EmptyString => Ok [] | _ => Unknown end
  | S steps' =>
      let one (t : token) (r : string) : res (list token) :=
        ts <- lex steps' r ;; Ok (t :: ts) in
      match s with
      | EmptyString => Ok []
      | String c r =>
          if is_digit c || (Ascii.eqb c "." && starts_with is_digit r) then
            if Ascii.eqb c "0" && starts_with is_digit r then Unknown
            else
              match read_decimal s with
              | Some (x, r') =>
                  if starts_with is_ident_part r' || starts_with non_ascii r'
                  then Unknown
                  else one (TNum x) r'
              | None => Unknown
              end
          else if is_ident_start c then
            let (name, r') := span_ident s in
            if starts_with non_ascii r' || is_reserved name then Unknown
            else one (TIdent name) r'
          else if Ascii.eqb c "+" then
            if starts_with (Ascii.eqb "+") r then Unknown else one TPlus r
          else if Ascii.eqb c "-" then
            if starts_with (Ascii.eqb "-") r then Unknown else one TMinus r
          else if Ascii.eqb c "*" then
            match r with
            | String "*" r' => one TStarStar r'
            | _ => one TStar r
            end
          else if Ascii.eqb c "/" then
            match r with
            | String "/" _ => Ok []
            | String "*" r' =>
                match after_comment_end r' with
                | Some r'' => lex steps' r''
                | None => Throw
                end
            | _ => one TSlash r
            end
          else if Ascii.eqb c "(" then one TLParen r
          else if Ascii.eqb c ")" then one TRParen r
          else if Ascii.eqb c "," then one TComma r
          else Unknown
      end
  end.

(** *** Expressions *)

Inductive binop : Type := Add | Sub | Mul | Div | Pow.

Inductive expr : Type :=
  | ENum (x : float)
  | EVar (name : string)
  | EPos (e : expr)
  | ENeg (e : expr)
  | EBin (op : binop) (l r : expr)
  | ECall (f : expr) (args : list expr)
  | EComma (l r : expr).

(** The parser follows the grammar of ECMAScript from [Expression] down to
    [PrimaryExpression]; every function spends one unit of [fuel] per call. *)
Fixpoint parse_comma (fuel : nat) (ts : list token) : res (expr * list token) :=
  match fuel with
  | O => Unknown
  | S fuel' =>
      '(e, r) <- parse_additive fuel' ts ;; comma_rest fuel' e r
  end

with comma_rest (fuel : nat) (l : expr) (ts : list token)
  : res (expr * list token) :=
  match fuel with
  | O => Unknown
  | S fuel' =>
      match ts with
      | TComma :: r =>
          '(e, r') <- parse_additive fuel' r ;; comma_rest fuel' (EComma l e) r'
      | _ => Ok (l, ts)
      end
  end

with parse_additive (fuel : nat) (ts : list token) : res (expr * list token) :=
  match fuel with
  | O => Unknown
  | S fuel' =>
      '(e, r) <- parse_multiplicative fuel' ts ;; additive_rest fuel' e r
  end

with additive_rest (fuel : nat) (l : expr) (ts : list token)
  : res (expr * list token) :=
  match fuel with
  | O => Unknown
  | S fuel' =>
      match ts with
      | TPlus :: r =>
          '(e, r') <- parse_multiplicative fuel' r ;;
          additive_rest fuel' (EBin Add l e) r'
      | TMinus :: r =>
          '(e, r') <- parse_multiplicative fuel' r ;;
          additive_rest fuel' (EBin Sub l e) r'
      | _ => Ok (l, ts)
      end
  end

with parse_multiplicative (fuel : nat) (ts : list token)
  : res (expr * list token) :=
  match fuel with
  | O => Unknown
  | S fuel' =>
      '(e, r) <- parse_exponent fuel' ts ;; multiplicative_rest fuel' e r
  end

with multiplicative_rest (fuel : nat) (l : expr) (ts : list token)
  : res (expr * list token) :=
  match fuel with
  | O => Unknown
  | S fuel' =>
      match ts with
      | TStar :: r =>
          '(e, r') <- parse_exponent fuel' r ;;
          multiplicative_rest fuel' (EBin Mul l e) r'
      | TSlash :: r =>
          '(e, r') <- parse_exponent fuel' r ;;
          multiplicative_rest fuel' (EBin Div l e) r'
      | _ => Ok (l, ts)
      end
  end

(** [UnaryExpression], or [UpdateExpression ** ExponentiationExpression]:
    a base that starts with a unary operator is a syntax error. *)
with parse_exponent (fuel : nat) (ts : list token) : res (expr * list token) :=
  match fuel with
  | O => Unknown
  | S fuel' =>
      match ts with
      | TPlus :: _ | TMinus :: _ =>
          '(e, r) <- parse_unary fuel' ts ;;
          match r with
          | TStarStar :: _ => Throw
          | _ => Ok (e, r)
          end
      | _ =>
          '(e, r) <- parse_call fuel' ts ;;
          match r with
          | TStarStar :: r' =>
              '(e', r'') <- parse_exponent fuel' r' ;; Ok (EBin Pow e e', r'')
          | _ => Ok (e, r)
          end
      end
  end

with parse_unary (fuel : nat) (ts : list token) : res (expr * list token) :=
  match fuel with
  | O => Unknown
  | S fuel' =>
      match ts with
      | TPlus :: r => '(e, r') <- parse_unary fuel' r ;; Ok (EPos e, r')
      | TMinus :: r => '(e, r') <- parse_unary fuel' r ;; Ok (ENeg e, r')
      | _ => parse_call fuel' ts
      end
  end

with parse_call (fuel : nat) (ts : list token) : res (expr * list token) :=
  match fuel with
  | O => Unknown
  | S fuel' =>
      '(e, r) <- parse_primary fuel' ts ;; call_rest fuel' e r
  end

with call_rest (fuel : nat) (f : expr) (ts : list token)
  : res (expr * list token) :=
  match fuel with
  | O => Unknown
  | S fuel' =>
      match ts with
      | TLParen :: r =>
          '(args, r') <- parse_arguments fuel' r ;;
          call_rest fuel' (ECall f args) r'
      | _ => Ok (f, ts)
      end
  end

(** The arguments after the opening parenthesis; a trailing comma is
    allowed. *)
with parse_arguments (fuel : nat) (ts : list token)
  : res (list expr * list token) :=
  match fuel with
  | O => Unknown
  | S fuel' =>
      match ts with
      | TRParen :: r => Ok ([], r)
      | _ =>
          '(e, r) <- parse_additive fuel' ts ;;
          match r with
          | TRParen :: r' => Ok ([e], r')
          | TComma :: r' =>
              '(es, r'') <- parse_arguments fuel' r' ;; Ok (e :: es, r'')
          | _ => Throw
          end
      end
  end

(** A [/] where an operand is expected starts a regular expression. *)
with parse_primary (fuel : nat) (ts : list token) : res (expr * list token) :=
  match fuel with
  | O => Unknown
  | S fuel' =>
      match ts with
      | TNum x :: r => Ok (ENum x, r)
      | TIdent name :: r => Ok (EVar name, r)
      | TLParen :: r =>
          '(e, r') <- parse_comma fuel' r ;;
          match r' with
          | TRParen :: r'' => Ok (e, r'')
          | _ => Throw
          end
      | TSlash :: _ => Unknown
      | _ => Throw
      end
  end.

(** The returned expression: nothing ([return;]) or one [Expression] that
    uses every token. *)
Definition parse (ts : list token) : res (option expr) :=
  match ts with
  | [] => Ok None
  | _ =>
      '(e, r) <- parse_comma (12 * (List.length ts + 2)) ts ;;
      match r with
      | [] => Ok (Some e)
      | _ => Throw
      end
  end.

(** *** Evaluation *)

Definition degToRad : float := Math_PI / 180.

Definition PHI : float := (1 + Math_sqrt 5) / 2.

Definition to_radians (angleMode : AngleMode) (x : float) : float :=
  match angleMode with
  | deg => x * degToRad
  | rad => x
  end.

(** The ten functions of the scope, on a number. *)
Definition apply_builtin (H : Host) (angleMode : AngleMode) (f : builtin)
    (x : float) : float :=
  match f with
  | Sin => Math_sin H (to_radians angleMode x)
  | Cos => Math_cos H (to_radians angleMode x)
  | Tan => Math_tan H (to_radians angleMode x)
  | Csc => 1 / Math_sin H (to_radians angleMode x)
  | Sec => 1 / Math_cos H (to_radians angleMode x)
  | Cot => 1 / Math_tan H (to_radians angleMode x)
  | Log => Math_log10 H x
  | Ln => Math_log H x
  | Sqrt => Math_sqrt x
  | Abs => Math_abs x
  end.

(** The scope of the function body, then the global object. *)
Definition lookup (H : Host) (name : string) : res value :=
  if String.eqb name "PI" then Ok (VNum Math_PI)
  else if String.eqb name "E" then Ok (VNum Math_E)
  else if String.eqb name "PHI" then Ok (VNum PHI)
  else if String.eqb name "sin" then Ok (VFun Sin)
  else if String.eqb name "cos" then Ok (VFun Cos)
  else if String.eqb name "tan" then Ok (VFun Tan)
  else if String.eqb name "csc" then Ok (VFun Csc)
  else if String.eqb name "sec" then Ok (VFun Sec)
  else if String.eqb name "cot" then Ok (VFun Cot)
  else if String.eqb name "log" then Ok (VFun Log)
  else if String.eqb name "ln" then Ok (VFun Ln)
  else if String.eqb name "sqrt" then Ok (VFun Sqrt)
  else if String.eqb name "abs" then Ok (VFun Abs)
  else if String.eqb name "Infinity" then Ok (VNum infinity)
  else if String.eqb name "NaN" then Ok (VNum nan)
  else if String.eqb name "undefined" then Ok VUndefined
  else
    match global H name with
    | Some v => Ok v
    | None => Throw
    end.

(** [ToNumber] inside the fragment: a function or [undefined] gives NaN. *)
Definition to_number (v : value) : res float :=
  match v with
  | VNum x => Ok x
  | VFun _ => Ok nan
  | VUndefined => Ok nan
  | VOther _ => Unknown
  end.

(** [+] concatenates when an operand is not primitive. *)
Definition add_values (l r : value) : res value :=
  match l, r with
  | VFun _, _ | _, VFun _ => Unknown
  | _, _ => x <- to_number l ;; y <- to_number r ;; Ok (VNum (x + y))
  end.

Definition arith (H : Host) (op : binop) (l r : value) : res value :=
  match op with
  | Add => add_values l r
  | Sub => x <- to_number l ;; y <- to_number r ;; Ok (VNum (x - y))
  | Mul => x <- to_number l ;; y <- to_number r ;; Ok (VNum (x * y))
  | Div => x <- to_number l ;; y <- to_number r ;; Ok (VNum (x / y))
  | Pow => x <- to_number l ;; y <- to_number r ;; Ok (VNum (Math_pow H x y))
  end.

(** A call: the callee, then the arguments from left to right, then the
    check that the callee is a function. *)
Definition call (H : Host) (angleMode : AngleMode) (f : value)
    (args : list value) : res value :=
  match f with
  | VFun g =>
      x <- to_number (hd VUndefined args) ;;
      Ok (VNum (apply_builtin H angleMode g x))
  | VOther _ => Unknown
  | _ => Throw
  end.

Fixpoint eval (H : Host) (angleMode : AngleMode) (e : expr) : res value :=
  match e with
  | ENum x => Ok (VNum x)
  | EVar name => lookup H name
  | EPos e1 => v <- eval H angleMode e1 ;; x <- to_number v ;; Ok (VNum x)
  | ENeg e1 => v <- eval H angleMode e1 ;; x <- to_number v ;; Ok (VNum (- x))
  | EBin op l r =>
      vl <- eval H angleMode l ;; vr <- eval H angleMode r ;; arith H op vl vr
  | ECall f args =>
      vf <- eval H angleMode f ;;
      vs <- (fix eval_args (es : list expr) : res (list value) :=
               match es with
               | [] => Ok []
               | e1 :: es' =>
                   v <- eval H angleMode e1 ;;
                   vs <- eval_args es' ;; Ok (v :: vs)
               end) args ;;
      call H angleMode vf vs
  | EComma l r => _ <- eval H angleMode l ;; eval H angleMode r
  end.

(** [new Function(functionBody)()] on the sanitized expression. *)
Definition run_fragment (H : Host) (angleMode : AngleMode) (sanitizedExpr : string)
  : res value :=
  ts <- lex (String.length sanitizedExpr) sanitizedExpr ;;
  oe <- parse ts ;;
  match oe with
  | None => Ok VUndefined
  | Some e => eval H angleMode e
  end.

Definition run (H : Host) (angleMode : AngleMode) (sanitizedExpr : string)
  : completion :=
  match run_fragment H angleMode sanitizedExpr with
  | Ok v => Returned v
  | Throw => Threw
  | Unknown => other_script H angleMode sanitizedExpr
  end.

End Script.

(** ** [evaluateExpression] *)

Module Evaluator.
Import JS Script.

(** [ToNumber] on any value; [None] when it throws. *)
Definition ToNumber (v : value) : option float :=
  match v with
  | VNum x => Some x
  | VFun _ => Some nan
  | VUndefined => Some nan
  | VOther n => n
  end.

(** Step 6, result validation, inside the [try]: a throw of [ToNumber] in
    the global [isFinite] is caught like the others. *)
Definition validate (result : value) : number_or_string :=
  match ToNumber result with
  | None => inr "Format Error"
  | Some n =>
      if negb (isFinite n) then inr "Can't divide by 0"
      else
        match result with
        | VNum x => if isNaN x then inr "Invalid Input" else inl x
        | _ => inr "Invalid Input"
        end
  end.

(** [None] when the fuel runs out in a [factorial]. *)
Definition evaluateExpression (H : Host) (fuel : nat) (expression : string)
    (angleMode : AngleMode) : option number_or_string :=
  match expression with
  | EmptyString => Some (inl 0)
  | _ =>
      match Normalizer.sanitize fuel expression with
      | None => None
      | Some sanitizedExpr =>
          match run H angleMode sanitizedExpr with
          | Returned result => Some (validate result)
          | Threw => Some (inr "Format Error")
          end
      end
  end.

End Evaluator.

(** ** Definitions used by the statements *)

Module Statements.
Import JS Script.

(** The product of the integers from 1 to [n]. *)
Fixpoint product_up_to (n : nat) : Z :=
  match n with
  | O => 1
  | S k => Z.of_nat (S k) * product_up_to k
  end.

(** The float [x] is exactly the integer [z]. *)
Definition represents (x : float) (z : Z) : Prop :=
  match exact_ratio x with
  | Some (s, num, den) => cond_Zopp s num = (z * den)%Z
  | None => z = 0%Z /\ Prim2SF x = S754_zero false
  end.

(** The decimal literal of 10^309, which is beyond the largest binary64
    value. *)
Definition huge_literal : string := String "1" (zeros 309).

(** A host for the examples: sine, cosine and tangent take the values of a
    correctly rounded implementation at the arguments used below, and the
    global object is empty. *)
Definition example_host : Host := {|
  Math_sin := fun x =>
    if x =? 0 then x
    else if x =? 0x1.921fb54442d18p+0 then 1
    else if x =? 90 then 0.8939966636005579
    else nan;
  Math_cos := fun x => if x =? 0 then 1 else nan;
  Math_tan := fun x => if x =? 0 then x else nan;
  Math_log10 := fun _ => nan;
  Math_log := fun _ => nan;
  Math_pow := fun _ _ => nan;
  global := fun _ => None;
  other_script := fun _ _ => Threw
|}.

(** *** Bounds on binary64 values, for the loop of [decimalToFraction] *)

(** [x] is [+Infinity] or a positive finite value of at least [2^u]. *)
Definition pos_ge (u : Z) (x : spec_float) : Prop :=
  x = S754_infinity false
  \/ exists m e, x = S754_finite false m e /\ (u < Zpos (digits2_pos m) + e)%Z.

(** [x] is [+0], a positive finite value or [+Infinity]. *)
Definition nonneg (x : spec_float) : Prop :=
  x = S754_zero false \/ x = S754_infinity false
  \/ exists m e, x = S754_finite false m e.

(** [x] is [+0] or a positive finite value below 1. *)
Definition below_one (x : spec_float) : Prop :=
  x = S754_zero false
  \/ exists m e, x = S754_finite false m e /\ (Zpos (digits2_pos m) + e <= 0)%Z.

(** The float 1. *)
Definition SF_one : spec_float := S754_finite false 4503599627370496 (-52).

Definition F_pos_ge (u : Z) (x : float) : Prop := pos_ge u (Prim2SF x).
Definition F_nonneg (x : float) : Prop := nonneg (Prim2SF x).

(** A state of the loop after at least one iteration: the denominator [k1]
    and the next quotient [b] are at least 1, the other three are not
    negative. *)
Definition positive_convergents (st : Primitives.convergents) : Prop :=
  F_pos_ge 0 (Primitives.k1 st) /\ F_nonneg (Primitives.k2 st)
  /\ F_pos_ge 0 (Primitives.b st)
  /\ F_nonneg (Primitives.h1 st) /\ F_nonneg (Primitives.h2 st).

(** The same with the lower bounds [2^u] of [k1] and [2^v] of [k2]. *)
Definition loop_invariant (u v : Z) (st : Primitives.convergents) : Prop :=
  positive_convergents st /\ F_pos_ge u (Primitives.k1 st)
  /\ ((0 <= v)%Z -> F_pos_ge v (Primitives.k2 st)).

(** The states in which the loop test is evaluated, for the default cap. *)
Inductive reached (value sign tolerance : float)
  : Primitives.convergents -> Prop :=
  | reached_first :
      reached value sign tolerance
        (Primitives.cf_step (Primitives.cf_init (Math_abs value)))
  | reached_next st :
      reached value sign tolerance st ->
      Primitives.cf_continue value sign tolerance
        Primitives.default_maxDenominator st = true ->
      reached value sign tolerance (Primitives.cf_step st).

(** The two sides of the first [/] of a text, the way a reader of the
    fraction text [n/d] takes its numerator and its denominator apart. *)
Fixpoint split_fraction (s : string) : option (string * string) :=
  match s with
  | EmptyString => None
  | String c s' =>
      if Ascii.eqb c "/" then Some (EmptyString, s')
      else
        match split_fraction s' with
        | Some (n, d) => Some (String c n, d)
        | None => None
        end
  end.

(** A text without the character [/]. *)
Fixpoint no_slash (s : string) : Prop :=
  match s with
  | EmptyString => True
  | String c s' => Ascii.eqb c "/" = false /\ no_slash s'
  end.

End Statements.

(** ** Property access on object literals *)

Module Objects.

(** The names every object inherits from [Object.prototype]. *)
Definition Object_prototype_names : list string :=
  ["constructor"; "__defineGetter__"; "__defineSetter__"; "hasOwnProperty";
   "__lookupGetter__"; "__lookupSetter__"; "isPrototypeOf";
   "propertyIsEnumerable"; "toString"; "valueOf"; "__proto__";
   "toLocaleString"].

(** The result of [o[key]] on an object literal [o]: an own property, a
    function or object inherited from [Object.prototype], or [undefined]. *)
Inductive property (A : Type) : Type :=
  | Own (a : A)
  | Inherited
  | Absent.
Arguments Own {A} a.
Arguments Inherited {A}.
Arguments Absent {A}.

Fixpoint own {A : Type} (o : list (string * A)) (key : string) : option A :=
  match o with
  | [] => None
  | (k, a) :: o' => if String.eqb k key then Some a else own o' key
  end.

Definition get {A : Type} (o : list (string * A)) (key : string) : property A :=
  match own o key with
  | Some a => Own a
  | None =>
      if existsb (String.eqb key) Object_prototype_names then Inherited
      else Absent
  end.

(** [Object.keys], in insertion order (no key of the literals below is an
    array index). *)
Definition keys {A : Type} (o : list (string * A)) : list string := map fst o.

(** A result or a thrown [TypeError]. *)
Inductive outcome (A : Type) : Type :=
  | Normal (a : A)
  | TypeError.
Arguments Normal {A} a.
Arguments TypeError {A}.

End Objects.

(** ** The unit converter, second module of [src/utils/math.ts] *)

Module Units.
Import JS Objects.

Inductive UnitCategory : Type :=
  length | weight | volume | temperature | area | speed | time.

Record UnitInfo : Type := {
  name : string;
  symbol : string;
  toBase : float -> float;
  fromBase : float -> float
}.

Definition degree_sign : string := Normalizer.utf8 [194; 176]%nat.
Definition superscript_two : string := Normalizer.utf8 [194; 178]%nat.

Definition UNITS (category : UnitCategory) : list (string * UnitInfo) :=
  match category with
  | length =>
      [("m", {| name := "Meter"; symbol := "m";
                toBase := fun v => v; fromBase := fun v => v |});
       ("km", {| name := "Kilometer"; symbol := "km";
                 toBase := fun v => v * 1000; fromBase := fun v => v / 1000 |});
       ("cm", {| name := "Centimeter"; symbol := "cm";
                 toBase := fun v => v / 100; fromBase := fun v => v * 100 |});
       ("mm", {| name := "Millimeter"; symbol := "mm";
                 toBase := fun v => v / 1000; fromBase := fun v => v * 1000 |});
       ("mi", {| name := "Mile"; symbol := "mi";
                 toBase := fun v => v * 1609.344; fromBase := fun v => v / 1609.344 |});
       ("yd", {| name := "Yard"; symbol := "yd";
                 toBase := fun v => v * 0.9144; fromBase := fun v => v / 0.9144 |});
       ("ft", {| name := "Foot"; symbol := "ft";
                 toBase := fun v => v * 0.3048; fromBase := fun v => v / 0.3048 |});
       ("in", {| name := "Inch"; symbol := "in";
                 toBase := fun v => v * 0.0254; fromBase := fun v => v / 0.0254 |})]
  | weight =>
      [("kg", {| name := "Kilogram"; symbol := "kg";
                 toBase := fun v => v; fromBase := fun v => v |});
       ("g", {| name := "Gram"; symbol := "g";
                toBase := fun v => v / 1000; fromBase := fun v => v * 1000 |});
       ("mg", {| name := "Milligram"; symbol := "mg";
                 toBase := fun v => v / 1000000; fromBase := fun v => v * 1000000 |});
       ("lb", {| name := "Pound"; symbol := "lb";
                 toBase := fun v => v * 0.453592; fromBase := fun v => v / 0.453592 |});
       ("oz", {| name := "Ounce"; symbol := "oz";
                 toBase := fun v => v * 0.0283495; fromBase := fun v => v / 0.0283495 |});
       ("t", {| name := "Metric Ton"; symbol := "t";
                toBase := fun v => v * 1000; fromBase := fun v => v / 1000 |})]
  | volume =>
      [("L", {| name := "Liter"; symbol := "L";
                toBase := fun v => v; fromBase := fun v => v |});
       ("mL", {| name := "Milliliter"; symbol := "mL";
                 toBase := fun v => v / 1000; fromBase := fun v => v * 1000 |});
       ("gal", {| name := "Gallon (US)"; symbol := "gal";
                  toBase := fun v => v * 3.78541; fromBase := fun v => v / 3.78541 |});
       ("qt", {| name := "Quart (US)"; symbol := "qt";
                 toBase := fun v => v * 0.946353; fromBase := fun v => v / 0.946353 |});
       ("pt", {| name := "Pint (US)"; symbol := "pt";
                 toBase := fun v => v * 0.473176; fromBase := fun v => v / 0.473176 |});
       ("cup", {| name := "Cup (US)"; symbol := "cup";
                  toBase := fun v => v * 0.236588; fromBase := fun v => v / 0.236588 |});
       ("floz", {| name := "Fluid Ounce"; symbol := "fl oz";
                   toBase := fun v => v * 0.0295735; fromBase := fun v => v / 0.0295735 |})]
  | temperature =>
      [("C", {| name := "Celsius"; symbol := degree_sign ++ "C";
                toBase := fun v => v; fromBase := fun v => v |});
       ("F", {| name := "Fahrenheit"; symbol := degree_sign ++ "F";
                toBase := fun v => (v - 32) * 5 / 9;
                fromBase := fun v => v * 9 / 5 + 32 |});
       ("K", {| name := "Kelvin"; symbol := "K";
                toBase := fun v => v - 273.15; fromBase := fun v => v + 273.15 |})]
  | area =>
      [("m2", {| name := "Square Meter"; symbol := "m" ++ superscript_two;
                 toBase := fun v => v; fromBase := fun v => v |});
       ("km2", {| name := "Square Km"; symbol := "km" ++ superscript_two;
                  toBase := fun v => v * 1000000; fromBase := fun v => v / 1000000 |});
       ("ha", {| name := "Hectare"; symbol := "ha";
                 toBase := fun v => v * 10000; fromBase := fun v => v / 10000 |});
       ("acre", {| name := "Acre"; symbol := "acre";
                   toBase := fun v => v * 4046.86; fromBase := fun v => v / 4046.86 |});
       ("ft2", {| name := "Square Foot"; symbol := "ft" ++ superscript_two;
                  toBase := fun v => v * 0.092903; fromBase := fun v => v / 0.092903 |});
       ("in2", {| name := "Square Inch"; symbol := "in" ++ superscript_two;
                  toBase := fun v => v * 0.00064516; fromBase := fun v => v / 0.00064516 |})]
  | speed =>
      [("mps", {| name := "Meters/sec"; symbol := "m/s";
                  toBase := fun v => v; fromBase := fun v => v |});
       ("kmph", {| name := "Km/hour"; symbol := "km/h";
                   toBase := fun v => v / 3.6; fromBase := fun v => v * 3.6 |});
       ("mph", {| name := "Miles/hour"; symbol := "mph";
                  toBase := fun v => v * 0.44704; fromBase := fun v => v / 0.44704 |});
       ("knot", {| name := "Knot"; symbol := "kn";
                   toBase := fun v => v * 0.514444; fromBase := fun v => v / 0.514444 |});
       ("fps", {| name := "Feet/sec"; symbol := "ft/s";
                  toBase := fun v => v * 0.3048; fromBase := fun v => v / 0.3048 |})]
  | time =>
      [("s", {| name := "Second"; symbol := "s";
                toBase := fun v => v; fromBase := fun v => v |});
       ("ms", {| name := "Millisecond"; symbol := "ms";
                 toBase := fun v => v / 1000; fromBase := fun v => v * 1000 |});
       ("min", {| name := "Minute"; symbol := "min";
                  toBase := fun v => v * 60; fromBase := fun v => v / 60 |});
       ("hr", {| name := "Hour"; symbol := "hr";
                 toBase := fun v => v * 3600; fromBase := fun v => v / 3600 |});
       ("day", {| name := "Day"; symbol := "day";
                  toBase := fun v => v * 86400; fromBase := fun v => v / 86400 |});
       ("wk", {| name := "Week"; symbol := "wk";
                 toBase := fun v => v * 604800; fromBase := fun v => v / 604800 |})]
  end.

(** [convertUnit]: a name inherited from [Object.prototype] is truthy and has
    no [toBase] or [fromBase], so calling it throws. *)
Definition convertUnit (value : float) (fromUnit toUnit : string)
    (category : UnitCategory) : outcome float :=
  if isNaN value || negb (isFinite value) then Normal 0
  else
    let units := UNITS category in
    match get units fromUnit, get units toUnit with
    | Absent, _ | _, Absent => Normal 0
    | Own from, Own to => Normal (fromBase to (toBase from value))
    | _, _ => TypeError
    end.

Definition getConversionRate (fromUnit toUnit : string) (category : UnitCategory)
  : outcome float :=
  convertUnit 1 fromUnit toUnit category.

End Units.

(** ** The currency converter, [src/utils/currency] *)

Module Currency.
Import JS Objects.

Definition DEFAULT_EXCHANGE_RATES : list (string * float) :=
  [("USD", 1.0); ("EUR", 0.92); ("GBP", 0.79); ("JPY", 151.5); ("INR", 83.5);
   ("CAD", 1.36); ("AUD", 1.52); ("CNY", 7.23); ("CHF", 0.91); ("SGD", 1.35)].

(** [!rate] for the result of [rates[key]]. *)
Definition falsy (rate : property float) : bool :=
  match rate with
  | Own x => (x =? 0) || isNaN x
  | Inherited => false
  | Absent => true
  end.

(** [ToNumber] on the result of [rates[key]]: the inherited functions and
    objects give NaN. *)
Definition rate_number (rate : property float) : float :=
  match rate with
  | Own x => x
  | Inherited => nan
  | Absent => nan
  end.

Definition convertCurrency (amount : float) (from to : string)
    (rates : list (string * float)) : float :=
  if isNaN amount || negb (isFinite amount) then 0
  else
    let rateFrom := get rates from in
    let rateTo := get rates to in
    if falsy rateFrom || falsy rateTo then 0
    else
      let inUSD := amount / rate_number rateFrom in
      inUSD * rate_number rateTo.

Definition getExchangeRate (from to : string) (rates : list (string * float))
  : float :=
  let rateFrom := get rates from in
  let rateTo := get rates to in
  if falsy rateFrom || falsy rateTo then 0
  else rate_number rateTo / rate_number rateFrom.

End Currency.

(** ** ECMAScript string primitives used by the components *)

Module Strings.
Import JS.

(** [s.includes(pat)]. *)
Fixpoint includes (pat s : string) : bool :=
  prefix pat s
  || match s with
     | String _ s' => includes pat s'
     | EmptyString => false
     end.

(** [s.split(sep)] for a non-empty [sep]: the pieces between the
    occurrences of [sep], taken from left to right. *)
Fixpoint split_from (sep : string) (skip : nat) (s : string) : list string :=
  match s with
  | EmptyString => [EmptyString]
  | String c s' =>
      match skip with
      | S k => split_from sep k s'
      | O =>
          if prefix sep s
          then EmptyString :: split_from sep (String.length sep - 1) s'
          else
            match split_from sep 0 s' with
            | piece :: pieces => String c piece :: pieces
            | [] => [String c EmptyString]
            end
      end
  end.

Definition split (sep s : string) : list string := split_from sep 0 s.

(** [parts.join(sep)]. *)
Definition join (sep : string) (parts : list string) : string :=
  String.concat sep parts.

(** [s.trim()]: the white space of [\s] is removed at both ends. *)
Fixpoint trim_start_from (skip : nat) (s : string) : string :=
  match s with
  | EmptyString => EmptyString
  | String c s' =>
      match skip with
      | S k => trim_start_from k s'
      | O =>
          match Normalizer.whitespace_length s with
          | O => s
          | S k => trim_start_from k s'
          end
      end
  end.

Definition trim_start (s : string) : string := trim_start_from 0 s.

Definition is_blank (s : string) : bool :=
  match trim_start s with
  | EmptyString => true
  | _ => false
  end.

Fixpoint trim_end (s : string) : string :=
  match s with
  | EmptyString => EmptyString
  | String c s' => if is_blank s then EmptyString else String c (trim_end s')
  end.

Definition trim (s : string) : string := trim_end (trim_start s).

(** *** [Number(text)], the operation [StringToNumber] *)

Definition in_range (lo hi : nat) (c : ascii) : bool :=
  let n := nat_of_ascii c in ((lo <=? n) && (n <=? hi))%nat.

Definition is_hex_digit (c : ascii) : bool :=
  is_digit c || in_range 97 102 c || in_range 65 70 c.

Definition hex_value (c : ascii) : Z :=
  if is_digit c then digit_value c
  else if in_range 97 102 c then Z.of_nat (nat_of_ascii c) - 87
  else Z.of_nat (nat_of_ascii c) - 55.

Fixpoint every_char (P : ascii -> bool) (s : string) : bool :=
  match s with
  | EmptyString => true
  | String c s' => P c && every_char P s'
  end.

Fixpoint Z_of_radix (radix : Z) (acc : Z) (s : string) : Z :=
  match s with
  | EmptyString => acc
  | String c s' => Z_of_radix radix (radix * acc + hex_value c) s'
  end.

(** [0x], [0o] and [0b] literals, without sign. *)
Definition NonDecimalIntegerLiteral (s : string) : option float :=
  match s with
  | String "0" (String x ((String _ _) as ds)) =>
      let literal (P : ascii -> bool) (radix : Z) : option float :=
        if every_char P ds then Some (float_of_Z (Z_of_radix radix 0 ds))
        else None in
      if Ascii.eqb x "x" || Ascii.eqb x "X" then literal is_hex_digit 16%Z
      else if Ascii.eqb x "o" || Ascii.eqb x "O" then literal (in_range 48 55) 8%Z
      else if Ascii.eqb x "b" || Ascii.eqb x "B" then literal (in_range 48 49) 2%Z
      else None
  | _ => None
  end.

Definition StrUnsignedDecimalLiteral (s : string) : float :=
  if String.eqb s "Infinity" then infinity
  else
    match read_decimal s with
    | Some (x, EmptyString) => x
    | _ => nan
    end.

Definition StringToNumber (s : string) : float :=
  match trim s with
  | EmptyString => 0
  | String "+" r => StrUnsignedDecimalLiteral r
  | String "-" r => - StrUnsignedDecimalLiteral r
  | t =>
      match NonDecimalIntegerLiteral t with
      | Some x => x
      | None => StrUnsignedDecimalLiteral t
      end
  end.

End Strings.

(** ** State handling of the component [App] *)

Module App.
Import JS Objects Units Strings.

(** [isError]: the four texts the display shows for an error. *)
Definition isError (val : string) : bool :=
  existsb (String.eqb val)
    ["Error"; "Can't divide by 0"; "Invalid Input"; "Format Error"].

(** *** Undo and redo *)

Record CalculatorState : Type := {
  expression : string;
  displayValue : string;
  overwrite : bool;
  openParenCount : float
}.

(** The part of the component state the handlers below read and write: the
    four values of a snapshot, the two stacks, and whether the history panel
    is shown. *)
Record Session : Type := {
  currentState : CalculatorState;
  undoStack : list CalculatorState;
  redoStack : list CalculatorState;
  showHistory : bool
}.

Definition initial : Session := {|
  currentState := {| expression := EmptyString; displayValue := "0";
                     overwrite := true; openParenCount := 0 |};
  undoStack := [];
  redoStack := [];
  showHistory := false
|}.

Definition saveState (s : Session) : Session :=
  {| currentState := currentState s;
     undoStack := firstn 50 (currentState s :: undoStack s);
     redoStack := [];
     showHistory := showHistory s |}.

Definition handleUndo (s : Session) : Session :=
  match undoStack s with
  | [] => s
  | previousState :: rest =>
      {| currentState := previousState;
         undoStack := rest;
         redoStack := currentState s :: redoStack s;
         showHistory := showHistory s |}
  end.

Definition handleRedo (s : Session) : Session :=
  match redoStack s with
  | [] => s
  | nextState :: rest =>
      {| currentState := nextState;
         undoStack := currentState s :: undoStack s;
         redoStack := rest;
         showHistory := showHistory s |}
  end.

(** [handleHistoryItemClick]: the state is saved first, also when the entry
    has no result. *)
Definition handleHistoryItemClick (entry : string) (s : Session) : Session :=
  let saved := saveState s in
  match nth_error (split " = " entry) 1 with
  | Some (String c r) =>
      {| currentState :=
           {| expression := EmptyString;
              displayValue := String c r;
              overwrite := true;
              openParenCount := openParenCount (currentState s) |};
         undoStack := undoStack saved;
         redoStack := redoStack saved;
         showHistory := false |}
  | _ => saved
  end.

(** The test [/^\d+\/\d+$/]. *)
Definition is_fraction_text (s : string) : bool :=
  let (numerator, r) := span_digits s in
  match numerator, r with
  | String _ _, String "/" t =>
      match span_digits t with
      | (String _ _, EmptyString) => true
      | _ => false
      end
  | _, _ => false
  end.

(** [handlePaste], with the boolean it returns. *)
Definition handlePaste (text : string) (s : Session) : Session * bool :=
  if isError (displayValue (currentState s)) then (s, false)
  else
    let sanitized := trim (Normalizer.replace_all "," EmptyString text) in
    if (negb (isNaN (StringToNumber sanitized)) || is_fraction_text sanitized)
       && negb (String.eqb sanitized EmptyString)
    then
      let saved := saveState s in
      ({| currentState :=
            {| expression := expression (currentState s);
               displayValue := sanitized;
               overwrite := false;
               openParenCount := openParenCount (currentState s) |};
          undoStack := undoStack saved;
          redoStack := redoStack saved;
          showHistory := showHistory s |}, true)
    else (s, false).

(** What a handler does to a session.  [handleButtonClick], [handlePaste]
    and [handleHistoryItemClick] write the four values only after a call of
    [saveState]; [Edit next show] stands for such a handler, [next] and
    [show] being the values it leaves. *)
Inductive event : Type :=
  | Edit (next : CalculatorState) (show : bool)
  | Undo
  | Redo.

Definition handle (s : Session) (ev : event) : Session :=
  match ev with
  | Edit next show =>
      {| currentState := next;
         undoStack := undoStack (saveState s);
         redoStack := redoStack (saveState s);
         showHistory := show |}
  | Undo => handleUndo s
  | Redo => handleRedo s
  end.

(** *** The unit selection *)

(** [unitFrom] and [unitTo] hold a key, or [undefined] ([None]). *)
Record UnitSelection : Type := {
  unitCategory : UnitCategory;
  unitFrom : option string;
  unitTo : option string
}.

Definition initial_selection : UnitSelection :=
  {| unitCategory := length; unitFrom := Some "m"; unitTo := Some "ft" |}.

(** [units[1] || units[0]]: the empty text is falsy too. *)
Definition handleCategoryChange (category : UnitCategory) : UnitSelection :=
  let units := keys (UNITS category) in
  {| unitCategory := category;
     unitFrom := nth_error units 0;
     unitTo := match nth_error units 1 with
               | Some EmptyString | None => nth_error units 0
               | Some u => Some u
               end |}.

Definition handleSwapUnits (s : UnitSelection) : UnitSelection :=
  {| unitCategory := unitCategory s; unitFrom := unitTo s; unitTo := unitFrom s |}.

(** The property key a value is used as: [undefined] reads the key
    ["undefined"]. *)
Definition key_of (u : option string) : string :=
  match u with
  | Some k => k
  | None => "undefined"
  end.

(** [convertedUnitValue] for the amount [unitAmount]. *)
Definition convertedUnitValue (unitAmount : float) (s : UnitSelection)
  : outcome float :=
  convertUnit unitAmount (key_of (unitFrom s)) (key_of (unitTo s)) (unitCategory s).

End App.

(** ** The component [Display] *)

Module Display.
Import JS Strings.

(** The class [\w] and the length of the run of digits that starts the
    text. *)
Definition is_word (c : ascii) : bool :=
  Normalizer.is_letter c || is_digit c || Ascii.eqb c "_".

Fixpoint digit_run (s : string) : nat :=
  match s with
  | String c s' => if is_digit c then S (digit_run s') else O
  | EmptyString => O
  end.

(** [replace(/\B(?=(\d{3})+(?!\d))/g, ',')]: a comma goes before a digit
    that follows a word character and starts a run of digits whose length
    is a multiple of three. *)
Fixpoint group_from (prev : option ascii) (s : string) : string :=
  match s with
  | EmptyString => EmptyString
  | String c s' =>
      let not_boundary :=
        match prev with
        | Some p => is_word p
        | None => false
        end in
      if not_boundary && is_digit c && (digit_run s mod 3 =? 0)%nat
      then String "," (String c (group_from (Some c) s'))
      else String c (group_from (Some c) s')
  end.

Definition group_thousands (s : string) : string := group_from None s.

Definition formatDisplayValue (value : string) : string :=
  if isNaN (StringToNumber value) || includes "e" value then value
  else
    match split "." value with
    | [] => EmptyString
    | integer_part :: rest => join "." (group_thousands integer_part :: rest)
    end.

End Display.

(** ** Definitions used by the further statements *)

Module Invariants.
Import JS Objects Units App.

(** Every character of the text is in the class [P]. *)
Fixpoint every (P : ascii -> bool) (s : string) : Prop :=
  match s with
  | EmptyString => True
  | String c s' => P c = true /\ every P s'
  end.

(** The characters of the texts of numbers and fractions: the digits,
    [. e + - /], and the letters of [Infinity] and [NaN]. *)
Definition numeric_char (c : ascii) : bool :=
  is_digit c
  || existsb (Ascii.eqb c)
       ["."; "e"; "+"; "-"; "/"; "I"; "n"; "f"; "i"; "t"; "y"; "N"; "a"]%char.


(** A digit or [!]. *)
Definition digit_or_bang (c : ascii) : bool := is_digit c || Normalizer.is_bang c.

(** The two units of a selection are units of its category. *)
Definition selection_ok (s : UnitSelection) : Prop :=
  exists from to,
    get (UNITS (unitCategory s)) (key_of (unitFrom s)) = Own from
    /\ get (UNITS (unitCategory s)) (key_of (unitTo s)) = Own to.

End Invariants.

(** ** Properties *)

Import JS Primitives Normalizer Script Evaluator Statements.

(** *** Facts on binary64 values *)

Section FloatFacts.

Lemma Prim2SF_nan_iff (x : float) : is_nan x = true <-> Prim2SF x = S754_nan.
Proof.
  unfold Prim2SF. destruct (is_nan x); split; try reflexivity; try discriminate.
  destruct (is_zero x); [discriminate|].
  destruct (is_infinity x); [discriminate|].
  destruct (Z.frexp x) as [r ex].
  destruct (shr_fexp _ _ _ _ _) as [mrs e'].
  destruct (shr_m mrs); discriminate.
Qed.

Lemma is_nan_false (x : float) : Prim2SF x <> S754_nan -> is_nan x = false.
Proof.
  intros Hx. destruct (is_nan x) eqn:E; [|reflexivity].
  apply Prim2SF_nan_iff in E. contradiction.
Qed.

Lemma SFeqb_refl_finite s m e :
  SFeqb (S754_finite s m e) (S754_finite s m e) = true.
Proof.
  unfold SFeqb, SFcompare.
  rewrite Z.compare_refl.
  change (Pos.compare_cont Eq m m) with (Pos.compare m m).
  rewrite Pos.compare_refl. destruct s; reflexivity.
Qed.

(** A number within a finite distance of a finite number is finite. *)
Lemma near_finite_is_finite (v c t : float) sc mc ec st mt et :
  Prim2SF c = S754_finite sc mc ec ->
  Prim2SF t = S754_finite st mt et ->
  (abs (v - c) <=? t) = true ->
  isFinite v = true /\ isNaN v = false.
Proof.
  intros Hc Ht Hle.
  rewrite leb_spec, abs_spec, sub_spec, Hc, Ht in Hle.
  unfold isFinite, isNaN, is_finite, is_infinity, is_nan.
  rewrite !eqb_spec, abs_spec.
  change (Prim2SF infinity) with (S754_infinity false).
  destruct (Prim2SF v) as [s|s| |s m e]; simpl in *.
  - split; reflexivity.
  - destruct s; discriminate.
  - discriminate.
  - rewrite !SFeqb_refl_finite. simpl. split; reflexivity.
Qed.

(** Shifting a mantissa to the right keeps it non-negative, so rounding
    never produces a NaN. *)
Lemma shr_1_nonneg mrs : (0 <= shr_m mrs)%Z -> (0 <= shr_m (shr_1 mrs))%Z.
Proof.
  destruct mrs as [m r s]. simpl.
  destruct m as [|p|p]; simpl; try lia; destruct p; simpl; lia.
Qed.

Lemma iter_pos_invariant {A : Type} (P : A -> Prop) (f : A -> A) :
  (forall x, P x -> P (f x)) -> forall n x, P x -> P (iter_pos f n x).
Proof.
  intros Hf. induction n as [n IH|n IH|]; intros x Hx; simpl; auto.
Qed.

Lemma shr_fexp_nonneg m e l :
  (0 <= m)%Z -> (0 <= shr_m (fst (shr_fexp prec emax m e l)))%Z.
Proof.
  intros Hm. unfold shr_fexp, shr.
  assert (H0 : (0 <= shr_m (shr_record_of_loc m l))%Z)
    by (destruct l as [|[]]; exact Hm).
  destruct (fexp prec emax (Zdigits2 m + e) - e)%Z; simpl; auto.
  apply (iter_pos_invariant (fun r => (0 <= shr_m r)%Z)); auto using shr_1_nonneg.
Qed.

Lemma round_nearest_even_nonneg m l :
  (0 <= m)%Z -> (0 <= round_nearest_even m l)%Z.
Proof.
  intros Hm. destruct l as [|[]]; simpl; try lia.
  destruct (Z.even m); lia.
Qed.

Lemma binary_round_aux_not_nan s m e l :
  (0 <= m)%Z -> binary_round_aux prec emax s m e l <> S754_nan.
Proof.
  intros Hm. unfold binary_round_aux.
  pose proof (shr_fexp_nonneg m e l Hm) as H1.
  destruct (shr_fexp prec emax m e l) as [mrs' e']. simpl in H1.
  pose proof (shr_fexp_nonneg _ e' loc_Exact
                (round_nearest_even_nonneg _ (loc_of_shr_record mrs') H1)) as H2.
  destruct (shr_fexp prec emax _ e' loc_Exact) as [mrs'' e'']. simpl in H2.
  destruct (shr_m mrs''); try discriminate; try lia.
  destruct (e'' <=? emax - prec)%Z; discriminate.
Qed.

Lemma binary_normalize_not_nan m e sz :
  binary_normalize prec emax m e sz <> S754_nan.
Proof.
  destruct m as [|p|p]; simpl; try discriminate;
    unfold binary_round;
    destruct (shl_align _ _ _) as [mz ez];
    apply binary_round_aux_not_nan; lia.
Qed.

(** Adding one to a number gives a number. *)
Lemma add_one_not_nan (i : float) : is_nan i = false -> is_nan (i + 1) = false.
Proof.
  intros Hi. apply is_nan_false. rewrite add_spec.
  assert (Hi' : Prim2SF i <> S754_nan).
  { intros E. apply Prim2SF_nan_iff in E. congruence. }
  change (Prim2SF 1) with (S754_finite false 4503599627370496 (-52)).
  destruct (Prim2SF i) as [s|s| |s m e]; simpl; try discriminate; try congruence.
  apply binary_normalize_not_nan.
Qed.

(** Every number is at most [Infinity]. *)
Lemma leb_infinity (i : float) : is_nan i = false -> (i <=? infinity) = true.
Proof.
  intros Hi. rewrite leb_spec.
  assert (Hi' : Prim2SF i <> S754_nan).
  { intros E. apply Prim2SF_nan_iff in E. congruence. }
  change (Prim2SF infinity) with (S754_infinity false).
  destruct (Prim2SF i) as [s|s| |s m e]; simpl; try reflexivity; try congruence.
  destruct s; reflexivity.
Qed.

End FloatFacts.

(** *** [factorial] *)

Section Factorial.

(** The loop never ends on [Infinity]: [i <= Infinity] holds for every
    number [i], and [i + 1] is a number again. *)
Lemma factorial_loop_infinity :
  forall fuel i result,
    is_nan i = false -> factorial_loop fuel i result infinity = None.
Proof.
  induction fuel as [|fuel IH]; intros i result Hi; simpl.
  - reflexivity.
  - rewrite (leb_infinity i Hi). apply IH. apply add_one_not_nan, Hi.
Qed.

Lemma factorial_infinity : forall fuel, factorial fuel infinity = None.
Proof.
  intros fuel. unfold factorial.
  change (infinity <? 0) with false.
  change ((infinity =? 0) || (infinity =? 1)) with false.
  cbv iota. apply factorial_loop_infinity. reflexivity.
Qed.

(** C7: for every integer [n] from 0 to 20, [factorial] returns the float
    that is exactly the product of 1..n (twenty units of fuel are enough),
    and for every negative number it returns the NaN sentinel. *)
Theorem factorial_exact_up_to_20 :
  (forall (n : nat) (k : nat), (n <= 20)%nat ->
     exists v, factorial (20 + k) (float_of_Z (Z.of_nat n)) = Some v
               /\ represents v (product_up_to n))
  /\ (forall (fuel : nat) (x : float), (x <? 0) = true -> factorial fuel x = Some nan).
Proof.
  split.
  - intros n k Hn.
    do 21 (destruct n as [|n];
           [eexists; split; [vm_compute; reflexivity | vm_compute; reflexivity]|]).
    exfalso; lia.
  - intros fuel x Hx. unfold factorial. rewrite Hx. reflexivity.
Qed.

Lemma factorial_exact_up_to_20_witness :
  ((20 <= 20)%nat /\
   exists v, factorial (20 + 0) (float_of_Z (Z.of_nat 20)) = Some v
             /\ represents v (product_up_to 20))
  /\ ((-3 <? 0) = true /\ factorial 0 (-3) = Some nan).
Proof.
  split.
  - split; [lia | apply (proj1 factorial_exact_up_to_20 20%nat 0%nat); lia].
  - split; [reflexivity | apply (proj2 factorial_exact_up_to_20 0%nat (-3)); reflexivity].
Defined.

End Factorial.

(** *** [decimalToFraction] on a negative value *)

(** C4: [decimalToFraction(-0.5)] returns the decimal [-0.5] and not the
    text ["-1/2"]: for a negative value the bound [value * tolerance] of the
    loop test is negative, so the loop only stops once the denominator is
    infinite. *)
Theorem decimalToFraction_negative_half :
  forall k : nat,
    decimalToFraction (3 + k) (-0.5) default_tolerance default_maxDenominator
    = Some (inl (-0.5))
    /\ cf_loop (3 + k) (-0.5) (-1) default_tolerance default_maxDenominator
         (cf_init 0.5)
       = Some {| h1 := infinity; h2 := 1; k1 := infinity; k2 := 2; b := nan |}.
Proof.
  intros k. split; vm_compute; reflexivity.
Qed.

(** *** NaN results *)

(** C2: a NaN result is reported as ["Can't divide by 0"], by
    [evaluateExpression] (here on [sqrt(-1)]) and by [formatResult], because
    [isFinite] is tested first and is false on NaN. *)
Theorem nan_reported_as_division_by_zero :
  (forall (H : Host) (fuel : nat) (angleMode : AngleMode),
     evaluateExpression H fuel "sqrt(-1)" angleMode = Some (inr "Can't divide by 0"))
  /\ (forall fuel : nat, formatResult fuel (inl nan) = Some "Can't divide by 0")
  /\ (forall x : float, isNaN x = true -> validate (VNum x) = inr "Can't divide by 0").
Proof.
  split; [|split].
  - intros H fuel []; vm_compute; reflexivity.
  - intros fuel. reflexivity.
  - intros x Hx. unfold validate, ToNumber, isFinite, is_finite.
    unfold isNaN in Hx. rewrite Hx. reflexivity.
Qed.

Lemma nan_reported_as_division_by_zero_witness :
  isNaN nan = true /\ validate (VNum nan) = inr "Can't divide by 0".
Proof.
  split; [reflexivity|].
  apply (proj2 (proj2 nan_reported_as_division_by_zero) nan). reflexivity.
Defined.

(** *** Tokens outside the grammar *)

(** C1: the comma is not a token of the supported grammar, yet
    [evaluateExpression("1,2")] is the number 2 and not ["Format Error"]; and
    an identifier that is not in the scope, such as [top], is looked up in
    the global object of the host. *)
Theorem comma_and_globals_are_evaluated :
  forall (H : Host) (fuel : nat) (angleMode : AngleMode),
    evaluateExpression H fuel "1,2" angleMode = Some (inl 2)
    /\ evaluateExpression H fuel "top" angleMode
       = Some (match global H "top" with
               | Some v => validate v
               | None => inr "Format Error"
               end).
Proof.
  intros H fuel angleMode. split.
  - destruct angleMode; vm_compute; reflexivity.
  - destruct H as [hsin hcos htan hlog10 hlog hpow hglobal hother].
    destruct angleMode; vm_compute; destruct (hglobal _); reflexivity.
Qed.

(** *** A literal that is too large for [factorial] *)

Section HugeFactorial.

Lemma huge_literal_is_infinity : Number_of_string huge_literal = infinity.
Proof. vm_compute. reflexivity. Qed.

Lemma huge_literal_sanitized :
  implicit_multiplication
    (replace_symbols (strip_whitespace (huge_literal ++ "!")))
  = huge_literal ++ "!".
Proof. vm_compute. reflexivity. Qed.

Lemma huge_literal_match :
  match_factorial (huge_literal ++ "!") = Some (huge_literal, EmptyString).
Proof. vm_compute. reflexivity. Qed.

Lemma huge_literal_length : String.length (huge_literal ++ "!") = 311%nat.
Proof. vm_compute. reflexivity. Qed.

Lemma huge_literal_starts_with_digit :
  starts_with is_digit (huge_literal ++ "!") = true.
Proof. vm_compute. reflexivity. Qed.

(** A literal on which [factorial] does not return stops step 4. *)
Lemma replace_factorials_stuck :
  forall steps fuel s num rest,
    starts_with is_digit s = true ->
    match_factorial s = Some (num, rest) ->
    factorial fuel (Number_of_string num) = None ->
    replace_factorials (S steps) fuel s = None.
Proof.
  intros steps fuel s num rest Hd Hm Hf.
  destruct s as [|c s']; [discriminate|].
  simpl in Hd. cbn [replace_factorials]. rewrite Hd, Hm, Hf. reflexivity.
Qed.

(** C3: on the literal 10^309 followed by [!], [evaluateExpression] never
    returns, whatever the fuel: [Number] reads the literal as [Infinity] and
    the loop of [factorial] does not end on it. *)
Theorem evaluateExpression_diverges_on_huge_factorial :
  forall (H : Host) (fuel : nat) (angleMode : AngleMode),
    evaluateExpression H fuel (huge_literal ++ "!") angleMode = None.
Proof.
  intros H fuel angleMode.
  assert (Hs : sanitize fuel (huge_literal ++ "!") = None).
  { unfold sanitize, precompute_factorials.
    rewrite huge_literal_sanitized, huge_literal_length.
    apply (replace_factorials_stuck _ _ _ huge_literal EmptyString).
    - exact huge_literal_starts_with_digit.
    - exact huge_literal_match.
    - rewrite huge_literal_is_infinity. apply factorial_infinity. }
  unfold evaluateExpression. rewrite Hs. reflexivity.
Qed.

(** The malformed input of the same claim, ["2+*3"], is a format error, and
    whatever the script returns or throws, step 6 and the [catch] give a
    finite number or one of the three messages. *)
Lemma malformed_input_is_format_error :
  forall (H : Host) (fuel : nat) (angleMode : AngleMode),
    evaluateExpression H fuel "2+*3" angleMode = Some (inr "Format Error").
Proof.
  intros H fuel []; vm_compute; reflexivity.
Qed.


End HugeFactorial.

(** *** The trigonometric functions of the scope *)

Section Trigonometry.

Variable H : Host.

(** In the scope, [csc], [sec] and [cot] are the reciprocals of the values
    of [sin], [cos] and [tan], taken after the trigonometric function; and
    when the host's sine of 0 is 0, as ECMAScript requires, [csc(0)] is
    infinite and [evaluateExpression] answers ["Can't divide by 0"] in both
    angle modes. *)
Lemma reciprocal_trig_and_csc_zero :
  (forall (angleMode : AngleMode) (x : float),
     eval H angleMode (ECall (EVar "csc") [ENum x])
     = Ok (VNum (1 / apply_builtin H angleMode Sin x))
     /\ eval H angleMode (ECall (EVar "sec") [ENum x])
        = Ok (VNum (1 / apply_builtin H angleMode Cos x))
     /\ eval H angleMode (ECall (EVar "cot") [ENum x])
        = Ok (VNum (1 / apply_builtin H angleMode Tan x)))
  /\ (Math_sin H 0 = 0 ->
      forall (fuel : nat) (angleMode : AngleMode),
        run H angleMode "csc(0)" = Returned (VNum infinity)
        /\ evaluateExpression H fuel "csc(0)" angleMode
           = Some (inr "Can't divide by 0")).
Proof.
  split.
  - intros angleMode x. repeat split; reflexivity.
  - intros Hsin fuel angleMode.
    assert (Hrun : run H angleMode "csc(0)" = Returned (VNum infinity)).
    { destruct angleMode; vm_compute; fold (Math_sin H 0); rewrite Hsin;
        reflexivity. }
    split; [exact Hrun|].
    unfold evaluateExpression.
    change (sanitize fuel "csc(0)") with (Some "csc(0)").
    cbv iota. rewrite Hrun. reflexivity.
Qed.

End Trigonometry.

Lemma reciprocal_trig_and_csc_zero_witness :
  Math_sin example_host 0 = 0
  /\ evaluateExpression example_host 0 "csc(0)" deg = Some (inr "Can't divide by 0")
  /\ evaluateExpression example_host 0 "csc(0)" rad = Some (inr "Can't divide by 0").
Proof.
  split; [reflexivity|].
  split.
  - apply (proj2 (reciprocal_trig_and_csc_zero example_host) eq_refl 0%nat deg).
  - apply (proj2 (reciprocal_trig_and_csc_zero example_host) eq_refl 0%nat rad).
Defined.

(** In degrees the six trigonometric functions of the scope multiply their
    argument by [Math.PI / 180] before the function of [Math] is applied, and
    in radians they pass it unchanged; so [sin(90)] evaluates [Math.sin] at
    the float nearest to pi/2 in degrees and at 90 in radians, and the results
    are numbers near 1 and near 0.894 when the host's sine is that accurate at
    these two arguments. *)
Lemma trig_functions_convert_degrees :
  forall H : Host,
  (forall x : float,
     let call name angleMode := eval H angleMode (ECall (EVar name) [ENum x]) in
     let r := x * (Math_PI / 180) in
     call "sin" deg = Ok (VNum (Math_sin H r))
     /\ call "cos" deg = Ok (VNum (Math_cos H r))
     /\ call "tan" deg = Ok (VNum (Math_tan H r))
     /\ call "csc" deg = Ok (VNum (1 / Math_sin H r))
     /\ call "sec" deg = Ok (VNum (1 / Math_cos H r))
     /\ call "cot" deg = Ok (VNum (1 / Math_tan H r))
     /\ call "sin" rad = Ok (VNum (Math_sin H x))
     /\ call "cos" rad = Ok (VNum (Math_cos H x))
     /\ call "tan" rad = Ok (VNum (Math_tan H x))
     /\ call "csc" rad = Ok (VNum (1 / Math_sin H x))
     /\ call "sec" rad = Ok (VNum (1 / Math_cos H x))
     /\ call "cot" rad = Ok (VNum (1 / Math_tan H x)))
  /\ (forall fuel : nat,
        run H deg "sin(90)" = Returned (VNum (Math_sin H 0x1.921fb54442d18p+0))
        /\ run H rad "sin(90)" = Returned (VNum (Math_sin H 90))
        /\ ((abs (Math_sin H 0x1.921fb54442d18p+0 - 1) <=? 0x1p-50) = true ->
            exists v, evaluateExpression H fuel "sin(90)" deg = Some (inl v)
                      /\ (abs (v - 1) <=? 0x1p-50) = true)
        /\ ((abs (Math_sin H 90 - 0.894) <=? 0.001) = true ->
            exists v, evaluateExpression H fuel "sin(90)" rad = Some (inl v)
                      /\ (abs (v - 0.894) <=? 0.001) = true)).
Proof.
  intros H. split.
  - intros x. cbv zeta. repeat split; reflexivity.
  - intros fuel.
    assert (Hdeg : run H deg "sin(90)"
                   = Returned (VNum (Math_sin H 0x1.921fb54442d18p+0)))
      by (vm_compute; reflexivity).
    assert (Hrad : run H rad "sin(90)" = Returned (VNum (Math_sin H 90)))
      by (vm_compute; reflexivity).
    split; [exact Hdeg|]. split; [exact Hrad|].
    split; intros Hacc.
    + assert (Hc : Prim2SF 1 = S754_finite false 4503599627370496 (-52))
        by (vm_compute; reflexivity).
      assert (Ht : Prim2SF 0x1p-50 = S754_finite false 4503599627370496 (-102))
        by (vm_compute; reflexivity).
      destruct (near_finite_is_finite _ _ _ _ _ _ _ _ _ Hc Ht Hacc) as [Hf Hn].
      eexists. split; [|exact Hacc].
      unfold evaluateExpression.
      change (sanitize fuel "sin(90)") with (Some "sin(90)").
      cbv iota. rewrite Hdeg. unfold validate, ToNumber. rewrite Hf, Hn.
      reflexivity.
    + destruct (Prim2SF 0.894) as [s1|s1| |s1 m1 e1] eqn:Hc;
        try (vm_compute in Hc; discriminate).
      destruct (Prim2SF 0.001) as [s2|s2| |s2 m2 e2] eqn:Ht;
        try (vm_compute in Ht; discriminate).
      destruct (near_finite_is_finite _ _ _ _ _ _ _ _ _ Hc Ht Hacc) as [Hf Hn].
      eexists. split; [|exact Hacc].
      unfold evaluateExpression.
      change (sanitize fuel "sin(90)") with (Some "sin(90)").
      cbv iota. rewrite Hrad. unfold validate, ToNumber. rewrite Hf, Hn.
      reflexivity.
Qed.

Lemma trig_functions_convert_degrees_witness :
  ((abs (Math_sin example_host 0x1.921fb54442d18p+0 - 1) <=? 0x1p-50) = true
   /\ exists v, evaluateExpression example_host 0 "sin(90)" deg = Some (inl v)
                /\ (abs (v - 1) <=? 0x1p-50) = true)
  /\ ((abs (Math_sin example_host 90 - 0.894) <=? 0.001) = true
      /\ exists v, evaluateExpression example_host 0 "sin(90)" rad = Some (inl v)
                   /\ (abs (v - 0.894) <=? 0.001) = true).
Proof.
  pose proof (proj2 (trig_functions_convert_degrees example_host) 0%nat)
    as [_ [_ [Hdeg Hrad]]].
  split.
  - split; [reflexivity | apply Hdeg; reflexivity].
  - split; [reflexivity | apply Hrad; reflexivity].
Defined.

(** *** The name [sec] *)

(** C8: the text [sec(60)] does not reach the function [sec] of the scope,
    which would convert 60 degrees to radians: step 2 rewrites the [e] of
    [sec], taken for the constant, and the script is [sEc(60)]; with no global
    of that name the result is ["Format Error"]. *)
Theorem sec_in_degrees_is_a_format_error :
  forall (H : Host) (fuel : nat),
    sanitize fuel "sec(60)" = Some "sEc(60)"
    /\ eval H deg (ECall (EVar "sec") [ENum 60])
       = Ok (VNum (1 / Math_cos H (60 * (Math_PI / 180))))
    /\ (global H "sEc" = None ->
        evaluateExpression H fuel "sec(60)" deg = Some (inr "Format Error")).
Proof.
  intros H fuel. split; [reflexivity|]. split; [reflexivity|].
  destruct H as [hsin hcos htan hlog10 hlog hpow hglobal hother].
  cbn [global]. intros Hg. vm_compute. rewrite Hg. reflexivity.
Qed.

Lemma sec_in_degrees_is_a_format_error_witness :
  global example_host "sEc" = None
  /\ evaluateExpression example_host 0 "sec(60)" deg = Some (inr "Format Error").
Proof.
  split; [reflexivity|].
  apply (proj2 (proj2 (sec_in_degrees_is_a_format_error example_host 0%nat))).
  reflexivity.
Defined.

(** C9: [sec(0)] is not evaluated as the reciprocal of the cosine of 0: in
    both angle modes the script is [sEc(0)], by the same rewriting of [e],
    and the result is ["Format Error"] when no global has that name; the
    function [sec] of the scope, which is the reciprocal of [cos], is never
    called. *)
Theorem sec_is_never_the_reciprocal_of_cos :
  forall (H : Host) (fuel : nat) (angleMode : AngleMode),
    replace_e None "sec(0)" = "sEc(0)"
    /\ eval H angleMode (ECall (EVar "sec") [ENum 0])
       = Ok (VNum (1 / apply_builtin H angleMode Cos 0))
    /\ (global H "sEc" = None ->
        evaluateExpression H fuel "sec(0)" angleMode = Some (inr "Format Error")).
Proof.
  intros H fuel angleMode. split; [reflexivity|]. split; [reflexivity|].
  destruct H as [hsin hcos htan hlog10 hlog hpow hglobal hother].
  cbn [global]. intros Hg. destruct angleMode; vm_compute; rewrite Hg; reflexivity.
Qed.

Lemma sec_is_never_the_reciprocal_of_cos_witness :
  global example_host "sEc" = None
  /\ evaluateExpression example_host 0 "sec(0)" deg = Some (inr "Format Error")
  /\ evaluateExpression example_host 0 "sec(0)" rad = Some (inr "Format Error").
Proof.
  split; [reflexivity|]. split.
  - apply (proj2 (proj2 (sec_is_never_the_reciprocal_of_cos example_host 0%nat deg))).
    reflexivity.
  - apply (proj2 (proj2 (sec_is_never_the_reciprocal_of_cos example_host 0%nat rad))).
    reflexivity.
Defined.

(** *** Implicit multiplication *)

Section ImplicitMultiplication.

(** One pass of the source inserts a [*] between every adjacent pair of its
    two classes, provided no character is in both classes. *)
Lemma insert_star_single (L R : ascii -> bool) :
  (forall c, R c = true -> L c = false) ->
  forall s c1,
    insert_star L R (String c1 s)
    = String c1 (multiply_after (fun a b => L a && R b) c1 s).
Proof.
  intros Hdisj. induction s as [|c2 s IH]; intros c1.
  - reflexivity.
  - cbn [insert_star multiply_after].
    destruct (L c1 && R c2) eqn:E.
    + do 3 f_equal.
      apply andb_true_iff in E. destruct E as [_ HR].
      apply Hdisj in HR.
      destruct s as [|c3 s']; [reflexivity|].
      specialize (IH c2). cbn [insert_star] in IH.
      rewrite HR in IH. simpl in IH. injection IH as IH. exact IH.
    + f_equal. apply IH.
Qed.

(** A second pass after a first one amounts to one pass with both rules,
    since the inserted [*] belongs to no class. *)
Lemma multiply_after_compose (P1 P2 : ascii -> ascii -> bool) :
  (forall c, P2 c "*"%char = false /\ P2 "*"%char c = false) ->
  forall s c,
    multiply_after P2 c (multiply_after P1 c s)
    = multiply_after (fun a b => P1 a b || P2 a b) c s.
Proof.
  intros Hstar. induction s as [|c2 s IH]; intros c.
  - reflexivity.
  - cbn [multiply_after]. destruct (P1 c c2) eqn:E1; cbn [multiply_after orb].
    + rewrite (proj1 (Hstar c)), (proj2 (Hstar c2)). do 2 f_equal. apply IH.
    + destruct (P2 c c2); [do 2 f_equal | f_equal]; apply IH.
Qed.

Lemma multiply_after_ext (P Q : ascii -> ascii -> bool) :
  (forall a b, P a b = Q a b) ->
  forall s c, multiply_after P c s = multiply_after Q c s.
Proof.
  intros Hext. induction s as [|c2 s IH]; intros c; cbn [multiply_after].
  - reflexivity.
  - rewrite Hext, IH. reflexivity.
Qed.

Ltac by_cases_on_ascii c :=
  destruct c as [[] [] [] [] [] [] [] []]; vm_compute; congruence.

Lemma letter_or_open_not_digit c : letter_or_open c = true -> is_digit c = false.
Proof. by_cases_on_ascii c. Qed.

Lemma alnum_or_open_not_close c :
  alnum_or_open c = true -> is_close_paren c = false.
Proof. by_cases_on_ascii c. Qed.

Lemma alnum_or_open_not_bang c : alnum_or_open c = true -> is_bang c = false.
Proof. by_cases_on_ascii c. Qed.

(** C10: the three passes of step 3 insert a [*] exactly between the
    adjacent pairs of the three cases (digit then letter or open
    parenthesis; close parenthesis, or [!], then digit, letter or open
    parenthesis), and [evaluateExpression("2(3+4)")] is the number 14. *)
Theorem implicit_multiplication_three_cases :
  (forall s : string,
     implicit_multiplication s = insert_multiply needs_multiply s)
  /\ (forall (H : Host) (fuel : nat) (angleMode : AngleMode),
        sanitize fuel "2(3+4)" = Some "2*(3+4)"
        /\ evaluateExpression H fuel "2(3+4)" angleMode = Some (inl 14)).
Proof.
  split.
  - intros [|c s]; [reflexivity|].
    unfold implicit_multiplication, insert_multiply.
    rewrite (insert_star_single _ _ letter_or_open_not_digit).
    rewrite (insert_star_single _ _ alnum_or_open_not_close).
    rewrite (insert_star_single _ _ alnum_or_open_not_bang).
    f_equal.
    rewrite multiply_after_compose.
    2:{ intros c0. split; [|reflexivity].
        change (alnum_or_open "*") with false. apply andb_false_r. }
    rewrite multiply_after_compose.
    2:{ intros c0. split; [|reflexivity].
        change (alnum_or_open "*") with false.
        rewrite !andb_false_r. reflexivity. }
    apply multiply_after_ext. intros a b.
    unfold needs_multiply. rewrite orb_assoc. reflexivity.
  - intros H fuel angleMode. split; [reflexivity|].
    destruct angleMode; vm_compute; reflexivity.
Qed.

End ImplicitMultiplication.

(** *** Rounding and magnitude of binary64 values *)

Section BinaryRounding.

Local Open Scope Z_scope.

Lemma digits2_size p : digits2_pos p = Pos.size p.
Proof. induction p; simpl; congruence. Qed.

Lemma Zdigits2_log2 p : Zdigits2 (Zpos p) = Z.log2 (Zpos p) + 1.
Proof.
  unfold Zdigits2. rewrite digits2_size.
  destruct p; simpl; try reflexivity; rewrite Pos.add_1_r; reflexivity.
Qed.

Lemma Zdigits2_pos_log2 p : Zpos (digits2_pos p) = Z.log2 (Zpos p) + 1.
Proof. exact (Zdigits2_log2 p). Qed.

Lemma shr_1_m mrs : 0 <= shr_m mrs -> shr_m (shr_1 mrs) = shr_m mrs / 2.
Proof.
  destruct mrs as [m r s]. simpl. intros Hm.
  destruct m as [|p|p]; try lia; simpl.
  - reflexivity.
  - destruct p; simpl.
    + rewrite Pos2Z.inj_xI. apply Z.div_unique with 1; lia.
    + rewrite Pos2Z.inj_xO. apply Z.div_unique with 0; lia.
    + reflexivity.
Qed.

Lemma iter_shr_1_m p : forall mrs, 0 <= shr_m mrs ->
  shr_m (iter_pos shr_1 p mrs) = shr_m mrs / 2 ^ Zpos p.
Proof.
  induction p as [p IH|p IH|]; intros mrs Hm; simpl iter_pos.
  - assert (H1 : 0 <= shr_m (shr_1 mrs)) by (apply shr_1_nonneg; exact Hm).
    assert (H2 : 0 <= shr_m (iter_pos shr_1 p (shr_1 mrs))).
    { rewrite IH by exact H1. apply Z.div_pos; [exact H1 | apply Z.pow_pos_nonneg; lia]. }
    rewrite IH by exact H2. rewrite IH by exact H1. rewrite shr_1_m by exact Hm.
    rewrite !Z.div_div by (try apply Z.pow_pos_nonneg; lia).
    f_equal. change 2 with (2 ^ 1) at 1.
    rewrite <- !Z.pow_add_r by lia. f_equal. lia.
  - assert (H2 : 0 <= shr_m (iter_pos shr_1 p mrs)).
    { rewrite IH by exact Hm. apply Z.div_pos; [exact Hm | apply Z.pow_pos_nonneg; lia]. }
    rewrite IH by exact H2. rewrite IH by exact Hm.
    rewrite !Z.div_div by (try apply Z.pow_pos_nonneg; lia).
    f_equal. rewrite <- Z.pow_add_r by lia. f_equal. lia.
  - rewrite shr_1_m by exact Hm. reflexivity.
Qed.

Lemma fexp64_eq x : fexp prec emax x = Z.max (x - 53) (-1074).
Proof. reflexivity. Qed.

Lemma Zdigits2_log2_Z z : 0 < z -> Zdigits2 z = Z.log2 z + 1.
Proof. destruct z as [|p|p]; try lia. intros _. apply Zdigits2_log2. Qed.

Lemma shr_record_of_loc_m m l : shr_m (shr_record_of_loc m l) = m.
Proof. destruct l as [|[]]; reflexivity. Qed.

Lemma shr_fexp_mag m e l :
  0 < m -> -1021 <= Zdigits2 m + e ->
  exists mrs e', shr_fexp prec emax m e l = (mrs, e')
                 /\ 0 < shr_m mrs
                 /\ Zdigits2 (shr_m mrs) + e' = Zdigits2 m + e.
Proof.
  intros Hm HM. unfold shr_fexp. rewrite fexp64_eq.
  replace (Z.max (Zdigits2 m + e - 53) (-1074) - e) with (Zdigits2 m - 53) by lia.
  unfold shr. destruct (Zdigits2 m - 53) as [|p|p] eqn:En.
  - eexists _, _. split; [reflexivity|]. rewrite shr_record_of_loc_m. lia.
  - eexists _, _. split; [reflexivity|].
    rewrite iter_shr_1_m by (rewrite shr_record_of_loc_m; lia).
    rewrite shr_record_of_loc_m.
    rewrite (Zdigits2_log2_Z m Hm) in En |- *.
    assert (Hp : 0 < 2 ^ Zpos p) by (apply Z.pow_pos_nonneg; lia).
    assert (Hlow : 2 ^ Zpos p <= m).
    { apply Z.le_trans with (2 ^ Z.log2 m).
      - apply Z.pow_le_mono_r; lia.
      - apply Z.log2_spec; exact Hm. }
    assert (Hq : 0 < m / 2 ^ Zpos p) by (apply Z.div_str_pos; lia).
    split; [exact Hq|].
    rewrite (Zdigits2_log2_Z _ Hq).
    rewrite <- Z.shiftr_div_pow2 by lia.
    rewrite Z.log2_shiftr by exact Hm. lia.
  - eexists _, _. split; [reflexivity|]. rewrite shr_record_of_loc_m. lia.
Qed.

Lemma round_nearest_even_bounds m l :
  m <= round_nearest_even m l <= m + 1.
Proof.
  destruct l as [|[]]; simpl; try lia. destruct (Z.even m); lia.
Qed.

Lemma Zdigits2_le a b : 0 < a -> a <= b -> Zdigits2 a <= Zdigits2 b.
Proof.
  intros Ha Hab. rewrite !Zdigits2_log2_Z by lia.
  apply Z.add_le_mono_r. apply Z.log2_le_mono. exact Hab.
Qed.

(** Rounding a positive value that does not underflow keeps its binary
    order of magnitude, or overflows to infinity. *)
Lemma binary_round_aux_mag s m e l :
  0 < m -> -1021 <= Zdigits2 m + e ->
  binary_round_aux prec emax s m e l = S754_infinity s
  \/ exists m' e', binary_round_aux prec emax s m e l = S754_finite s m' e'
                   /\ Zdigits2 m + e <= Zpos (digits2_pos m') + e'.
Proof.
  intros Hm HM. unfold binary_round_aux.
  destruct (shr_fexp_mag m e l Hm HM) as (mrs1 & e1 & E1 & P1 & M1).
  rewrite E1.
  pose proof (round_nearest_even_bounds (shr_m mrs1) (loc_of_shr_record mrs1)) as Hr.
  set (m2 := round_nearest_even (shr_m mrs1) (loc_of_shr_record mrs1)) in *.
  assert (Hd : Zdigits2 (shr_m mrs1) <= Zdigits2 m2) by (apply Zdigits2_le; lia).
  destruct (shr_fexp_mag m2 e1 loc_Exact) as (mrs2 & e2 & E2 & P2 & M2); try lia.
  rewrite E2.
  destruct (shr_m mrs2) as [|p|p] eqn:Ep; try (exfalso; lia).
  destruct (e2 <=? emax - prec); [right|left; reflexivity].
  exists p, e2. split; [reflexivity|]. change (Zdigits2 (Zpos p)) with (Zpos (digits2_pos p)) in M2. lia.
Qed.

Lemma digits2_iter_xO m d :
  Zpos (digits2_pos (Pos.iter xO m d)) = Zpos (digits2_pos m) + Zpos d.
Proof.
  induction d as [|d IH] using Pos.peano_ind.
  - simpl. lia.
  - rewrite Pos.iter_succ. simpl digits2_pos. rewrite Pos2Z.inj_succ, IH. lia.
Qed.

Lemma Zpos_iter_xO m d : Zpos (Pos.iter xO m d) = Zpos m * 2 ^ Zpos d.
Proof.
  induction d as [|d IH] using Pos.peano_ind.
  - simpl. lia.
  - rewrite Pos.iter_succ, Pos2Z.inj_xO, IH, Pos2Z.inj_succ, Z.pow_succ_r; lia.
Qed.

(** Aligning a mantissa to a smaller exponent keeps the magnitude. *)
Lemma shl_align_spec m e t :
  t <= e ->
  shl_align m e t = (fst (shl_align m e t), t)
  /\ Zpos (fst (shl_align m e t)) = Zpos m * 2 ^ (e - t)
  /\ Zpos (digits2_pos (fst (shl_align m e t))) + t = Zpos (digits2_pos m) + e.
Proof.
  intros Ht. unfold shl_align.
  destruct (t - e) as [|p|p] eqn:E; try lia.
  - assert (Hte : e = t) by lia. rewrite Hte. rewrite Z.sub_diag.
    cbn [fst]. rewrite Z.pow_0_r. split; [reflexivity|split; lia].
  - cbn [fst]. rewrite digits2_iter_xO, Zpos_iter_xO.
    replace (e - t) with (Zpos p) by lia. split; [reflexivity|split; lia].
Qed.

(** Rounding is exact on a value that fits the format. *)
Lemma binary_round_exact s m e :
  let t := fexp prec emax (Zpos (digits2_pos m) + e) in
  t <= e -> t <= 971 ->
  binary_round prec emax s m e = S754_finite s (fst (shl_align m e t)) t.
Proof.
  intros t Hte Hmax. unfold binary_round. fold t.
  destruct (shl_align_spec m e t Hte) as (E & _ & Hmag).
  rewrite E. set (mz := fst (shl_align m e t)) in *.
  assert (Hc : fexp prec emax (Zdigits2 (Zpos mz) + t) - t = 0).
  { change (Zdigits2 (Zpos mz)) with (Zpos (digits2_pos mz)).
    rewrite Hmag. fold t. lia. }
  unfold binary_round_aux, shr_fexp.
  rewrite Hc. cbn [shr shr_record_of_loc loc_of_shr_record shr_m round_nearest_even].
  rewrite Hc. cbn [shr shr_record_of_loc loc_of_shr_record shr_m].
  replace (t <=? emax - prec) with true; [reflexivity|].
  symmetry. apply Z.leb_le. exact Hmax.
Qed.

Lemma pos_ge_nonneg u x : pos_ge u x -> nonneg x.
Proof. intros [->|(m & e & -> & _)]; unfold nonneg; eauto. Qed.

Lemma pos_ge_weaken u v x : v <= u -> pos_ge u x -> pos_ge v x.
Proof.
  intros Hvu [->|(m & e & -> & H)]; [left; reflexivity|right].
  exists m, e. split; [reflexivity|lia].
Qed.

Lemma binary_round_aux_nonneg m e l :
  0 <= m -> nonneg (binary_round_aux prec emax false m e l).
Proof.
  intros Hm. unfold binary_round_aux.
  pose proof (shr_fexp_nonneg m e l Hm) as H1.
  destruct (shr_fexp prec emax m e l) as [mrs' e']. simpl in H1.
  pose proof (shr_fexp_nonneg _ e' loc_Exact
                (round_nearest_even_nonneg _ (loc_of_shr_record mrs') H1)) as H2.
  destruct (shr_fexp prec emax _ e' loc_Exact) as [mrs'' e'']. simpl in H2.
  unfold nonneg.
  destruct (shr_m mrs''); try lia; [auto|].
  destruct (e'' <=? emax - prec)%Z; eauto.
Qed.

Lemma shl_align_mag m e t :
  Zpos (digits2_pos (fst (shl_align m e t))) + snd (shl_align m e t)
  = Zpos (digits2_pos m) + e.
Proof.
  unfold shl_align. destruct (t - e) as [|p|p] eqn:E; cbn [fst snd]; try lia.
  rewrite digits2_iter_xO. lia.
Qed.

Lemma binary_round_nonneg m e : nonneg (binary_round prec emax false m e).
Proof.
  unfold binary_round. destruct (shl_align _ _ _) as [mz ez].
  apply binary_round_aux_nonneg. lia.
Qed.

Lemma binary_round_mag m e :
  -1021 <= Zpos (digits2_pos m) + e ->
  pos_ge (Zpos (digits2_pos m) + e - 1) (binary_round prec emax false m e).
Proof.
  intros HM. unfold binary_round.
  pose proof (shl_align_mag m e (fexp prec emax (Zpos (digits2_pos m) + e))) as Hs.
  destruct (shl_align _ _ _) as [mz ez]. cbn [fst snd] in Hs.
  destruct (binary_round_aux_mag false (Zpos mz) ez loc_Exact) as [E|(m' & e' & E & Hm')].
  - lia.
  - simpl Zdigits2. lia.
  - left. exact E.
  - right. exists m', e'. split; [exact E|]. simpl Zdigits2 in Hm'. lia.
Qed.

Lemma log2_mul_ge a b : 0 < a -> 0 < b -> Z.log2 a + Z.log2 b <= Z.log2 (a * b).
Proof. intros. apply Z.log2_mul_below; assumption. Qed.

Lemma SFmul_pos_ge u a k :
  0 <= u -> pos_ge 0 a -> pos_ge u k -> pos_ge u (SFmul prec emax a k).
Proof.
  intros Hu [->|(ma & ea & -> & Ha)] [->|(mk & ek & -> & Hk)];
    try (left; reflexivity).
  simpl SFmul.
  destruct (binary_round_aux_mag false (Zpos (ma * mk)) (ea + ek) loc_Exact)
    as [E|(m' & e' & E & Hm')]; try lia.
  - rewrite Zdigits2_log2, Pos2Z.inj_mul.
    pose proof (log2_mul_ge (Zpos ma) (Zpos mk) ltac:(lia) ltac:(lia)).
    rewrite !Zdigits2_pos_log2 in *. lia.
  - left. exact E.
  - right. exists m', e'. split; [exact E|].
    rewrite Zdigits2_log2, Pos2Z.inj_mul in Hm'.
    pose proof (log2_mul_ge (Zpos ma) (Zpos mk) ltac:(lia) ltac:(lia)).
    rewrite !Zdigits2_pos_log2 in *. lia.
Qed.

(** The product of a finite positive number and a non-negative number is
    non-negative. *)
Lemma SFmul_nonneg ma ea h :
  nonneg h -> nonneg (SFmul prec emax (S754_finite false ma ea) h).
Proof.
  intros [->|[->|(mh & eh & ->)]]; simpl SFmul; unfold nonneg; auto.
  apply binary_round_aux_nonneg. lia.
Qed.

Lemma SFadd_nonneg x y :
  nonneg x -> nonneg y -> nonneg (SFadd prec emax x y).
Proof.
  intros [->|[->|(mx & ex & ->)]] [->|[->|(my & ey & ->)]];
    simpl SFadd; unfold nonneg; eauto.
  apply binary_round_nonneg.
Qed.

Lemma SFadd_finite mx ex my ey :
  SFadd prec emax (S754_finite false mx ex) (S754_finite false my ey)
  = binary_round prec emax false
      (fst (shl_align mx ex (Z.min ex ey)) + fst (shl_align my ey (Z.min ex ey)))%positive
      (Z.min ex ey).
Proof. reflexivity. Qed.

Lemma SFadd_pos_ge u x y :
  -1022 <= u -> pos_ge u x -> nonneg y ->
  pos_ge u (SFadd prec emax x y)
  /\ (pos_ge u y -> pos_ge (u + 1) (SFadd prec emax x y)).
Proof.
  intros Hu [->|(mx & ex & -> & Hx)] [->|[->|(my & ey & ->)]].
  - simpl. split; [left; reflexivity | intros _; left; reflexivity].
  - simpl. split; [left; reflexivity | intros _; left; reflexivity].
  - simpl. split; [left; reflexivity | intros _; left; reflexivity].
  - simpl. split.
    + right. eauto.
    + intros [E|(m & e & E & _)]; discriminate.
  - simpl. split; [left; reflexivity | intros _; left; reflexivity].
  - rewrite SFadd_finite.
    set (ez := Z.min ex ey).
    destruct (shl_align_spec mx ex ez ltac:(lia)) as (_ & Ex & _).
    destruct (shl_align_spec my ey ez ltac:(lia)) as (_ & Ey & _).
    set (X := fst (shl_align mx ex ez)) in *.
    set (Y := fst (shl_align my ey ez)) in *.
    assert (Hpx : 0 < 2 ^ (ex - ez)) by (apply Z.pow_pos_nonneg; lia).
    assert (Hpy : 0 < 2 ^ (ey - ez)) by (apply Z.pow_pos_nonneg; lia).
    assert (LX : Z.log2 (Zpos X) = Z.log2 (Zpos mx) + (ex - ez)).
    { rewrite Ex. rewrite Z.log2_mul_pow2; lia. }
    assert (LY : Z.log2 (Zpos Y) = Z.log2 (Zpos my) + (ey - ez)).
    { rewrite Ey. rewrite Z.log2_mul_pow2; lia. }
    assert (LS : Z.log2 (Zpos X) <= Z.log2 (Zpos (X + Y))).
    { apply Z.log2_le_mono. lia. }
    rewrite Zdigits2_pos_log2 in Hx.
    pose proof (Z.log2_nonneg (Zpos X)) as HnX.
    pose proof (Z.log2_nonneg (Zpos Y)) as HnY.
    split.
    + apply pos_ge_weaken with (Zpos (digits2_pos (X + Y)) + ez - 1).
      * rewrite Zdigits2_pos_log2. lia.
      * apply binary_round_mag. rewrite Zdigits2_pos_log2. lia.
    + intros [E|(m & e & E & Hy)]; [discriminate|].
      injection E as <- <-. rewrite Zdigits2_pos_log2 in Hy.
      apply pos_ge_weaken with (Zpos (digits2_pos (X + Y)) + ez - 1).
      * rewrite Zdigits2_pos_log2.
        assert (HL : Z.max 0 (u - ez) + 1 <= Z.log2 (Zpos (X + Y))).
        { apply Z.log2_le_pow2; [lia|].
          rewrite Z.pow_add_r by lia. rewrite Pos2Z.inj_add.
          assert (2 ^ Z.max 0 (u - ez) <= Zpos X).
          { apply Z.log2_le_pow2; lia. }
          assert (2 ^ Z.max 0 (u - ez) <= Zpos Y).
          { apply Z.log2_le_pow2; lia. }
          lia. }
        lia.
      * apply binary_round_mag. rewrite Zdigits2_pos_log2. lia.
Qed.

Lemma SFdiv_one_below d :
  below_one d -> pos_ge 0 (SFdiv prec emax SF_one d).
Proof.
  intros [->|(md & ed & -> & Hd)]; [left; reflexivity|].
  unfold SF_one, SFdiv, SFdiv_core_binary.
  change (Zdigits2 4503599627370496) with 53.
  change (Zdigits2 (Zpos md)) with (Zpos (digits2_pos md)).
  rewrite fexp64_eq.
  set (d2 := Zpos (digits2_pos md)) in *.
  replace (Z.min (Z.max (53 + -52 - (d2 + ed) - 53) (-1074)) (-52 - ed))
    with (-52 - (d2 + ed)) by lia.
  replace (-52 - ed - (-52 - (d2 + ed))) with d2 by lia.
  unfold d2 at 1.
  rewrite Z.shiftl_mul_pow2 by lia. fold d2.
  destruct (Z.div_eucl (4503599627370496 * 2 ^ d2) (Zpos md)) as [q r] eqn:Eq.
  assert (Hq : q = 4503599627370496 * 2 ^ d2 / Zpos md).
  { unfold Z.div. rewrite Eq. reflexivity. }
  assert (Hmd : Zpos md < 2 ^ d2).
  { unfold d2. rewrite Zdigits2_pos_log2.
    apply Z.log2_lt_pow2; lia. }
  assert (Hq52 : 4503599627370496 <= q).
  { rewrite Hq. apply Z.div_le_lower_bound; lia. }
  assert (Hlog : 52 <= Z.log2 q).
  { change 52 with (Z.log2 4503599627370496). apply Z.log2_le_mono. exact Hq52. }
  destruct (binary_round_aux_mag false q (-52 - (d2 + ed))
              (new_location (Zpos md) r))
    as [E|(m' & e' & E & Hm')].
  - lia.
  - rewrite Zdigits2_log2_Z by lia. lia.
  - left. exact E.
  - right. exists m', e'. split; [exact E|].
    rewrite Zdigits2_log2_Z in Hm' by lia. lia.
Qed.

Lemma SFsub_finite mx ex my ey :
  SFsub prec emax (S754_finite false mx ex) (S754_finite false my ey)
  = binary_normalize prec emax
      (Zpos (fst (shl_align mx ex (Z.min ex ey)))
       - Zpos (fst (shl_align my ey (Z.min ex ey))))
      (Z.min ex ey) false.
Proof. reflexivity. Qed.

Lemma valid_finite s m e :
  valid_binary (S754_finite s m e) = true ->
  e = Z.max (Zpos (digits2_pos m) + e - 53) (-1074) /\ e <= 971.
Proof.
  unfold SpecFloat.valid_binary, bounded, canonical_mantissa.
  rewrite fexp64_eq. intros H. apply andb_true_iff in H. destruct H as [H1 H2].
  apply Z.eqb_eq in H1. apply Z.leb_le in H2.
  change (emax - prec) with 971 in H2. lia.
Qed.

(** [Math.floor] on a positive finite float: the result is 0 or a float
    that is at least 1, and the difference is below 1. *)
Lemma Math_floor_positive (x : float) m e :
  Prim2SF x = S754_finite false m e ->
  (Prim2SF (Math_floor x) = S754_zero false
   \/ exists ma ea, Prim2SF (Math_floor x) = S754_finite false ma ea
                    /\ 0 < Zpos (digits2_pos ma) + ea)
  /\ (0 < Zpos (digits2_pos m) + e ->
      exists ma ea, Prim2SF (Math_floor x) = S754_finite false ma ea
                    /\ 0 < Zpos (digits2_pos ma) + ea)
  /\ below_one (SFsub prec emax (Prim2SF x) (Prim2SF (Math_floor x))).
Proof.
  intros Hx.
  pose proof (Prim2SF_valid x) as Hv. rewrite Hx in Hv.
  apply valid_finite in Hv. destruct Hv as [Hcan Hmax].
  pose proof (Zdigits2_pos_log2 m) as Hdm.
  pose proof (Z.log2_nonneg (Zpos m)) as Hl0.
  unfold Math_floor. rewrite Hx.
  destruct (0 <=? e) eqn:He.
  - apply Z.leb_le in He. rewrite Hx.
    assert (Hpos : exists ma ea, S754_finite false m e = S754_finite false ma ea
                                 /\ 0 < Zpos (digits2_pos ma) + ea).
    { exists m, e. split; [reflexivity|lia]. }
    split; [right; exact Hpos|]. split; [intros _; exact Hpos|].
    rewrite SFsub_finite, Z.sub_diag. left. reflexivity.
  - apply Z.leb_gt in He.
    cbn [cond_Zopp].
    rewrite Z.shiftr_div_pow2 by lia.
    set (n := - e) in *.
    assert (Hn : 0 < 2 ^ n) by (apply Z.pow_pos_nonneg; lia).
    destruct (Zpos m / 2 ^ n) as [|qp|qp] eqn:Eq.
    + (* the integer part is zero *)
      change (Prim2SF (float_of_Z 0)) with (S754_zero false).
      assert (Hlt : Zpos m < 2 ^ n).
      { apply Z.div_small_iff in Eq; lia. }
      assert (Hlog : Z.log2 (Zpos m) < n) by (apply Z.log2_lt_pow2; lia).
      split; [left; reflexivity|]. split; [intros; lia|].
      right. exists m, e. split; [reflexivity|lia].
    + (* the integer part is positive *)
      assert (Hge : 2 ^ n <= Zpos m).
      { destruct (Z.lt_ge_cases (Zpos m) (2 ^ n)) as [Hlt|Hge]; [|exact Hge].
        rewrite Z.div_small in Eq by lia. discriminate. }
      assert (Hlog : n <= Z.log2 (Zpos m)) by (apply Z.log2_le_pow2; lia).
      assert (Hd53 : Zpos (digits2_pos m) = 53) by lia.
      assert (Hlq : Z.log2 (Zpos qp) = 52 + e).
      { rewrite <- Eq, <- Z.shiftr_div_pow2 by lia.
        rewrite Z.log2_shiftr by lia. lia. }
      pose proof (Zdigits2_pos_log2 qp) as Hdq.
      assert (Hfl : binary_normalize prec emax (Zpos qp) 0 false
                    = S754_finite false (fst (shl_align qp 0 e)) e).
      { cbn [binary_normalize].
        pose proof (binary_round_exact false qp 0) as Hex.
        cbv zeta in Hex. rewrite fexp64_eq in Hex.
        replace (Z.max (Zpos (digits2_pos qp) + 0 - 53) (-1074)) with e in Hex by lia.
        apply Hex; lia. }
      destruct (shl_align_spec qp 0 e ltac:(lia)) as (_ & Emz & Hmz).
      set (mz := fst (shl_align qp 0 e)) in *.
      assert (Hprim : Prim2SF (float_of_Z (Zpos qp)) = S754_finite false mz e).
      { unfold float_of_Z. rewrite Hfl. apply Prim2SF_SF2Prim.
        unfold SpecFloat.valid_binary, bounded, canonical_mantissa.
        rewrite fexp64_eq. apply andb_true_iff. split.
        - apply Z.eqb_eq. lia.
        - apply Z.leb_le. change (emax - prec) with 971. lia. }
      rewrite Hprim.
      assert (Hpos : exists ma ea, S754_finite false mz e = S754_finite false ma ea
                                   /\ 0 < Zpos (digits2_pos ma) + ea).
      { exists mz, e. split; [reflexivity|lia]. }
      split; [right; exact Hpos|]. split; [intros _; exact Hpos|].
      rewrite SFsub_finite. rewrite Z.min_id.
      destruct (shl_align_spec m e e ltac:(lia)) as (_ & Em & _).
      destruct (shl_align_spec mz e e ltac:(lia)) as (_ & Emz' & _).
      rewrite Em, Emz', Z.sub_diag, Z.pow_0_r, !Z.mul_1_r, Emz.
      replace (0 - e) with n by lia.
      rewrite <- Eq.
      assert (Hmod : Zpos m - Zpos m / 2 ^ n * 2 ^ n = Zpos m mod 2 ^ n).
      { rewrite Z.mod_eq by lia. lia. }
      rewrite Hmod.
      pose proof (Z.mod_pos_bound (Zpos m) (2 ^ n) Hn) as Hb.
      destruct (Zpos m mod 2 ^ n) as [|dp|dp] eqn:Ed; try lia.
      * left. reflexivity.
      * right. cbn [binary_normalize].
        assert (Hld : Z.log2 (Zpos dp) < n) by (apply Z.log2_lt_pow2; lia).
        pose proof (Zdigits2_pos_log2 dp) as Hdd.
        pose proof (Z.log2_nonneg (Zpos dp)) as Hl1.
        pose proof (binary_round_exact false dp e) as Hex.
        cbv zeta in Hex. rewrite fexp64_eq in Hex.
        set (t := Z.max (Zpos (digits2_pos dp) + e - 53) (-1074)) in *.
        rewrite Hex by lia.
        destruct (shl_align_spec dp e t ltac:(lia)) as (_ & _ & Hmag).
        eexists _, _. split; [reflexivity|]. lia.
    + pose proof (Z.div_pos (Zpos m) (2 ^ n) ltac:(lia) Hn). lia.
Qed.

End BinaryRounding.

(** *** The loop of [decimalToFraction] *)

Section ContinuedFractions.

Local Open Scope Z_scope.
Local Open Scope float_scope.

Lemma Math_floor_infinity x :
  Prim2SF x = S754_infinity false -> Math_floor x = x.
Proof. intros Hx. unfold Math_floor. rewrite Hx. reflexivity. Qed.

Lemma Prim2SF_one : Prim2SF 1 = SF_one.
Proof. reflexivity. Qed.

(** One iteration from a state of the loop: the denominator becomes
    infinite, or its lower bound doubles every second iteration. *)
Lemma cf_step_invariant u v st :
  (0 <= u)%Z -> (v <= u)%Z ->
  loop_invariant u v st ->
  Prim2SF (k1 (cf_step st)) = S754_infinity false
  \/ loop_invariant (if (v =? u)%Z then u + 1 else u)%Z u (cf_step st).
Proof.
  intros Hu Hvu ((HK1 & HK2 & HB & HH1 & HH2) & HT1 & HT2).
  unfold cf_step; cbn [k1 k2 h1 h2 b].
  destruct HB as [HB|(mb & eb & HB & Hmb)].
  - (* b is infinite: so is the new denominator *)
    left. rewrite (Math_floor_infinity _ HB).
    rewrite add_spec, mul_spec, HB.
    destruct HK1 as [->|(m & e & -> & _)];
      destruct HK2 as [->|[->|(m2 & e2 & ->)]]; reflexivity.
  - right.
    destruct (Math_floor_positive _ _ _ HB) as (_ & Ha & Hd).
    destruct (Ha Hmb) as (ma & ea & Efl & Hma).
    assert (HA : pos_ge 0 (Prim2SF (Math_floor (b st)))).
    { right. exists ma, ea. split; [exact Efl|exact Hma]. }
    assert (HMul : pos_ge u
                     (SFmul prec emax (Prim2SF (Math_floor (b st))) (Prim2SF (k1 st)))).
    { apply SFmul_pos_ge; [lia | exact HA | exact HT1]. }
    destruct (SFadd_pos_ge u _ (Prim2SF (k2 st)) ltac:(lia) HMul HK2)
      as [HAdd1 HAdd2].
    assert (HK1' : F_pos_ge (if (v =? u)%Z then u + 1 else u)%Z
                     (Math_floor (b st) * k1 st + k2 st)).
    { unfold F_pos_ge. rewrite add_spec, mul_spec.
      destruct (v =? u)%Z eqn:E.
      - apply Z.eqb_eq in E. subst v. apply HAdd2. apply HT2. lia.
      - exact HAdd1. }
    split; [|split].
    + unfold positive_convergents; cbn [k1 k2 h1 h2 b]. repeat split.
      * apply pos_ge_weaken with (if (v =? u)%Z then u + 1 else u)%Z;
          [destruct (v =? u)%Z; lia | exact HK1'].
      * apply pos_ge_nonneg with 0%Z. exact HK1.
      * unfold F_pos_ge. rewrite div_spec, sub_spec, Prim2SF_one.
        apply SFdiv_one_below. exact Hd.
      * unfold F_nonneg. rewrite add_spec, mul_spec, Efl.
        apply SFadd_nonneg; [apply SFmul_nonneg; exact HH1 | exact HH2].
      * exact HH1.
    + exact HK1'.
    + intros _. exact HT1.
Qed.

Lemma finite_cases (x : float) :
  isFinite x = true ->
  (exists s, Prim2SF x = S754_zero s) \/ (exists s m e, Prim2SF x = S754_finite s m e).
Proof.
  unfold isFinite, is_finite, is_nan, is_infinity.
  rewrite !eqb_spec, abs_spec.
  change (Prim2SF infinity) with (S754_infinity false).
  destruct (Prim2SF x) as [s|s| |s m e]; simpl; intros H.
  - left. eauto.
  - destruct s; discriminate.
  - discriminate.
  - right. eauto.
Qed.

Lemma abs_finite_cases (x : float) :
  isFinite x = true ->
  Prim2SF (abs x) = S754_zero false
  \/ exists m e, Prim2SF (abs x) = S754_finite false m e.
Proof.
  intros H. rewrite abs_spec.
  destruct (finite_cases x H) as [(s & ->)|(s & m & e & ->)]; simpl; eauto.
Qed.

(** The first iteration, from the initial state. *)
Lemma cf_step_init x :
  (Prim2SF x = S754_zero false \/ exists m e, Prim2SF x = S754_finite false m e) ->
  loop_invariant 0 (-1) (cf_step (cf_init x)).
Proof.
  intros Hx.
  assert (Hfl : (Prim2SF (Math_floor x) = S754_zero false
                 \/ exists ma ea, Prim2SF (Math_floor x) = S754_finite false ma ea)
                /\ below_one (SFsub prec emax (Prim2SF x) (Prim2SF (Math_floor x)))).
  { destruct Hx as [Hx|(m & e & Hx)].
    - assert (E : Math_floor x = x) by (unfold Math_floor; rewrite Hx; reflexivity).
      rewrite E, Hx. split; [left; reflexivity | left; reflexivity].
    - destruct (Math_floor_positive _ _ _ Hx) as ([E|(ma & ea & E & _)] & _ & Hd).
      + split; [left; exact E | exact Hd].
      + split; [right; eauto | exact Hd]. }
  destruct Hfl as [Ha Hd].
  assert (HK : Prim2SF (Math_floor x * 0 + 1) = SF_one).
  { rewrite add_spec, mul_spec.
    change (Prim2SF 0) with (S754_zero false).
    change (Prim2SF 1) with SF_one.
    destruct Ha as [->|(ma & ea & ->)]; reflexivity. }
  assert (HK1 : F_pos_ge 0 (Math_floor x * 0 + 1)).
  { unfold F_pos_ge. rewrite HK. right. eexists _, _. split; [reflexivity|].
    reflexivity. }
  unfold loop_invariant, positive_convergents, cf_step, cf_init; cbn [k1 k2 h1 h2 b].
  repeat split.
  - exact HK1.
  - left. reflexivity.
  - unfold F_pos_ge. rewrite div_spec, sub_spec, Prim2SF_one.
    apply SFdiv_one_below. exact Hd.
  - unfold F_nonneg. rewrite add_spec, mul_spec.
    change (Prim2SF 0) with (S754_zero false).
    change (Prim2SF 1) with SF_one.
    apply SFadd_nonneg; [|left; reflexivity].
    destruct Ha as [->|(ma & ea & ->)].
    + left. reflexivity.
    + apply SFmul_nonneg. right; right. unfold SF_one. eauto.
  - right; right. change (Prim2SF 1) with SF_one. unfold SF_one. eauto.
  - exact HK1.
  - intros; lia.
Qed.

Lemma Prim2SF_cap :
  Prim2SF default_maxDenominator = S754_finite false 8589934592000000 (-33).
Proof. vm_compute. reflexivity. Qed.

(** A denominator of at least 2^20, or an infinite one, is above the cap. *)
Lemma above_cap k :
  F_pos_ge 20 k -> (k <=? default_maxDenominator) = false.
Proof.
  intros Hk. rewrite leb_spec, Prim2SF_cap.
  pose proof (Prim2SF_valid k) as Hv.
  destruct Hk as [->|(m & e & E & Hm)]; [reflexivity|].
  rewrite E in Hv |- *. apply valid_finite in Hv.
  unfold SFleb, SFcompare.
  replace (e ?= -33)%Z with Gt; [reflexivity|].
  symmetry. apply Z.compare_gt_iff. lia.
Qed.

Lemma infinite_not_le_cap k :
  Prim2SF k = S754_infinity false -> (k <=? default_maxDenominator) = false.
Proof. intros E. apply above_cap. left. exact E. Qed.

Section Loop.

Variables value sign tolerance : float.

Let loop (fuel : nat) := cf_loop fuel value sign tolerance default_maxDenominator.

(** The loop ends: the lower bound of the denominator reaches 2^20 after
    39 more iterations at most. *)
Lemma cf_loop_terminates :
  forall (n : nat) (u v : Z) (st : convergents),
    (0 <= u)%Z -> (v <= u <= v + 1)%Z -> (-1 <= v)%Z ->
    loop_invariant u v st -> (1 <= n)%nat -> (39 - (u + v) <= Z.of_nat n)%Z ->
    exists st', loop n st = Some st'.
Proof.
  induction n as [|n IH]; intros u v st Hu Huv Hv HI Hn Hfuel; [lia|].
  unfold loop. cbn [cf_loop]. unfold cf_continue.
  destruct (cf_step_invariant u v st Hu ltac:(lia) HI) as [Hinf|HI'].
  - rewrite (infinite_not_le_cap _ Hinf), andb_false_r. eauto.
  - destruct (Z_le_gt_dec 38 (u + v)) as [Hbig|Hsmall].
    + assert (Hk : F_pos_ge 20 (k1 (cf_step st))).
      { destruct HI' as (_ & HT & _).
        apply pos_ge_weaken with (if (v =? u)%Z then (u + 1)%Z else u); [|exact HT].
        destruct (v =? u)%Z eqn:E; [apply Z.eqb_eq in E|apply Z.eqb_neq in E]; lia. }
      rewrite (above_cap _ Hk), andb_false_r. eauto.
    + destruct (_ && _); [|eauto].
      apply (IH (if (v =? u)%Z then (u + 1)%Z else u) u).
      * destruct (v =? u)%Z; lia.
      * destruct (v =? u)%Z eqn:E; [apply Z.eqb_eq in E|apply Z.eqb_neq in E]; lia.
      * lia.
      * exact HI'.
      * lia.
      * destruct (v =? u)%Z eqn:E; [apply Z.eqb_eq in E|apply Z.eqb_neq in E]; lia.
Qed.

(** The state in which the loop ends has an infinite denominator or is a
    state of positive convergents. *)
Lemma cf_loop_exit_state :
  forall (n : nat) (u v : Z) (st st' : convergents),
    (0 <= u)%Z -> (v <= u)%Z -> loop_invariant u v st ->
    loop n st = Some st' ->
    Prim2SF (k1 st') = S754_infinity false \/ positive_convergents st'.
Proof.
  induction n as [|n IH]; intros u v st st' Hu Hvu HI Hl; [discriminate|].
  unfold loop in Hl. cbn [cf_loop] in Hl.
  destruct (cf_step_invariant u v st Hu Hvu HI) as [Hinf|HI'].
  - destruct (cf_continue _ _ _ _ _) eqn:Ec.
    + unfold cf_continue in Ec.
      rewrite (infinite_not_le_cap _ Hinf), andb_false_r in Ec. discriminate.
    + injection Hl as <-. left. exact Hinf.
  - destruct (cf_continue _ _ _ _ _).
    + apply (IH (if (v =? u)%Z then (u + 1)%Z else u) u (cf_step st) st').
      * destruct (v =? u)%Z; lia.
      * destruct (v =? u)%Z; lia.
      * exact HI'.
      * exact Hl.
    + injection Hl as <-. right. exact (proj1 HI').
Qed.

End Loop.

Lemma SFcompare_antisym x y :
  SFcompare y x = option_map CompOpp (SFcompare x y).
Proof.
  destruct x as [sx|sx| |sx mx ex], y as [sy|sy| |sy my ey]; simpl;
    try reflexivity;
    try (destruct sx; reflexivity);
    try (destruct sy; reflexivity);
    try (destruct sx, sy; reflexivity).
  destruct sx, sy; simpl; try reflexivity;
    rewrite (Z.compare_antisym ex ey);
    destruct (ex ?= ey)%Z; simpl; try reflexivity;
    rewrite !Pos.compare_cont_antisym; simpl; reflexivity.
Qed.

(** Two numbers are ordered one way or the other. *)
Lemma SFleb_of_not_ltb x y :
  x <> S754_nan -> y <> S754_nan ->
  SFltb x y = false -> SFleb y x = true.
Proof.
  intros Hx Hy. unfold SFltb, SFleb. rewrite (SFcompare_antisym x y).
  destruct (SFcompare x y) as [[]|] eqn:E; simpl; try reflexivity; try discriminate.
  intros _. exfalso.
  destruct x as [sx|sx| |sx mx ex], y as [sy|sy| |sy my ey];
    try discriminate; congruence.
Qed.

Lemma SFmul_sign_not_nan s h :
  nonneg h ->
  SFmul prec emax (S754_finite s 4503599627370496 (-52)) h <> S754_nan.
Proof.
  intros [->|[->|(m & e & ->)]]; simpl SFmul; try discriminate.
  apply binary_round_aux_not_nan. lia.
Qed.

Lemma SFdiv_finite_not_nan n mk ek :
  n <> S754_nan -> SFdiv prec emax n (S754_finite false mk ek) <> S754_nan.
Proof.
  intros Hn. destruct n as [s|s| |s m e]; simpl SFdiv; try discriminate;
    try congruence.
  unfold SFdiv_core_binary.
  set (m' := match _ with Zpos _ => _ | Z0 => _ | Zneg _ => _ end).
  assert (Hm' : (0 <= m')%Z).
  { unfold m'. destruct (_ - _ - _)%Z; try lia.
    apply Z.shiftl_nonneg. lia. }
  destruct (Z.div_eucl m' (Zpos mk)) as [q r] eqn:Eq.
  apply binary_round_aux_not_nan.
  assert (Hq : q = (m' / Zpos mk)%Z) by (unfold Z.div; rewrite Eq; reflexivity).
  rewrite Hq. apply Z.div_pos; lia.
Qed.

Lemma SFsub_finite_not_nan x r :
  ((exists s, x = S754_zero s) \/ (exists s m e, x = S754_finite s m e)) ->
  r <> S754_nan -> SFsub prec emax x r <> S754_nan.
Proof.
  intros [(s & ->)|(s & m & e & ->)] Hr;
    destruct r as [sr|sr| |sr mr er]; simpl SFsub; try discriminate;
    try congruence.
  - destruct s, sr; discriminate.
  - apply binary_normalize_not_nan.
Qed.

Lemma SFabs_not_nan x : x <> S754_nan -> SFabs x <> S754_nan.
Proof. destruct x; simpl; congruence. Qed.

Lemma not_nan_Prim2SF x : is_nan x = false -> Prim2SF x <> S754_nan.
Proof. intros H E. apply Prim2SF_nan_iff in E. congruence. Qed.

Lemma cap_lt_infinity k :
  Prim2SF k = S754_infinity false -> (default_maxDenominator <? k) = true.
Proof. intros E. rewrite ltb_spec, Prim2SF_cap, E. reflexivity. Qed.

Lemma Prim2SF_sign (value : float) :
  exists s, Prim2SF (if value <? 0 then -1 else 1)
            = S754_finite s 4503599627370496 (-52).
Proof. destruct (value <? 0); eexists; reflexivity. Qed.

(** The final test of [decimalToFraction] on the state in which the loop
    ended. *)
Lemma final_test_within_tolerance (value tolerance : float) (st : convergents) :
  isFinite value = true -> is_nan tolerance = false ->
  Prim2SF (k1 st) = S754_infinity false \/ positive_convergents st ->
  let sign := if value <? 0 then -1 else 1 in
  (default_maxDenominator <? k1 st)
  || (tolerance <? Math_abs (value - sign * h1 st / k1 st)) = false ->
  (Math_abs (value - sign * h1 st / k1 st) <=? tolerance) = true.
Proof.
  intros Hfin Htol Hst sign Htest.
  apply orb_false_iff in Htest. destruct Htest as [Hcap Herr].
  destruct Hst as [Hinf|(HK1 & _ & _ & HH1 & _)].
  { rewrite (cap_lt_infinity _ Hinf) in Hcap. discriminate. }
  destruct HK1 as [Hinf|(mk & ek & Ek & _)].
  { rewrite (cap_lt_infinity _ Hinf) in Hcap. discriminate. }
  rewrite ltb_spec in Herr. rewrite leb_spec.
  apply SFleb_of_not_ltb; [apply not_nan_Prim2SF; exact Htol | | exact Herr].
  unfold Math_abs. rewrite abs_spec. apply SFabs_not_nan.
  rewrite sub_spec. apply SFsub_finite_not_nan; [apply finite_cases; exact Hfin|].
  rewrite div_spec, Ek. apply SFdiv_finite_not_nan.
  rewrite mul_spec. destruct (Prim2SF_sign value) as [s Es].
  unfold sign. rewrite Es. apply SFmul_sign_not_nan. exact HH1.
Qed.

Lemma positive_convergents_invariant st : positive_convergents st -> loop_invariant 0 (-1) st.
Proof.
  intros HG. split; [exact HG|]. split; [exact (proj1 HG)|intros; lia].
Qed.

Lemma reached_positive value sign tolerance st :
  isFinite value = true ->
  reached value sign tolerance st ->
  Prim2SF (k1 st) = S754_infinity false \/ positive_convergents st.
Proof.
  intros Hfin Hr. induction Hr as [|st Hr IH Hc].
  - right. apply (cf_step_init (Math_abs value)). apply abs_finite_cases. exact Hfin.
  - destruct IH as [Hinf|HG].
    + unfold cf_continue in Hc.
      rewrite (infinite_not_le_cap _ Hinf), andb_false_r in Hc. discriminate.
    + destruct (cf_step_invariant 0 (-1) st ltac:(lia) ltac:(lia) (positive_convergents_invariant st HG))
        as [Hinf|HI]; [left; exact Hinf | right; exact (proj1 HI)].
Qed.

Lemma cf_step_infinite_b st :
  F_pos_ge 0 (k1 st) -> F_nonneg (k2 st) ->
  Prim2SF (b st) = S754_infinity false ->
  Prim2SF (k1 (cf_step st)) = S754_infinity false.
Proof.
  intros HK1 HK2 HB. unfold cf_step; cbn [k1].
  rewrite (Math_floor_infinity _ HB), add_spec, mul_spec, HB.
  destruct HK1 as [->|(m & e & -> & _)];
    destruct HK2 as [->|[->|(m2 & e2 & ->)]]; reflexivity.
Qed.

(** C5 (as amended): for every finite value the loop of [decimalToFraction]
    ends within 41 iterations under the default cap, whatever the tolerance,
    so [decimalToFraction] returns; the source has no guard on [b - a]: when
    the difference is zero the division is made and gives [Infinity], and the
    loop then ends in that iteration or the next one, where the denominator is
    infinite and hence above the cap. *)
Theorem continued_fraction_loop_terminates :
  (forall (value sign tolerance : float) (k : nat),
     isFinite value = true ->
     exists st, cf_loop (41 + k) value sign tolerance default_maxDenominator
                  (cf_init (Math_abs value)) = Some st)
  /\ (forall (value tolerance : float) (k : nat),
        exists r, decimalToFraction (41 + k) value tolerance
                    default_maxDenominator = Some r)
  /\ (forall (value sign tolerance : float) (st : convergents) (fuel : nat),
        isFinite value = true ->
        reached value sign tolerance st ->
        cf_continue value sign tolerance default_maxDenominator st = true ->
        b st - Math_floor (b st) = 0 ->
        b (cf_step st) = infinity
        /\ (cf_loop (2 + fuel) value sign tolerance default_maxDenominator st
            = Some (cf_step st)
            \/ cf_loop (2 + fuel) value sign tolerance default_maxDenominator st
               = Some (cf_step (cf_step st)))).
Proof.
  assert (Hloop : forall (value sign tolerance : float) (k : nat),
     isFinite value = true ->
     exists st, cf_loop (41 + k) value sign tolerance default_maxDenominator
                  (cf_init (Math_abs value)) = Some st).
  { intros value sign tolerance k Hfin.
    change (41 + k)%nat with (S (40 + k)). cbn [cf_loop].
    pose proof (cf_step_init (Math_abs value) (abs_finite_cases value Hfin)) as HI.
    destruct (cf_continue _ _ _ _ _); [|eauto].
    apply (cf_loop_terminates value sign tolerance (40 + k) 0 (-1)); try lia.
    exact HI. }
  split; [exact Hloop|]. split.
  - intros value tolerance k. unfold decimalToFraction.
    destruct (isFinite value) eqn:Hfin; cbn [negb]; [|eauto].
    destruct (Number_isInteger value); [eauto|].
    destruct (Hloop value (if value <? 0 then -1 else 1) tolerance k Hfin) as [st ->].
    destruct (_ || _); eauto.
  - intros value sign tolerance st fuel Hfin Hr Hc Hzero.
    assert (Hb : b (cf_step st) = infinity).
    { unfold cf_step; cbn [b]. rewrite Hzero. reflexivity. }
    split; [exact Hb|].
    change (2 + fuel)%nat with (S (S fuel)). cbn [cf_loop].
    destruct (cf_continue value sign tolerance default_maxDenominator (cf_step st))
      eqn:Hc1; [right|left; reflexivity].
    assert (HG : positive_convergents st).
    { destruct (reached_positive _ _ _ _ Hfin Hr) as [Hinf|HG]; [|exact HG].
      unfold cf_continue in Hc.
      rewrite (infinite_not_le_cap _ Hinf), andb_false_r in Hc. discriminate. }
    assert (HK : F_pos_ge 0 (k1 (cf_step st)) /\ F_nonneg (k2 (cf_step st))).
    { destruct (cf_step_invariant 0 (-1) st ltac:(lia) ltac:(lia) (positive_convergents_invariant st HG))
        as [Hinf|((HK1 & HK2 & _) & _)].
      - split; [left; exact Hinf|].
        unfold cf_step; cbn [k2]. apply pos_ge_nonneg with 0%Z. exact (proj1 HG).
      - split; assumption. }
    assert (Hinf : Prim2SF (k1 (cf_step (cf_step st))) = S754_infinity false).
    { apply cf_step_infinite_b; [exact (proj1 HK) | exact (proj2 HK) |].
      rewrite Hb. reflexivity. }
    unfold cf_continue.
    rewrite (infinite_not_le_cap _ Hinf), andb_false_r. reflexivity.
Qed.

Lemma continued_fraction_loop_terminates_witness :
  (isFinite 0.5 = true
   /\ exists st, cf_loop (41 + 0) 0.5 1 default_tolerance default_maxDenominator
                   (cf_init (Math_abs 0.5)) = Some st)
  /\ (reached 0.5 1 default_tolerance (cf_step (cf_init (Math_abs 0.5)))
      /\ cf_continue 0.5 1 default_tolerance default_maxDenominator
           (cf_step (cf_init (Math_abs 0.5))) = true
      /\ b (cf_step (cf_step (cf_init (Math_abs 0.5)))) = infinity).
Proof.
  split.
  - split; [reflexivity|].
    apply (proj1 continued_fraction_loop_terminates 0.5 1 default_tolerance 0%nat).
    reflexivity.
  - split; [apply reached_first|]. split; [reflexivity|].
    apply (proj2 (proj2 continued_fraction_loop_terminates)
             0.5 1 default_tolerance (cf_step (cf_init (Math_abs 0.5))) 0%nat);
      [reflexivity | apply reached_first | reflexivity | reflexivity].
Defined.

(** On 0.5 the second iteration divides 1 by [b - a] = 0. *)
Lemma division_by_zero_at_one_half :
  b (cf_step (cf_init 0.5)) - Math_floor (b (cf_step (cf_init 0.5))) = 0
  /\ b (cf_step (cf_step (cf_init 0.5))) = 1 / 0
  /\ decimalToFraction 2 0.5 default_tolerance default_maxDenominator
     = Some (inr "1/2"%string).
Proof. repeat split; vm_compute; reflexivity. Qed.

(** *** The text of a number holds no [/] *)

Lemma no_slash_app a b : no_slash a -> no_slash b -> no_slash (a ++ b).
Proof.
  induction a as [|c a IH]; simpl; [auto|]. intros [Hc Ha] Hb. auto.
Qed.

Lemma no_slash_substring s : forall n m, no_slash s -> no_slash (substring n m s).
Proof.
  induction s as [|c s IH]; intros n m Hs.
  - destruct n, m; exact I.
  - destruct Hs as [Hc Hs]. destruct n as [|n]; simpl.
    + destruct m as [|m]; simpl; [exact I|]. split; [exact Hc|apply IH; exact Hs].
    + apply IH. exact Hs.
Qed.

Lemma no_slash_zeros n : no_slash (zeros n).
Proof. induction n; simpl; auto. Qed.

Lemma no_slash_uint d : no_slash (NilEmpty.string_of_uint d).
Proof. induction d; simpl; auto. Qed.

Lemma no_slash_digits z : no_slash (digits_of_Z z).
Proof. destruct z; simpl; auto using no_slash_uint. Qed.

Lemma no_slash_exponent e : no_slash (exponent_text e).
Proof.
  unfold exponent_text. apply no_slash_app; [|apply no_slash_digits].
  destruct (e <? 0)%Z; simpl; auto.
Qed.

Lemma no_slash_layout s n k : no_slash (layout s n k).
Proof.
  unfold layout.
  repeat match goal with
         | |- no_slash (if ?c then _ else _) => destruct c
         | |- no_slash (_ ++ _) => apply no_slash_app
         | |- no_slash (substring _ _ _) => apply no_slash_substring
         end;
    auto using no_slash_digits, no_slash_zeros, no_slash_exponent;
    simpl; auto.
Qed.

Lemma no_slash_Number_toString x : no_slash (Number_toString x).
Proof.
  unfold Number_toString.
  destruct (is_nan x); [simpl; auto|].
  destruct (x =? 0)%float; [simpl; auto|].
  destruct (is_infinity x); [destruct (x <? 0)%float; simpl; tauto|].
  destruct (shortest_digits (abs x)) as [[s n] k].
  apply no_slash_app; [destruct (x <? 0)%float; simpl; auto|apply no_slash_layout].
Qed.

Lemma split_fraction_app a b :
  no_slash a -> split_fraction (a ++ "/" ++ b) = Some (a, b).
Proof.
  induction a as [|c a IH]; intros Ha.
  - reflexivity.
  - destruct Ha as [Hc Ha].
    change (String c a ++ "/" ++ b)%string
      with (String c (a ++ "/" ++ b))%string.
    cbn [split_fraction]. rewrite Hc, (IH Ha). reflexivity.
Qed.

(** C6: when [decimalToFraction] returns a fraction text, the text splits
    at its [/] into the texts of two numbers [p] (the signed numerator) and
    [q] (the denominator) of the last convergent, and [p / q] is within the
    tolerance of the value. *)
Theorem fraction_within_tolerance :
  forall (fuel : nat) (value tolerance : float) (s : string),
    isNaN tolerance = false ->
    decimalToFraction fuel value tolerance default_maxDenominator = Some (inr s) ->
    exists p q : float,
      split_fraction s = Some (Number_toString p, Number_toString q)
      /\ (Math_abs (value - p / q) <=? tolerance) = true.
Proof.
  intros fuel value tolerance s Htol. unfold decimalToFraction.
  destruct (isFinite value) eqn:Hfin; cbn [negb]; [|discriminate].
  destruct (Number_isInteger value); [discriminate|].
  set (sign := if value <? 0 then -1 else 1).
  destruct (cf_loop fuel value sign tolerance default_maxDenominator
              (cf_init (Math_abs value))) as [st|] eqn:Hl; [|discriminate].
  assert (Hst : Prim2SF (k1 st) = S754_infinity false \/ positive_convergents st).
  { destruct fuel as [|n]; [discriminate|]. cbn [cf_loop] in Hl.
    pose proof (cf_step_init (Math_abs value) (abs_finite_cases value Hfin)) as HI.
    destruct (cf_continue _ _ _ _ _).
    - apply (cf_loop_exit_state value sign tolerance n 0 (-1)
               (cf_step (cf_init (Math_abs value))) st); try lia; assumption.
    - injection Hl as <-. right. exact (proj1 HI). }
  destruct (_ || _) eqn:Htest; [discriminate|].
  intros E. injection E as <-.
  exists (sign * h1 st), (k1 st). split.
  - unfold String_of. apply split_fraction_app, no_slash_Number_toString.
  - apply final_test_within_tolerance; assumption.
Qed.

Lemma fraction_within_tolerance_witness :
  isNaN default_tolerance = false
  /\ decimalToFraction 2 0.5 default_tolerance default_maxDenominator
     = Some (inr "1/2"%string)
  /\ exists p q : float,
       split_fraction "1/2" = Some (Number_toString p, Number_toString q)
       /\ (Math_abs (0.5 - p / q) <=? default_tolerance) = true.
Proof.
  split; [reflexivity|]. split; [vm_compute; reflexivity|].
  apply (fraction_within_tolerance 2 0.5 default_tolerance "1/2");
    [reflexivity | vm_compute; reflexivity].
Defined.

End ContinuedFractions.

(** *** Results of [evaluateExpression] *)

Section Results.



(** X2: an expression made of white space only is reported as a division by
    zero, while the empty expression is 0. *)
Theorem blank_expression_is_division_by_zero :
  forall (H : Host) (fuel : nat) (angleMode : AngleMode),
    evaluateExpression H fuel EmptyString angleMode = Some (inl 0)
    /\ (forall expression : string,
          expression <> EmptyString ->
          strip_whitespace expression = EmptyString ->
          evaluateExpression H fuel expression angleMode
          = Some (inr "Can't divide by 0")).
Proof.
  intros H fuel angleMode. split; [reflexivity|].
  intros expression Hne Hblank. unfold evaluateExpression.
  destruct expression as [|c e]; [congruence|].
  unfold sanitize. rewrite Hblank. reflexivity.
Qed.

Lemma blank_expression_is_division_by_zero_witness :
  " " <> EmptyString /\ strip_whitespace " " = EmptyString
  /\ evaluateExpression example_host 0 " " deg = Some (inr "Can't divide by 0").
Proof.
  split; [discriminate|]. split; [reflexivity|].
  apply (proj2 (blank_expression_is_division_by_zero example_host 0 deg) " ");
    [discriminate | reflexivity].
Defined.

End Results.

(** *** Texts returned by [formatResult] *)

Section FormatResult.
Import App Invariants.

Lemma decimalToFraction_returns (value tolerance : float) (k : nat) :
  exists r, decimalToFraction (41 + k) value tolerance default_maxDenominator = Some r.
Proof.
  unfold decimalToFraction.
  destruct (isFinite value) eqn:Hfin; cbn [negb]; [|eauto].
  destruct (Number_isInteger value); [eauto|].
  change (41 + k)%nat with (S (40 + k)). cbn [cf_loop].
  pose proof (cf_step_init (Math_abs value) (abs_finite_cases value Hfin)) as HI.
  set (sign := if value <? 0 then -1 else 1).
  destruct (cf_continue _ _ _ _ _).
  - destruct (cf_loop_terminates value sign tolerance (40 + k) 0 (-1)
                (cf_step (cf_init (Math_abs value)))) as [st ->]; try lia; [exact HI|].
    destruct (_ || _); eauto.
  - destruct (_ || _); eauto.
Qed.

(** X3: [formatResult] returns on every input: 41 iterations of the loop of
    [decimalToFraction] are enough. *)
Theorem formatResult_returns :
  forall (result : number_or_string) (k : nat),
    exists s, formatResult (41 + k) result = Some s.
Proof.
  intros [r|s] k; unfold formatResult; [|eauto].
  destruct (negb (isFinite r)); [eauto|].
  destruct (isNaN r); [eauto|].
  destruct (_ <? _); [eauto|].
  destruct (decimalToFraction_returns (parseFloat (toPrecision r 15)) default_tolerance k)
    as [f ->].
  eauto.
Qed.

Lemma every_app P a b : every P a -> every P b -> every P (a ++ b).
Proof.
  induction a as [|c a IH]; simpl; [auto|]. intros [Hc Ha] Hb. auto.
Qed.

Lemma every_substring P s : forall n m, every P s -> every P (substring n m s).
Proof.
  induction s as [|c s IH]; intros n m Hs.
  - destruct n, m; exact I.
  - destruct Hs as [Hc Hs]. destruct n as [|n]; simpl.
    + destruct m as [|m]; simpl; [exact I|]. split; [exact Hc|apply IH; exact Hs].
    + apply IH. exact Hs.
Qed.

Lemma every_zeros n : every numeric_char (zeros n).
Proof. induction n; simpl; auto. Qed.

Lemma every_uint d : every numeric_char (NilEmpty.string_of_uint d).
Proof. induction d; simpl; auto. Qed.

Lemma every_digits z : every numeric_char (digits_of_Z z).
Proof. destruct z; simpl; auto using every_uint. Qed.

Lemma every_exponent e : every numeric_char (exponent_text e).
Proof.
  unfold exponent_text. apply every_app; [|apply every_digits].
  destruct (e <? 0)%Z; simpl; auto.
Qed.

Lemma every_layout s n k : every numeric_char (layout s n k).
Proof.
  unfold layout.
  repeat match goal with
         | |- every _ (if ?c then _ else _) => destruct c
         | |- every _ (_ ++ _) => apply every_app
         | |- every _ (substring _ _ _) => apply every_substring
         end;
    auto using every_digits, every_zeros, every_exponent;
    simpl; auto.
Qed.

Lemma every_Number_toString x : every numeric_char (Number_toString x).
Proof.
  unfold Number_toString.
  destruct (is_nan x); [simpl; tauto|].
  destruct (x =? 0)%float; [simpl; auto|].
  destruct (is_infinity x); [destruct (x <? 0)%float; simpl; tauto|].
  destruct (shortest_digits (abs x)) as [[s n] k].
  apply every_app; [destruct (x <? 0)%float; simpl; auto|apply every_layout].
Qed.

Lemma every_not_error s : every numeric_char s -> isError s = false.
Proof.
  intros Hs. unfold isError. cbn [existsb].
  repeat match goal with
         | |- (String.eqb s ?t || _) = false =>
             destruct (String.eqb_spec s t) as [->|_];
               [exfalso; cbn in Hs; intuition discriminate|cbn [orb]]
         end.
  reflexivity.
Qed.

Lemma every_fraction value tolerance maxDenominator fuel f :
  decimalToFraction fuel value tolerance maxDenominator = Some f ->
  every numeric_char (String_of f).
Proof.
  unfold decimalToFraction.
  destruct (negb (isFinite value)).
  { intros E; injection E as <-. apply every_Number_toString. }
  destruct (Number_isInteger value).
  { intros E; injection E as <-. apply every_Number_toString. }
  destruct (cf_loop _ _ _ _ _ _) as [st|]; [|discriminate].
  destruct (_ || _); intros E; injection E as <-; cbn [String_of].
  - apply every_Number_toString.
  - apply every_app; [apply every_Number_toString|].
    apply (every_app _ "/"); [simpl; auto|apply every_Number_toString].
Qed.

(** X4: the text [formatResult] returns for a number is one of the error
    messages exactly when the number is not finite; for a finite number it
    is made of the characters of numbers and fractions only. *)
Theorem formatResult_error_iff_not_finite :
  forall (fuel : nat) (r : float) (s : string),
    formatResult fuel (inl r) = Some s ->
    isError s = negb (isFinite r)
    /\ (isFinite r = true -> every numeric_char s).
Proof.
  intros fuel r s. unfold formatResult.
  destruct (isFinite r) eqn:Hfin; cbn [negb].
  2:{ intros E; injection E as <-. split; [reflexivity|discriminate]. }
  assert (Hnan : isNaN r = false).
  { unfold isNaN, isFinite, is_finite in *.
    destruct (is_nan r); [discriminate|reflexivity]. }
  rewrite Hnan.
  assert (Hall : forall t, every numeric_char t ->
            isError t = false /\ (true = true -> every numeric_char t)).
  { intros t Ht. split; [apply every_not_error; exact Ht|intros _; exact Ht]. }
  destruct (_ <? _).
  - intros E; injection E as <-. apply Hall, every_Number_toString.
  - destruct (decimalToFraction _ _ _ _) as [f|] eqn:Ef; [|discriminate].
    intros E; injection E as <-. apply Hall. eapply every_fraction. exact Ef.
Qed.

Lemma formatResult_error_iff_not_finite_witness :
  formatResult 2 (inl 0.5) = Some "1/2"
  /\ isError "1/2" = negb (isFinite 0.5)
  /\ (isFinite 0.5 = true -> every numeric_char "1/2").
Proof.
  split; [vm_compute; reflexivity|].
  apply (formatResult_error_iff_not_finite 2 0.5 "1/2"). vm_compute; reflexivity.
Defined.

End FormatResult.

(** *** Values [decimalToFraction] does not convert *)

Section Fractions.


(** The state in which the loop of [decimalToFraction] ends. *)
Lemma cf_loop_final_state (value sign tolerance : float) (n : nat) (st : convergents) :
  isFinite value = true ->
  cf_loop n value sign tolerance default_maxDenominator (cf_init (Math_abs value))
  = Some st ->
  Prim2SF (k1 st) = S754_infinity false \/ positive_convergents st.
Proof.
  intros Hfin Hl. destruct n as [|n]; [discriminate|]. cbn [cf_loop] in Hl.
  pose proof (cf_step_init (Math_abs value) (abs_finite_cases value Hfin)) as HI.
  destruct (cf_continue _ _ _ _ _).
  - apply (cf_loop_exit_state value sign tolerance n 0 (-1)
             (cf_step (cf_init (Math_abs value))) st); try lia; assumption.
  - injection Hl as <-. right. exact (proj1 HI).
Qed.




Lemma positive_convergents_k1_not_nan st :
  positive_convergents st -> Prim2SF (k1 st) <> S754_nan.
Proof.
  intros ([E|(m & e & E & _)] & _); rewrite E; discriminate.
Qed.



End Fractions.

(** *** Denominators of the fractions *)

Section Denominators.

(** A value of at least [2^0] is at least 1. *)
Lemma one_le_pos_ge (k : float) : F_pos_ge 0 k -> (1 <=? k) = true.
Proof.
  intros Hk. rewrite leb_spec, Prim2SF_one.
  pose proof (Prim2SF_valid k) as Hv.
  destruct Hk as [->|(m & e & E & Hm)]; [reflexivity|].
  rewrite E in Hv |- *. apply valid_finite in Hv. destruct Hv as [He _].
  unfold SFleb, SFcompare, SF_one.
  destruct (Z.compare_spec (-52) e) as [<-|Hlt|Hgt]; [|reflexivity|lia].
  assert (Hd : Zpos (digits2_pos m) = 53%Z) by lia.
  rewrite Zdigits2_pos_log2 in Hd.
  assert (H52 : (2 ^ 52 <= Zpos m)%Z).
  { apply Z.log2_le_pow2; lia. }
  change (2 ^ 52)%Z with 4503599627370496%Z in H52.
  change (Pos.compare_cont Eq 4503599627370496 m)
    with (Pos.compare 4503599627370496 m).
  destruct (4503599627370496 ?= m)%positive eqn:Ec; [reflexivity|reflexivity|].
  apply Pos.compare_gt_iff in Ec. apply Pos2Z.pos_lt_pos in Ec.
  exfalso. apply (Z.lt_irrefl (Zpos m)).
  apply Z.lt_le_trans with (1 := Ec). exact H52.
Qed.

(** X6: A fraction returned by [decimalToFraction] has a denominator between
    1 and the cap of 1,000,000. *)
Theorem fraction_denominator_within_cap :
  forall (fuel : nat) (value tolerance : float) (s : string),
    decimalToFraction fuel value tolerance default_maxDenominator = Some (inr s) ->
    exists p q : float,
      split_fraction s = Some (Number_toString p, Number_toString q)
      /\ (1 <=? q) = true /\ (q <=? 1000000) = true.
Proof.
  intros fuel value tolerance s. unfold decimalToFraction.
  destruct (isFinite value) eqn:Hfin; cbn [negb]; [|discriminate].
  destruct (Number_isInteger value); [discriminate|].
  set (sign := if value <? 0 then -1 else 1).
  destruct (cf_loop fuel value sign tolerance default_maxDenominator
              (cf_init (Math_abs value))) as [st|] eqn:Hl; [|discriminate].
  pose proof (cf_loop_final_state _ _ _ _ _ Hfin Hl) as Hst.
  destruct (default_maxDenominator <? k1 st) eqn:Hcap; cbn [orb]; [discriminate|].
  destruct (tolerance <? _); [discriminate|].
  intros E. injection E as <-.
  exists (sign * h1 st), (k1 st). split; [|split].
  - apply split_fraction_app, no_slash_Number_toString.
  - destruct Hst as [Hinf|HG].
    + rewrite (cap_lt_infinity _ Hinf) in Hcap. discriminate.
    + apply one_le_pos_ge. exact (proj1 HG).
  - destruct Hst as [Hinf|HG].
    + rewrite (cap_lt_infinity _ Hinf) in Hcap. discriminate.
    + change 1000000 with default_maxDenominator.
      rewrite leb_spec. rewrite ltb_spec in Hcap.
      apply SFleb_of_not_ltb;
        [rewrite Prim2SF_cap; discriminate
        | apply positive_convergents_k1_not_nan; exact HG | exact Hcap].
Qed.

Lemma fraction_denominator_within_cap_witness :
  decimalToFraction 3 0.75 default_tolerance default_maxDenominator = Some (inr "3/4")
  /\ exists p q : float,
       split_fraction "3/4" = Some (Number_toString p, Number_toString q)
       /\ (1 <=? q) = true /\ (q <=? 1000000) = true.
Proof.
  split; [vm_compute; reflexivity|].
  apply (fraction_denominator_within_cap 3 0.75 default_tolerance "3/4").
  vm_compute; reflexivity.
Defined.

End Denominators.

(** *** Undo and redo in [App] *)

Section UndoRedo.
Import App.

(** X7: redo undoes undo and undo undoes redo, stacks included; after a handler
    that saves the state, undo gives back the four values as they were and
    redo the values the handler left. *)
Theorem undo_redo_round_trip :
  forall s : Session,
    (undoStack s <> [] -> handleRedo (handleUndo s) = s)
    /\ (redoStack s <> [] -> handleUndo (handleRedo s) = s)
    /\ (forall (next : CalculatorState) (show : bool),
          currentState (handleUndo (handle s (Edit next show))) = currentState s
          /\ handleRedo (handleUndo (handle s (Edit next show))) = handle s (Edit next show)).
Proof.
  intros [c u r h]; split; [|split].
  - intros Hne. destruct u as [|p u]; [contradiction|]. reflexivity.
  - intros Hne. destruct r as [|n r]; [contradiction|]. reflexivity.
  - intros next show. split; reflexivity.
Qed.

Lemma undo_redo_round_trip_witness :
  let s := handle initial (Edit {| expression := "1 + "; displayValue := "2";
                                   overwrite := false; openParenCount := 0 |}
                            false) in
  undoStack s <> [] /\ handleRedo (handleUndo s) = s
  /\ redoStack (handleUndo s) <> [] /\ handleUndo (handleRedo (handleUndo s)) = handleUndo s.
Proof.
  intros s. split; [discriminate|]. split.
  - apply (proj1 (undo_redo_round_trip s)). discriminate.
  - split; [discriminate|].
    apply (proj1 (proj2 (undo_redo_round_trip (handleUndo s)))). discriminate.
Defined.

Lemma firstn_length_le {A : Type} (n : nat) (l : list A) :
  (List.length (firstn n l) <= n)%nat.
Proof. rewrite length_firstn. lia. Qed.

Lemma stacks_bound_step (s : Session) (ev : event) :
  (List.length (undoStack s) + List.length (redoStack s) <= 50)%nat ->
  (List.length (undoStack (handle s ev)) + List.length (redoStack (handle s ev)) <= 50)%nat.
Proof.
  destruct s as [c u r h], ev as [next show| |]; cbn [handle undoStack redoStack saveState currentState].
  - intros _. cbn [List.length]. rewrite Nat.add_0_r. apply firstn_length_le.
  - unfold handleUndo; cbn [undoStack]. destruct u as [|p u]; cbn; lia.
  - unfold handleRedo; cbn [redoStack]. destruct r as [|n r]; cbn; lia.
Qed.

(** X8: whatever the handlers that ran, the undo and redo stacks hold at
    most 50 snapshots together. *)
Theorem undo_and_redo_hold_at_most_50 :
  forall events : list event,
    let s := fold_left handle events initial in
    (List.length (undoStack s) + List.length (redoStack s) <= 50)%nat.
Proof.
  intros events.
  assert (G : forall s0,
            (List.length (undoStack s0) + List.length (redoStack s0) <= 50)%nat ->
            let s := fold_left handle events s0 in
            (List.length (undoStack s) + List.length (redoStack s) <= 50)%nat).
  { induction events as [|ev events IH]; intros s0 H0; [exact H0|].
    cbn [fold_left]. apply IH, stacks_bound_step, H0. }
  apply G. cbn. lia.
Qed.

End UndoRedo.

(** *** The unit converter *)

Section UnitSelection.
Import Objects Units App Invariants.

(** X9: the rate of every unit to itself is 1. *)
Theorem unit_rate_to_itself_is_one :
  forall (category : UnitCategory) (unit : string),
    In unit (keys (UNITS category)) ->
    getConversionRate unit unit category = Normal 1.
Proof.
  intros category unit Hin.
  destruct category; cbn in Hin;
    repeat (destruct Hin as [<-|Hin]; [vm_compute; reflexivity|]);
    contradiction.
Qed.

Lemma unit_rate_to_itself_is_one_witness :
  In "F" (keys (UNITS temperature))
  /\ getConversionRate "F" "F" temperature = Normal 1.
Proof.
  split; [cbn; tauto|].
  apply (unit_rate_to_itself_is_one temperature "F"). cbn; tauto.
Defined.

(** X10: A change of category selects two different units of the category,
    swapping keeps the units in the category, and a selection of units of
    the category is converted by the two functions of the units. *)
Theorem unit_selection_stays_in_category :
  (forall category : UnitCategory,
     selection_ok (handleCategoryChange category)
     /\ unitFrom (handleCategoryChange category) <> unitTo (handleCategoryChange category))
  /\ (forall s : UnitSelection, selection_ok s -> selection_ok (handleSwapUnits s))
  /\ (forall (s : UnitSelection) (unitAmount : float),
        selection_ok s -> isFinite unitAmount = true ->
        exists from to,
          get (UNITS (unitCategory s)) (key_of (unitFrom s)) = Own from
          /\ get (UNITS (unitCategory s)) (key_of (unitTo s)) = Own to
          /\ convertedUnitValue unitAmount s
             = Normal (fromBase to (toBase from unitAmount))).
Proof.
  split; [|split].
  - intros category. split.
    + destruct category; do 2 eexists; split; vm_compute; reflexivity.
    + destruct category; vm_compute; discriminate.
  - intros s (from & to & Hf & Ht). exists to, from. split; assumption.
  - intros s unitAmount (from & to & Hf & Ht) Hfin. exists from, to.
    split; [exact Hf|]. split; [exact Ht|].
    unfold convertedUnitValue, convertUnit. rewrite Hf, Ht.
    unfold isNaN, isFinite, is_finite in *.
    destruct (is_nan unitAmount); [discriminate|].
    cbn [orb] in *. rewrite Hfin. reflexivity.
Qed.

Lemma unit_selection_stays_in_category_witness :
  selection_ok (handleCategoryChange area)
  /\ selection_ok (handleSwapUnits (handleCategoryChange area))
  /\ isFinite 2 = true
  /\ exists from to,
       get (UNITS area) "km2" = Own from
       /\ get (UNITS area) "m2" = Own to
       /\ convertedUnitValue 2 (handleSwapUnits (handleCategoryChange area))
          = Normal (fromBase to (toBase from 2)).
Proof.
  pose proof unit_selection_stays_in_category as (Hc & Hs & Hv).
  split; [exact (proj1 (Hc area))|].
  split; [exact (Hs _ (proj1 (Hc area)))|].
  split; [reflexivity|].
  exact (Hv _ 2 (Hs _ (proj1 (Hc area))) eq_refl).
Defined.

End UnitSelection.

(** *** Conversions never give NaN *)

Section Conversions.
Import Objects Units Currency.

Lemma SFmul_by_finite_not_nan x s m e :
  x <> S754_nan -> SFmul prec emax x (S754_finite s m e) <> S754_nan.
Proof.
  intros Hx. destruct x as [sx|sx| |sx mx ex]; simpl SFmul; try discriminate;
    try congruence.
  apply binary_round_aux_not_nan. lia.
Qed.

Lemma SFdiv_by_finite_not_nan x s m e :
  x <> S754_nan -> SFdiv prec emax x (S754_finite s m e) <> S754_nan.
Proof.
  intros Hx. destruct x as [sx|sx| |sx mx ex]; simpl SFdiv; try discriminate;
    try congruence.
  unfold SFdiv_core_binary.
  set (m' := match _ with Zpos _ => _ | Z0 => _ | Zneg _ => _ end).
  assert (Hm' : (0 <= m')%Z).
  { unfold m'. destruct (_ - _ - _)%Z; try lia.
    apply Z.shiftl_nonneg. lia. }
  destruct (Z.div_eucl m' (Zpos m)) as [q r] eqn:Eq.
  apply binary_round_aux_not_nan.
  assert (Hq : q = (m' / Zpos m)%Z) by (unfold Z.div; rewrite Eq; reflexivity).
  rewrite Hq. apply Z.div_pos; lia.
Qed.

Lemma SFadd_finite_not_nan x s m e :
  x <> S754_nan -> SFadd prec emax x (S754_finite s m e) <> S754_nan.
Proof.
  intros Hx. destruct x as [sx|sx| |sx mx ex]; simpl SFadd; try discriminate;
    try congruence.
  apply binary_normalize_not_nan.
Qed.

Lemma SFsub_by_finite_not_nan x s m e :
  x <> S754_nan -> SFsub prec emax x (S754_finite s m e) <> S754_nan.
Proof.
  intros Hx. destruct x as [sx|sx| |sx mx ex]; simpl SFsub; try discriminate;
    try congruence.
  apply binary_normalize_not_nan.
Qed.

Lemma mul_not_nan (v c : float) s m e :
  Prim2SF c = S754_finite s m e -> is_nan v = false -> is_nan (v * c) = false.
Proof.
  intros Ec Hv. apply is_nan_false. rewrite mul_spec, Ec.
  apply SFmul_by_finite_not_nan, not_nan_Prim2SF, Hv.
Qed.

Lemma div_not_nan (v c : float) s m e :
  Prim2SF c = S754_finite s m e -> is_nan v = false -> is_nan (v / c) = false.
Proof.
  intros Ec Hv. apply is_nan_false. rewrite div_spec, Ec.
  apply SFdiv_by_finite_not_nan, not_nan_Prim2SF, Hv.
Qed.

Lemma add_not_nan (v c : float) s m e :
  Prim2SF c = S754_finite s m e -> is_nan v = false -> is_nan (v + c) = false.
Proof.
  intros Ec Hv. apply is_nan_false. rewrite add_spec, Ec.
  apply SFadd_finite_not_nan, not_nan_Prim2SF, Hv.
Qed.

Lemma sub_not_nan (v c : float) s m e :
  Prim2SF c = S754_finite s m e -> is_nan v = false -> is_nan (v - c) = false.
Proof.
  intros Ec Hv. apply is_nan_false. rewrite sub_spec, Ec.
  apply SFsub_by_finite_not_nan, not_nan_Prim2SF, Hv.
Qed.

Ltac not_nan :=
  repeat first
    [ assumption
    | eapply mul_not_nan; [vm_compute; reflexivity|]
    | eapply div_not_nan; [vm_compute; reflexivity|]
    | eapply add_not_nan; [vm_compute; reflexivity|]
    | eapply sub_not_nan; [vm_compute; reflexivity|] ].

(** The two functions of every unit of the table send a number to a
    number. *)
Lemma unit_functions_not_nan (category : UnitCategory) (key : string) (u : UnitInfo) :
  own (UNITS category) key = Some u ->
  forall v : float,
    is_nan v = false ->
    is_nan (toBase u v) = false /\ is_nan (fromBase u v) = false.
Proof.
  intros Hu v Hv.
  destruct category; cbn [UNITS own] in Hu;
    repeat match type of Hu with
           | (if ?c then _ else _) = _ =>
               destruct c;
                 [injection Hu as <-;
                  cbn [toBase fromBase]; split; not_nan|]
           end;
    discriminate.
Qed.

(** X11: [convertUnit] never returns NaN. *)
Theorem convertUnit_is_never_NaN :
  forall (value : float) (fromUnit toUnit : string) (category : UnitCategory)
         (x : float),
    convertUnit value fromUnit toUnit category = Normal x -> isNaN x = false.
Proof.
  intros value fromUnit toUnit category x. unfold convertUnit, isNaN.
  destruct (is_nan value) eqn:Hv; cbn [orb].
  { intros E; injection E as <-. reflexivity. }
  destruct (negb (isFinite value)).
  { intros E; injection E as <-. reflexivity. }
  unfold get.
  destruct (own (UNITS category) fromUnit) as [from|] eqn:Ef;
    destruct (own (UNITS category) toUnit) as [to|] eqn:Et;
    repeat match goal with
           | |- context [if ?c then _ else _] => destruct c
           end;
    try discriminate;
    try (intros E; injection E as <-; reflexivity).
  intros E; injection E as <-.
  destruct (unit_functions_not_nan _ _ _ Ef value Hv) as [Hb _].
  exact (proj2 (unit_functions_not_nan _ _ _ Et _ Hb)).
Qed.

Lemma convertUnit_is_never_NaN_witness :
  convertUnit 0x1.fffffffffffffp+1023 "km" "F" length = Normal 0
  /\ convertUnit 0x1.fffffffffffffp+1023 "km" "m" length = Normal infinity
  /\ isNaN infinity = false.
Proof.
  split; [vm_compute; reflexivity|]. split; [vm_compute; reflexivity|].
  apply (convertUnit_is_never_NaN 0x1.fffffffffffffp+1023 "km" "m" length).
  vm_compute; reflexivity.
Defined.

End Conversions.

(** *** Exchange rates *)

Section ExchangeRates.
Import Objects Currency.

(** A finite non-zero number divided by itself is 1. *)
Lemma SFdiv_self s m e :
  SFdiv prec emax (S754_finite s m e) (S754_finite s m e) = SF_one.
Proof.
  cbn [SFdiv]. unfold SFdiv_core_binary.
  rewrite !Z.sub_diag.
  change (Z.min (fexp prec emax 0) 0) with (-53)%Z.
  change (0 - -53)%Z with 53%Z. cbv iota beta.
  assert (Hq : Z.div_eucl (Z.shiftl (Zpos m) 53) (Zpos m) = (2 ^ 53, 0)%Z).
  { rewrite Z.shiftl_mul_pow2 by lia.
    pose proof (Z.div_eucl_eq (Zpos m * 2 ^ 53) (Zpos m) ltac:(lia)) as Hd.
    pose proof (Z.mod_pos_bound (Zpos m * 2 ^ 53) (Zpos m) ltac:(lia)) as Hb.
    unfold Z.modulo in Hb.
    destruct (Z.div_eucl (Zpos m * 2 ^ 53) (Zpos m)) as [q r].
    assert (Hr : r = 0%Z).
    { assert (Hm : (Zpos m * (2 ^ 53 - q) = r)%Z) by lia.
      destruct (Z.eq_dec (2 ^ 53 - q) 0) as [E0|N0]; [rewrite E0 in Hm; lia|].
      exfalso.
      assert (Zpos m <= Z.abs r)%Z.
      { rewrite <- Hm, Z.abs_mul.
        replace (Zpos m) with (Z.abs (Zpos m) * 1)%Z at 1 by (simpl; lia).
        apply Z.mul_le_mono_nonneg_l; lia. }
      lia. }
    subst r. f_equal. nia. }
  rewrite Hq.
  assert (Hl : new_location (Zpos m) 0 = loc_Exact).
  { unfold new_location, new_location_even, new_location_odd.
    destruct (Z.even (Zpos m)); reflexivity. }
  rewrite Hl. destruct s; vm_compute; reflexivity.
Qed.

Lemma div_self (r : float) :
  isFinite r = true -> (r =? 0) = false -> r / r = 1.
Proof.
  intros Hfin Hz. apply Prim2SF_inj. rewrite div_spec, Prim2SF_one.
  destruct (finite_cases r Hfin) as [(s & E)|(s & m & e & E)].
  - rewrite eqb_spec, E in Hz. destruct s; discriminate.
  - rewrite E. apply SFdiv_self.
Qed.

Lemma infinite_is_not_finite (x : float) s :
  Prim2SF x = S754_infinity s -> isFinite x = false.
Proof.
  intros E. unfold isFinite, is_finite, is_infinity.
  rewrite eqb_spec, abs_spec, E. destruct s; cbn; rewrite orb_true_r; reflexivity.
Qed.

Lemma truthy_number (r : float) :
  (r =? 0) || isNaN r = false ->
  exists s, Prim2SF r = S754_infinity s \/ exists m e, Prim2SF r = S754_finite s m e.
Proof.
  intros H. apply orb_false_iff in H. destruct H as [Hz Hn].
  rewrite eqb_spec in Hz. apply not_nan_Prim2SF in Hn.
  destruct (Prim2SF r) as [s|s| |s m e]; try congruence.
  - destruct s; discriminate.
  - exists s. left. reflexivity.
  - exists s. right. eauto.
Qed.

(** X12: the rate of a currency to itself is 1 when its rate is a finite number
    other than 0; a currency whose rate is 0 has rate 0 to itself. *)
Theorem exchange_rate_to_itself :
  forall (rates : list (string * float)) (currency : string) (r : float),
    own rates currency = Some r ->
    isFinite r = true ->
    getExchangeRate currency currency rates = (if r =? 0 then 0 else 1).
Proof.
  intros rates currency r Hr Hfin. unfold getExchangeRate, get. rewrite Hr.
  cbn [falsy rate_number].
  assert (Hn : isNaN r = false).
  { unfold isNaN, isFinite, is_finite in *.
    destruct (is_nan r); [discriminate|reflexivity]. }
  rewrite Hn, !orb_false_r, orb_diag.
  destruct (r =? 0) eqn:Hz; [reflexivity|].
  apply div_self; assumption.
Qed.

Lemma exchange_rate_to_itself_witness :
  own DEFAULT_EXCHANGE_RATES "JPY" = Some 151.5
  /\ isFinite 151.5 = true
  /\ getExchangeRate "JPY" "JPY" DEFAULT_EXCHANGE_RATES = 1.
Proof.
  split; [reflexivity|]. split; [reflexivity|].
  apply (exchange_rate_to_itself DEFAULT_EXCHANGE_RATES "JPY" 151.5);
    reflexivity.
Defined.

(** X13: between two currencies of the table, the second with a finite rate,
    [convertCurrency] and [getExchangeRate] never give NaN. *)
Theorem currency_conversion_is_never_NaN :
  forall (rates : list (string * float)) (from to : string) (rateFrom rateTo : float),
    own rates from = Some rateFrom ->
    own rates to = Some rateTo ->
    isFinite rateTo = true ->
    (forall amount : float, isNaN (convertCurrency amount from to rates) = false)
    /\ isNaN (getExchangeRate from to rates) = false.
Proof.
  intros rates from to rateFrom rateTo Hf Ht Hfin.
  assert (Hq : forall x : float,
            isFinite x = true -> (rateFrom =? 0) || isNaN rateFrom = false ->
            is_nan (x / rateFrom) = false).
  { intros x Hx Hr. apply is_nan_false. rewrite div_spec.
    destruct (truthy_number _ Hr) as (s & [E|(m & e & E)]); rewrite E.
    - destruct (finite_cases x Hx) as [(sx & ->)|(sx & mx & ex & ->)];
        discriminate.
    - apply SFdiv_by_finite_not_nan.
      destruct (finite_cases x Hx) as [(sx & ->)|(sx & mx & ex & ->)];
        discriminate. }
  split.
  - intros amount. unfold convertCurrency, get. rewrite Hf, Ht.
    cbn [falsy rate_number].
    destruct (isNaN amount) eqn:Ha; cbn [orb]; [reflexivity|].
    destruct (isFinite amount) eqn:Hfa; cbn [negb]; [|reflexivity].
    destruct ((rateFrom =? 0) || isNaN rateFrom) eqn:Hrf; cbn [orb]; [reflexivity|].
    destruct ((rateTo =? 0) || isNaN rateTo) eqn:Hrt; [reflexivity|].
    destruct (truthy_number _ Hrt) as (s & [E|(m & e & E)]).
    + rewrite (infinite_is_not_finite _ _ E) in Hfin. discriminate.
    + unfold isNaN. eapply mul_not_nan; [exact E|]. apply Hq; auto.
  - unfold getExchangeRate, get. rewrite Hf, Ht. cbn [falsy rate_number].
    destruct ((rateFrom =? 0) || isNaN rateFrom) eqn:Hrf; cbn [orb]; [reflexivity|].
    destruct ((rateTo =? 0) || isNaN rateTo) eqn:Hrt; [reflexivity|].
    apply Hq; [exact Hfin|reflexivity].
Qed.

Lemma currency_conversion_is_never_NaN_witness :
  own DEFAULT_EXCHANGE_RATES "EUR" = Some 0.92
  /\ own DEFAULT_EXCHANGE_RATES "INR" = Some 83.5
  /\ isFinite 83.5 = true
  /\ isNaN (convertCurrency 100 "EUR" "INR" DEFAULT_EXCHANGE_RATES) = false
  /\ isNaN (getExchangeRate "EUR" "INR" DEFAULT_EXCHANGE_RATES) = false.
Proof.
  split; [reflexivity|]. split; [reflexivity|]. split; [reflexivity|].
  pose proof (currency_conversion_is_never_NaN DEFAULT_EXCHANGE_RATES
                "EUR" "INR" 0.92 83.5 eq_refl eq_refl eq_refl) as (Hc & Hr).
  split; [apply Hc | exact Hr].
Defined.

End ExchangeRates.

(** *** Integers as binary64 values *)

Section IntegerFloats.

Local Open Scope Z_scope.

(** Shifting out zero bits leaves no remainder. *)
Lemma iter_shr_1_exact p : forall m : positive,
  iter_pos shr_1 p {| shr_m := Zpos m * 2 ^ Zpos p; shr_r := false; shr_s := false |}
  = {| shr_m := Zpos m; shr_r := false; shr_s := false |}.
Proof.
  assert (H1 : forall m : positive,
            shr_1 {| shr_m := Zpos m * 2; shr_r := false; shr_s := false |}
            = {| shr_m := Zpos m; shr_r := false; shr_s := false |}).
  { intros m. replace (Zpos m * 2) with (Zpos (xO m)) by lia. reflexivity. }
  assert (Hpow : forall (m q : positive),
            Zpos m * 2 ^ Zpos q = Zpos (m * 2 ^ q)).
  { intros m q. rewrite Pos2Z.inj_mul, Pos2Z.inj_pow. reflexivity. }
  induction p as [p IH|p IH|]; intros m; cbn [iter_pos].
  - replace (Zpos m * 2 ^ Zpos p~1) with (Zpos (m * 2 ^ p * 2 ^ p) * 2).
    2:{ rewrite !Pos2Z.inj_mul, !Pos2Z.inj_pow.
        replace (Zpos p~1) with (Zpos p + Zpos p + 1) by lia.
        rewrite !Z.pow_add_r by lia. ring. }
    rewrite H1. rewrite <- Hpow, IH. rewrite <- Hpow. apply IH.
  - replace (Zpos m * 2 ^ Zpos p~0) with (Zpos (m * 2 ^ p) * 2 ^ Zpos p).
    2:{ rewrite !Pos2Z.inj_mul, !Pos2Z.inj_pow.
        replace (Zpos p~0) with (Zpos p + Zpos p) by lia.
        rewrite !Z.pow_add_r by lia. ring. }
    rewrite IH. rewrite <- Hpow. apply IH.
  - change (2 ^ 1) with 2. apply H1.
Qed.

Lemma Zdigits2_mul_pow2 K j :
  0 < K -> 0 <= j -> Zdigits2 (K * 2 ^ j) = Zdigits2 K + j.
Proof.
  intros HK Hj.
  assert (0 < 2 ^ j) by (apply Z.pow_pos_nonneg; lia).
  rewrite !Zdigits2_log2_Z by nia.
  rewrite Z.log2_mul_pow2 by lia. lia.
Qed.

Lemma Zdigits2_range k : 0 < k < 2 ^ 53 -> 1 <= Zdigits2 k <= 53.
Proof.
  intros Hk. rewrite Zdigits2_log2_Z by lia.
  pose proof (Z.log2_nonneg k).
  assert (Z.log2 k < 53) by (apply Z.log2_lt_pow2; lia). lia.
Qed.

(** Rounding [K * 2^(e + j)], given as the mantissa [K * 2^j] and the
    exponent [e], is exact when [K] has at most 53 bits and the result is in
    the range of the normal and subnormal numbers. *)
Lemma binary_round_dyadic s P e K j :
  0 < K -> Zdigits2 K <= 53 -> 0 <= j -> Zpos P = K * 2 ^ j ->
  -1074 <= Zdigits2 K + (e + j) - 53 <= 971 ->
  binary_round prec emax s P e
  = S754_finite s (Z.to_pos (K * 2 ^ (53 - Zdigits2 K))) (Zdigits2 K + (e + j) - 53).
Proof.
  intros HK Hd Hj HP Ht.
  set (d := Zdigits2 K) in *. set (t := d + (e + j) - 53) in *.
  assert (HdP : Zpos (digits2_pos P) = d + j).
  { change (Zpos (digits2_pos P)) with (Zdigits2 (Zpos P)).
    rewrite HP. apply Zdigits2_mul_pow2; assumption. }
  assert (Hfexp : fexp prec emax (Zpos (digits2_pos P) + e) = t).
  { rewrite fexp64_eq, HdP. unfold t. lia. }
  assert (Hd1 : 1 <= d).
  { unfold d. rewrite Zdigits2_log2_Z by lia.
    pose proof (Z.log2_nonneg K). lia. }
  assert (H2 : 0 < 2 ^ (53 - d)) by (apply Z.pow_pos_nonneg; lia).
  destruct (Z.le_gt_cases t e) as [Hle|Hgt].
  - pose proof (binary_round_exact s P e) as Hex. cbv zeta in Hex.
    rewrite Hfexp in Hex. rewrite Hex by lia.
    destruct (shl_align_spec P e t Hle) as (_ & Em & _).
    f_equal. rewrite <- (Pos2Z.id (fst (shl_align P e t))). f_equal.
    rewrite Em, HP, <- Z.mul_assoc, <- Z.pow_add_r by lia.
    f_equal. f_equal. unfold t. lia.
  - unfold binary_round. rewrite Hfexp.
    assert (Hsh : shl_align P e t = (P, e)).
    { unfold shl_align. destruct (t - e) eqn:E; try lia; reflexivity. }
    rewrite Hsh.
    set (n := t - e) in *.
    assert (Hn : 0 < n <= j) by (unfold n, t; lia).
    set (M := Z.to_pos (K * 2 ^ (53 - d))).
    assert (HM : Zpos M = K * 2 ^ (53 - d)).
    { unfold M. rewrite Z2Pos.id by nia. reflexivity. }
    assert (HPM : Zpos P = Zpos M * 2 ^ n).
    { rewrite HP, HM, <- Z.mul_assoc, <- Z.pow_add_r by lia.
      f_equal. f_equal. unfold n, t. lia. }
    assert (HdM : Zdigits2 (Zpos M) = 53).
    { rewrite HM, Zdigits2_mul_pow2 by lia. fold d. lia. }
    unfold binary_round_aux, shr_fexp.
    change (Zdigits2 (Zpos P)) with (Zpos (digits2_pos P)).
    rewrite Hfexp. fold n.
    destruct n as [|pn|pn] eqn:En; try lia.
    cbn [shr shr_record_of_loc].
    rewrite HPM, iter_shr_1_exact.
    cbn [loc_of_shr_record shr_m round_nearest_even].
    rewrite HdM.
    replace (e + Zpos pn) with t by lia.
    replace (fexp prec emax (53 + t) - t) with 0 by (rewrite fexp64_eq; lia).
    cbn [shr shr_record_of_loc shr_m].
    replace (t <=? emax - prec) with true; [reflexivity|].
    symmetry. apply Z.leb_le. change (emax - prec) with 971. lia.
Qed.

(** The binary64 value of the integer [k], for [0 < k < 2^53]. *)
Lemma float_of_Z_repr k :
  0 < k < 2 ^ 53 ->
  Prim2SF (float_of_Z k)
  = S754_finite false (Z.to_pos (k * 2 ^ (53 - Zdigits2 k))) (Zdigits2 k - 53).
Proof.
  intros Hk.
  assert (Hd : 1 <= Zdigits2 k <= 53).
  { rewrite Zdigits2_log2_Z by lia.
    pose proof (Z.log2_nonneg k).
    assert (Z.log2 k < 53) by (apply Z.log2_lt_pow2; lia). lia. }
  destruct k as [|p|p]; try lia.
  unfold float_of_Z. cbn [binary_normalize].
  rewrite (binary_round_dyadic false p 0 (Zpos p) 0) by lia.
  replace (Zdigits2 (Zpos p) + (0 + 0) - 53) with (Zdigits2 (Zpos p) - 53) by lia.
  apply Prim2SF_SF2Prim.
  assert (H2 : 0 < 2 ^ (53 - Zdigits2 (Zpos p))) by (apply Z.pow_pos_nonneg; lia).
  unfold SpecFloat.valid_binary, bounded, canonical_mantissa.
  change (Zpos (digits2_pos ?m)) with (Zdigits2 (Zpos m)).
  rewrite Z2Pos.id by nia.
  rewrite Zdigits2_mul_pow2 by lia.
  rewrite fexp64_eq. apply andb_true_iff. split.
  - apply Z.eqb_eq. lia.
  - apply Z.leb_le. change (emax - prec) with 971. lia.
Qed.

(** Adding 1 to an integer below [2^53] is exact. *)
Lemma float_of_Z_succ k :
  0 < k < 2 ^ 53 -> (float_of_Z k + 1)%float = float_of_Z (k + 1).
Proof.
  intros Hk.
  destruct (Z.eq_dec k (2 ^ 53 - 1)) as [->|Hne]; [vm_compute; reflexivity|].
  apply Prim2SF_inj.
  rewrite add_spec, (float_of_Z_repr k Hk), (float_of_Z_repr (k + 1)) by lia.
  rewrite Prim2SF_one. unfold SF_one. rewrite SFadd_finite.
  assert (Hd : 1 <= Zdigits2 k <= 53).
  { rewrite Zdigits2_log2_Z by lia.
    pose proof (Z.log2_nonneg k).
    assert (Z.log2 k < 53) by (apply Z.log2_lt_pow2; lia). lia. }
  assert (Hd' : 1 <= Zdigits2 (k + 1) <= 53).
  { rewrite Zdigits2_log2_Z by lia.
    pose proof (Z.log2_nonneg (k + 1)).
    assert (Z.log2 (k + 1) < 53) by (apply Z.log2_lt_pow2; lia). lia. }
  replace (Z.min (Zdigits2 k - 53) (-52)) with (-52) by lia.
  assert (H2 : 0 < 2 ^ (53 - Zdigits2 k)) by (apply Z.pow_pos_nonneg; lia).
  destruct (shl_align_spec (Z.to_pos (k * 2 ^ (53 - Zdigits2 k)))
              (Zdigits2 k - 53) (-52) ltac:(lia)) as (_ & Ea & _).
  destruct (shl_align_spec 4503599627370496 (-52) (-52) ltac:(lia)) as (_ & Eb & _).
  rewrite Z2Pos.id in Ea by nia.
  rewrite <- Z.mul_assoc, <- Z.pow_add_r in Ea by lia.
  replace (53 - Zdigits2 k + (Zdigits2 k - 53 - -52)) with 52 in Ea by lia.
  rewrite Z.sub_diag, Z.pow_0_r, Z.mul_1_r in Eb.
  rewrite (binary_round_dyadic false _ (-52) (k + 1) 52); try lia;
    first [ f_equal; lia
          | rewrite Pos2Z.inj_add, Ea, Eb;
            change 4503599627370496 with (2 ^ 52); ring ].
Qed.

End IntegerFloats.

(** *** Termination of [factorial] *)

Section FactorialTermination.

Local Open Scope Z_scope.
Local Open Scope float_scope.

Lemma two_53 : Prim2SF 9007199254740992 = S754_finite false 4503599627370496 1.
Proof. vm_compute. reflexivity. Qed.

(** The counter of the loop, an integer up to [2^53], is not above a bound
    of at least [2^53]. *)
Lemma counter_le_bound (k : Z) (n : float) :
  (0 < k <= 2 ^ 53)%Z -> (9007199254740992 <=? n) = true ->
  (float_of_Z k <=? n) = true.
Proof.
  intros Hk Hn.
  destruct (Z.eq_dec k (2 ^ 53)) as [->|Hne]; [exact Hn|].
  rewrite leb_spec in Hn |- *. rewrite two_53 in Hn.
  rewrite float_of_Z_repr by lia.
  assert (Hd : (Zdigits2 k <= 53)%Z).
  { rewrite Zdigits2_log2_Z by lia.
    assert (Z.log2 k < 53)%Z by (apply Z.log2_lt_pow2; lia). lia. }
  set (t := (Zdigits2 k - 53)%Z) in *.
  destruct (Prim2SF n) as [sn|sn| |sn mn en]; try discriminate.
  - destruct sn; [discriminate|reflexivity].
  - destruct sn; [discriminate|].
    unfold SFleb, SFcompare in Hn |- *.
    destruct (Z.compare_spec 1 en) as [E|L|G]; try discriminate.
    + replace (t ?= en)%Z with Lt; [reflexivity|].
      symmetry. apply Z.compare_lt_iff. lia.
    + replace (t ?= en)%Z with Lt; [reflexivity|].
      symmetry. apply Z.compare_lt_iff. lia.
Qed.

Lemma factorial_loop_stuck (n : float) :
  (9007199254740992 <=? n) = true ->
  forall (fuel : nat) (k : Z) (result : float),
    (0 < k <= 2 ^ 53)%Z ->
    factorial_loop fuel (float_of_Z k) result n = None.
Proof.
  intros Hn. induction fuel as [|fuel IH]; intros k result Hk; [reflexivity|].
  cbn [factorial_loop]. rewrite (counter_le_bound k n Hk Hn).
  destruct (Z.eq_dec k (2 ^ 53)) as [->|Hne].
  - replace (float_of_Z (2 ^ 53) + 1) with (float_of_Z (2 ^ 53))
      by (vm_compute; reflexivity).
    apply IH. lia.
  - rewrite float_of_Z_succ by lia. apply IH. lia.
Qed.

Lemma factorial_loop_ends (n : float) :
  (9007199254740992 <=? n) = false ->
  forall d : Z, (0 <= d)%Z ->
    forall (k : Z) (result : float),
      k = (2 ^ 53 - d)%Z -> (0 < k)%Z ->
      exists fuel v, factorial_loop fuel (float_of_Z k) result n = Some v.
Proof.
  intros Hn. apply (natlike_ind (fun d => forall (k : Z) (result : float),
      k = (2 ^ 53 - d)%Z -> (0 < k)%Z ->
      exists fuel v, factorial_loop fuel (float_of_Z k) result n = Some v)).
  - intros k result -> _. exists 1%nat, result. cbn [factorial_loop].
    replace (float_of_Z (2 ^ 53 - 0)) with 9007199254740992
      by (vm_compute; reflexivity).
    rewrite Hn. reflexivity.
  - intros d Hd IH k result Ek Hk.
    destruct (float_of_Z k <=? n) eqn:Ec.
    + destruct (IH (k + 1)%Z (result * float_of_Z k) ltac:(lia) ltac:(lia))
        as (fuel & v & Hv).
      exists (S fuel), v. cbn [factorial_loop]. rewrite Ec.
      rewrite float_of_Z_succ by lia. exact Hv.
    + exists 1%nat, result. cbn [factorial_loop]. rewrite Ec. reflexivity.
Qed.

(** From [2^53] on, [factorial] does not return. *)
Lemma factorial_stuck (n : float) :
  (9007199254740992 <=? n) = true -> forall fuel : nat, factorial fuel n = None.
Proof.
  intros Hn fuel. unfold factorial.
  assert (Hs : (n <? 0) = false /\ (n =? 0) = false /\ (n =? 1) = false).
  { pose proof Hn as Hn'. rewrite leb_spec, two_53 in Hn'.
    rewrite ltb_spec, !eqb_spec, Prim2SF_one.
    change (Prim2SF 0) with (S754_zero false). unfold SF_one.
    destruct (Prim2SF n) as [sn|sn| |sn mn en]; try discriminate.
    - destruct sn; [discriminate|]. repeat split; reflexivity.
    - destruct sn; [discriminate|].
      unfold SFleb, SFltb, SFeqb, SFcompare in Hn' |- *.
      repeat split; try reflexivity.
      destruct (Z.compare_spec 1 en) as [E|L|G]; try discriminate.
      + replace (en ?= -52)%Z with Gt; [reflexivity|].
        symmetry. apply Z.compare_gt_iff. lia.
      + replace (en ?= -52)%Z with Gt; [reflexivity|].
        symmetry. apply Z.compare_gt_iff. lia. }
  destruct Hs as (H0 & H1 & H2). rewrite H0, H1, H2. cbn [orb].
  replace 2 with (float_of_Z 2) by (vm_compute; reflexivity).
  apply (factorial_loop_stuck n Hn). lia.
Qed.

(** X14: [factorial] returns exactly when its argument is not 2^53 or more: the
    counter of its loop cannot go beyond 2^53, where adding 1 changes
    nothing. *)
Theorem factorial_returns_iff_below_2_53 :
  forall n : float,
    (exists (fuel : nat) (v : float), factorial fuel n = Some v)
    <-> (9007199254740992 <=? n) = false.
Proof.
  intros n. split.
  - intros (fuel & v & Hv).
    destruct (9007199254740992 <=? n) eqn:Hn; [exfalso|reflexivity].
    rewrite (factorial_stuck n Hn) in Hv. discriminate.
  - intros Hn. unfold factorial.
    destruct (n <? 0); [exists 0%nat; eauto|].
    destruct ((n =? 0) || (n =? 1)); [exists 0%nat; eauto|].
    replace 2 with (float_of_Z 2) by (vm_compute; reflexivity).
    apply (factorial_loop_ends n Hn (2 ^ 53 - 2)%Z); lia.
Qed.

Lemma factorial_returns_iff_below_2_53_witness :
  (9007199254740992 <=? 5) = false
  /\ (exists (fuel : nat) (v : float), factorial fuel 5 = Some v)
  /\ factorial 5 5 = Some 120
  /\ (9007199254740992 <=? 1.0e16) = true
  /\ factorial 100 1.0e16 = None.
Proof.
  split; [reflexivity|].
  split; [apply (proj2 (factorial_returns_iff_below_2_53 5)); reflexivity|].
  split; [vm_compute; reflexivity|].
  split; [reflexivity|].
  destruct (factorial 100 1.0e16) as [v|] eqn:E; [|reflexivity].
  pose proof (proj1 (factorial_returns_iff_below_2_53 1.0e16)
                (ex_intro _ 100%nat (ex_intro _ v E))) as H.
  discriminate H.
Defined.

End FactorialTermination.

(** *** [factorial] of a number that is not an integer *)

Section FactorialTruncation.

Local Open Scope Z_scope.
Local Open Scope float_scope.

Lemma SFleb_trans x y z :
  SFleb x y = true -> SFleb y z = true -> SFleb x z = true.
Proof.
  unfold SFleb.
  destruct x as [sx|sx| |sx mx ex], y as [sy|sy| |sy my ey],
           z as [sz|sz| |sz mz ez]; cbn [SFcompare];
    try discriminate; try reflexivity;
    try (destruct sx; try discriminate; try reflexivity);
    try (destruct sy; try discriminate; try reflexivity);
    try (destruct sz; try discriminate; try reflexivity).
  all: change (Pos.compare_cont Eq ?a ?b) with (Pos.compare a b).
  all: destruct (Z.compare_spec ex ey), (Z.compare_spec ey ez),
         (Z.compare_spec ex ez); try discriminate; try reflexivity; try lia.
  all: cbn [CompOpp].
  all: destruct (Pos.compare_spec mx my), (Pos.compare_spec my mz),
         (Pos.compare_spec mx mz); cbn [CompOpp];
         try discriminate; try reflexivity; try lia.
Qed.

Lemma SFltb_leb_trans x y z :
  SFltb x y = true -> SFleb y z = true -> SFltb x z = true.
Proof.
  unfold SFleb, SFltb.
  destruct x as [sx|sx| |sx mx ex], y as [sy|sy| |sy my ey],
           z as [sz|sz| |sz mz ez]; cbn [SFcompare];
    try discriminate; try reflexivity;
    try (destruct sx; try discriminate; try reflexivity);
    try (destruct sy; try discriminate; try reflexivity);
    try (destruct sz; try discriminate; try reflexivity).
  all: change (Pos.compare_cont Eq ?a ?b) with (Pos.compare a b).
  all: destruct (Z.compare_spec ex ey), (Z.compare_spec ey ez),
         (Z.compare_spec ex ez); try discriminate; try reflexivity; try lia.
  all: cbn [CompOpp].
  all: destruct (Pos.compare_spec mx my), (Pos.compare_spec my mz),
         (Pos.compare_spec mx mz); cbn [CompOpp];
         try discriminate; try reflexivity; try lia.
Qed.

Lemma leb_trans (x y z : float) :
  (x <=? y) = true -> (y <=? z) = true -> (x <=? z) = true.
Proof. rewrite !leb_spec. apply SFleb_trans. Qed.

Lemma ltb_leb_trans (x y z : float) :
  (x <? y) = true -> (y <=? z) = true -> (x <? z) = true.
Proof. rewrite !ltb_spec, leb_spec. apply SFltb_leb_trans. Qed.

Lemma ltb_not_leb (x y : float) : (x <? y) = true -> (y <=? x) = false.
Proof.
  rewrite ltb_spec, leb_spec. unfold SFltb, SFleb.
  rewrite (SFcompare_antisym (Prim2SF x) (Prim2SF y)).
  destruct (SFcompare (Prim2SF x) (Prim2SF y)) as [[]|]; cbn; congruence.
Qed.

Lemma ltb_not_eqb (x y : float) : (x <? y) = true -> (y =? x) = false.
Proof.
  rewrite ltb_spec, eqb_spec. unfold SFltb, SFeqb.
  rewrite (SFcompare_antisym (Prim2SF x) (Prim2SF y)).
  destruct (SFcompare (Prim2SF x) (Prim2SF y)) as [[]|]; cbn; congruence.
Qed.

Lemma ltb_not_ltb (x y : float) : (x <? y) = true -> (y <? x) = false.
Proof.
  rewrite !ltb_spec. unfold SFltb.
  rewrite (SFcompare_antisym (Prim2SF x) (Prim2SF y)).
  destruct (SFcompare (Prim2SF x) (Prim2SF y)) as [[]|]; cbn; congruence.
Qed.

Lemma leb_not_ltb (x y : float) : (x <=? y) = true -> (y <? x) = false.
Proof.
  rewrite ltb_spec, leb_spec. unfold SFltb, SFleb.
  rewrite (SFcompare_antisym (Prim2SF x) (Prim2SF y)).
  destruct (SFcompare (Prim2SF x) (Prim2SF y)) as [[]|]; cbn; congruence.
Qed.

(** The binary64 values of the integers below [2^53] are ordered as the
    integers. *)
Lemma float_of_Z_le j k :
  (0 < j <= k)%Z -> (k < 2 ^ 53)%Z -> (float_of_Z j <=? float_of_Z k) = true.
Proof.
  intros Hj Hk. rewrite leb_spec, !float_of_Z_repr by lia.
  pose proof (Zdigits2_range j ltac:(lia)) as Hdj.
  pose proof (Zdigits2_range k ltac:(lia)) as Hdk.
  pose proof (Zdigits2_le j k ltac:(lia) ltac:(lia)) as Hd.
  unfold SFleb, SFcompare.
  destruct (Z.compare_spec (Zdigits2 j - 53) (Zdigits2 k - 53)) as [E|L|G];
    [|reflexivity|lia].
  change (Pos.compare_cont Eq ?a ?b) with (Pos.compare a b).
  assert (Edk : Zdigits2 j = Zdigits2 k) by lia. rewrite Edk.
  assert (H2 : (0 < 2 ^ (53 - Zdigits2 k))%Z) by (apply Z.pow_pos_nonneg; lia).
  destruct (Pos.compare_spec (Z.to_pos (j * 2 ^ (53 - Zdigits2 k)))
              (Z.to_pos (k * 2 ^ (53 - Zdigits2 k)))) as [_|_|G];
    [reflexivity|reflexivity|].
  apply Pos2Z.pos_lt_pos in G. rewrite !Z2Pos.id in G by nia. nia.
Qed.

Lemma float_of_Z_lt j k :
  (0 < j < k)%Z -> (k <= 2 ^ 53)%Z -> (float_of_Z j <? float_of_Z k) = true.
Proof.
  intros Hj Hk. rewrite ltb_spec, (float_of_Z_repr j) by lia.
  pose proof (Zdigits2_range j ltac:(lia)) as Hdj.
  destruct (Z.eq_dec k (2 ^ 53)) as [->|Hne].
  { replace (Prim2SF (float_of_Z (2 ^ 53)))
      with (S754_finite false 4503599627370496 1) by (vm_compute; reflexivity).
    unfold SFltb, SFcompare.
    replace (Zdigits2 j - 53 ?= 1)%Z with Lt; [reflexivity|].
    symmetry. apply Z.compare_lt_iff. lia. }
  rewrite (float_of_Z_repr k) by lia.
  pose proof (Zdigits2_range k ltac:(lia)) as Hdk.
  pose proof (Zdigits2_le j k ltac:(lia) ltac:(lia)) as Hd.
  unfold SFltb, SFcompare.
  destruct (Z.compare_spec (Zdigits2 j - 53) (Zdigits2 k - 53)) as [E|L|G];
    [|reflexivity|lia].
  change (Pos.compare_cont Eq ?a ?b) with (Pos.compare a b).
  assert (Edk : Zdigits2 j = Zdigits2 k) by lia. rewrite Edk.
  assert (H2 : (0 < 2 ^ (53 - Zdigits2 k))%Z) by (apply Z.pow_pos_nonneg; lia).
  destruct (Pos.compare_spec (Z.to_pos (j * 2 ^ (53 - Zdigits2 k)))
              (Z.to_pos (k * 2 ^ (53 - Zdigits2 k)))) as [E'|_|G];
    [|reflexivity|].
  - apply Z2Pos.inj in E'; nia.
  - apply Pos2Z.pos_lt_pos in G. rewrite !Z2Pos.id in G by nia. nia.
Qed.

(** The loop of [factorial] runs the same way up to [n] as up to the
    integer part [k] of [n]. *)
Lemma factorial_loop_truncates (k : Z) (n : float) :
  (2 <= k < 2 ^ 53)%Z ->
  (float_of_Z k <=? n) = true -> (n <? float_of_Z (k + 1)) = true ->
  forall (fuel : nat) (j : Z) (result : float),
    (2 <= j <= k + 1)%Z ->
    factorial_loop fuel (float_of_Z j) result n
    = factorial_loop fuel (float_of_Z j) result (float_of_Z k).
Proof.
  intros Hk Hlo Hhi. induction fuel as [|fuel IH]; intros j result Hj;
    [reflexivity|].
  cbn [factorial_loop].
  destruct (Z.eq_dec j (k + 1)) as [->|Hne].
  - rewrite (ltb_not_leb _ _ Hhi).
    rewrite (ltb_not_leb _ _ (float_of_Z_lt k (k + 1) ltac:(lia) ltac:(lia))).
    reflexivity.
  - rewrite (float_of_Z_le j k) by lia.
    rewrite (leb_trans _ _ _ (float_of_Z_le j k ltac:(lia) ltac:(lia)) Hlo).
    rewrite float_of_Z_succ by lia. apply IH. lia.
Qed.

(** X15: [factorial] truncates: for [n] between the integer [k] and [k + 1],
    [factorial(n)] is [factorial(k)]; in particular it is 1 for every [n]
    from 0 up to 2. *)
Theorem factorial_truncates :
  forall (k : Z) (n : float) (fuel : nat),
    (0 <= k < 2 ^ 53)%Z ->
    (float_of_Z k <=? n) = true -> (n <? float_of_Z (k + 1)) = true ->
    factorial (S fuel) n = factorial (S fuel) (float_of_Z k).
Proof.
  intros k n fuel Hk Hlo Hhi.
  destruct (Z.le_gt_cases 2 k) as [H2|H2].
  - assert (H2k : (2 <=? float_of_Z k) = true).
    { change 2 with (float_of_Z 2). apply float_of_Z_le; lia. }
    pose proof (leb_trans _ _ _ H2k Hlo) as H2n.
    assert (Hsmall : forall c x : float,
              (c <? 2) = true -> (2 <=? x) = true ->
              (x <? c) = false /\ (x =? c) = false).
    { intros c x Hc Hx. pose proof (ltb_leb_trans _ _ _ Hc Hx) as Hcx.
      split; [apply ltb_not_ltb | apply ltb_not_eqb]; exact Hcx. }
    unfold factorial.
    destruct (Hsmall 0 n eq_refl H2n) as [-> ->].
    destruct (Hsmall 1 n eq_refl H2n) as [_ ->].
    destruct (Hsmall 0 _ eq_refl H2k) as [-> ->].
    destruct (Hsmall 1 _ eq_refl H2k) as [_ ->].
    cbn [orb]. change 2 with (float_of_Z 2).
    apply factorial_loop_truncates; try assumption; lia.
  - assert (Hone : factorial (S fuel) (float_of_Z k) = Some 1).
    { assert (Ek : k = 0%Z \/ k = 1%Z) by lia.
      destruct Ek as [-> | ->]; reflexivity. }
    rewrite Hone.
    assert (Hn2 : (n <? 2) = true).
    { apply ltb_leb_trans with (1 := Hhi).
      assert (Ek : k = 0%Z \/ k = 1%Z) by lia.
      destruct Ek as [-> | ->]; reflexivity. }
    assert (Hn0 : (n <? 0) = false).
    { apply leb_not_ltb. apply leb_trans with (2 := Hlo).
      assert (Ek : k = 0%Z \/ k = 1%Z) by lia.
      destruct Ek as [-> | ->]; reflexivity. }
    unfold factorial. rewrite Hn0.
    destruct ((n =? 0) || (n =? 1)); [reflexivity|].
    cbn [factorial_loop]. rewrite (ltb_not_leb _ _ Hn2). reflexivity.
Qed.

Lemma factorial_truncates_witness :
  (0 <= 2 < 2 ^ 53)%Z
  /\ (float_of_Z 2 <=? 2.5) = true /\ (2.5 <? float_of_Z (2 + 1)) = true
  /\ factorial (S 1) 2.5 = factorial (S 1) (float_of_Z 2)
  /\ factorial (S 1) (float_of_Z 2) = Some 2.
Proof.
  split; [lia|]. split; [reflexivity|]. split; [reflexivity|].
  split; [|reflexivity].
  apply (factorial_truncates 2 2.5 1); [lia | reflexivity | reflexivity].
Defined.

End FactorialTruncation.

(** *** [formatResult] on integers *)

Section FormatInteger.

Local Open Scope Z_scope.
Local Open Scope float_scope.

Lemma float_of_Z_repr_neg k :
  (0 < k < 2 ^ 53)%Z ->
  Prim2SF (float_of_Z (- k))
  = S754_finite true (Z.to_pos (k * 2 ^ (53 - Zdigits2 k))) (Zdigits2 k - 53).
Proof.
  intros Hk.
  pose proof (Zdigits2_range k Hk) as Hd.
  destruct k as [|p|p]; try lia.
  unfold float_of_Z. cbn [Z.opp binary_normalize].
  rewrite (binary_round_dyadic true p 0 (Zpos p) 0) by lia.
  replace (Zdigits2 (Zpos p) + (0 + 0) - 53)%Z with (Zdigits2 (Zpos p) - 53)%Z by lia.
  apply Prim2SF_SF2Prim.
  assert (H2 : (0 < 2 ^ (53 - Zdigits2 (Zpos p)))%Z) by (apply Z.pow_pos_nonneg; lia).
  unfold SpecFloat.valid_binary, bounded, canonical_mantissa.
  change (Zpos (digits2_pos ?m)) with (Zdigits2 (Zpos m)).
  rewrite Z2Pos.id by nia.
  rewrite Zdigits2_mul_pow2 by lia.
  rewrite fexp64_eq. apply andb_true_iff. split.
  - apply Z.eqb_eq. lia.
  - apply Z.leb_le. change (emax - prec)%Z with 971%Z. lia.
Qed.

Lemma SFeqb_finite_eq s1 m1 e1 s2 m2 e2 :
  SFeqb (S754_finite s1 m1 e1) (S754_finite s2 m2 e2) = true ->
  s1 = s2 /\ m1 = m2 /\ e1 = e2.
Proof.
  unfold SFeqb, SFcompare.
  change (Pos.compare_cont Eq ?a ?b) with (Pos.compare a b).
  destruct s1, s2; try discriminate;
    destruct (Z.compare_spec e1 e2); try discriminate;
    destruct (Pos.compare_spec m1 m2); try discriminate;
    intros _; subst; auto.
Qed.

(** A finite number that [Math.floor] leaves unchanged is left unchanged
    by [Math.round]. *)
Lemma Math_round_of_integer (r : float) :
  isFinite r = true -> (Math_floor r =? r) = true -> Math_round r = r.
Proof.
  intros Hfin Hfl.
  pose proof (Prim2SF_valid r) as Hv.
  unfold Math_round. unfold Math_floor in Hfl.
  destruct (finite_cases r Hfin) as [(s & E)|(s & m & e & E)]; rewrite E in *;
    [reflexivity|].
  destruct (0 <=? e)%Z eqn:He; [reflexivity|].
  apply Z.leb_gt in He.
  apply valid_finite in Hv. destruct Hv as [Hcan _].
  assert (Hm53 : (Zpos m < 2 ^ 53)%Z).
  { assert (Hd : (Zdigits2 (Zpos m) <= 53)%Z).
    { change (Zdigits2 (Zpos m)) with (Zpos (digits2_pos m)). lia. }
    rewrite Zdigits2_log2_Z in Hd by lia.
    apply Z.log2_lt_pow2; lia. }
  set (n := (- e)%Z) in *.
  assert (Hn : (0 < 2 ^ n)%Z) by (apply Z.pow_pos_nonneg; lia).
  rewrite Z.shiftr_div_pow2 in Hfl by lia.
  rewrite Z.shiftl_mul_pow2, Z.mul_1_l by lia.
  set (M := cond_Zopp s (Zpos m)) in *.
  set (z := (M / 2 ^ n)%Z) in *.
  assert (HzM : (Z.abs z <= Zpos m)%Z).
  { unfold z, M. destruct s; cbn [cond_Zopp].
    - assert (- Zpos m <= Zneg m / 2 ^ n)%Z.
      { apply Z.div_le_lower_bound; [lia|]. change (Zneg m) with (- Zpos m)%Z. nia. }
      assert (Zneg m / 2 ^ n < 0)%Z by (apply Z.div_lt_upper_bound; lia).
      lia.
    - assert (0 <= Zpos m / 2 ^ n)%Z by (apply Z.div_pos; lia).
      assert (Zpos m / 2 ^ n <= Zpos m)%Z.
      { apply Z.div_le_upper_bound; [lia|]. nia. }
      lia. }
  assert (Hexact : (M = z * 2 ^ n)%Z /\ float_of_Z z = r /\ z <> 0%Z).
  { rewrite eqb_spec, E in Hfl.
    destruct (Z.lt_trichotomy z 0) as [Hz|[Hz|Hz]].
    - replace z with (- (- z))%Z in Hfl by lia.
      rewrite float_of_Z_repr_neg in Hfl by lia.
      apply SFeqb_finite_eq in Hfl. destruct Hfl as (Hs & Hm & Hee).
      pose proof (Zdigits2_range (- z) ltac:(lia)) as Hd.
      assert (H2 : (0 < 2 ^ (53 - Zdigits2 (- z)))%Z) by (apply Z.pow_pos_nonneg; lia).
      assert (HM : (Zpos m = - z * 2 ^ n)%Z).
      { rewrite <- Hm, Z2Pos.id by nia. f_equal. f_equal. unfold n. lia. }
      subst s. split; [unfold M; cbn [cond_Zopp]; lia|]. split; [|lia].
      apply Prim2SF_inj. rewrite E.
      replace z with (- (- z))%Z by lia.
      rewrite float_of_Z_repr_neg by lia. rewrite Hm, Hee. reflexivity.
    - rewrite Hz in Hfl. exfalso. revert Hfl.
      change (Prim2SF (float_of_Z 0)) with (S754_zero false).
      destruct s; discriminate.
    - rewrite float_of_Z_repr in Hfl by lia.
      apply SFeqb_finite_eq in Hfl. destruct Hfl as (Hs & Hm & Hee).
      pose proof (Zdigits2_range z ltac:(lia)) as Hd.
      assert (H2 : (0 < 2 ^ (53 - Zdigits2 z))%Z) by (apply Z.pow_pos_nonneg; lia).
      assert (HM : (Zpos m = z * 2 ^ n)%Z).
      { rewrite <- Hm, Z2Pos.id by nia. f_equal. f_equal. unfold n. lia. }
      subst s. split; [unfold M; cbn [cond_Zopp]; lia|]. split; [|lia].
      apply Prim2SF_inj. rewrite E.
      rewrite float_of_Z_repr by lia. rewrite Hm, Hee. reflexivity. }
  destruct Hexact as (HM & Hr & Hz0).
  assert (Hnn : ((2 * M + 2 ^ n) / (2 * 2 ^ n) = z)%Z).
  { rewrite HM.
    replace (2 * (z * 2 ^ n) + 2 ^ n)%Z with ((2 * z + 1) * 2 ^ n)%Z by ring.
    rewrite Z.div_mul_cancel_r by lia.
    symmetry. apply Z.div_unique with 1%Z; lia. }
  rewrite Hnn.
  destruct (z =? 0)%Z eqn:Ez; [apply Z.eqb_eq in Ez; contradiction|].
  exact Hr.
Qed.

Lemma abs_sub_self (r : float) :
  isFinite r = true -> Prim2SF (abs (r - r)) = S754_zero false.
Proof.
  intros Hfin. rewrite abs_spec, sub_spec.
  destruct (finite_cases r Hfin) as [(s & ->)|(s & m & e & ->)].
  - destruct s; reflexivity.
  - unfold SF64sub. cbn [SFsub]. cbv zeta. rewrite Z.sub_diag. reflexivity.
Qed.

(** X16: an integer is displayed as itself: [formatResult] returns the text of
    every finite number that [Number.isInteger] accepts. *)
Theorem formatResult_of_an_integer :
  forall (fuel : nat) (r : float),
    Number_isInteger r = true ->
    formatResult fuel (inl r) = Some (Number_toString r).
Proof.
  intros fuel r Hint. unfold Number_isInteger in Hint.
  apply andb_true_iff in Hint. destruct Hint as [Hfin Hfl].
  unfold formatResult. rewrite Hfin. cbn [negb].
  assert (Hnan : isNaN r = false).
  { unfold isNaN, isFinite, is_finite in *.
    destruct (is_nan r); [discriminate|reflexivity]. }
  rewrite Hnan, (Math_round_of_integer r Hfin Hfl).
  assert (Hlt : (Math_abs (r - r) <? Number_EPSILON * 1000) = true).
  { unfold Math_abs. rewrite ltb_spec, (abs_sub_self r Hfin). reflexivity. }
  rewrite Hlt. reflexivity.
Qed.

Lemma formatResult_of_an_integer_witness :
  Number_isInteger 1.0e21 = true
  /\ formatResult 0 (inl 1.0e21) = Some "1e+21".
Proof.
  split; [reflexivity|].
  apply (formatResult_of_an_integer 0 1.0e21). reflexivity.
Defined.

End FormatInteger.

(** *** The display and the clipboard *)

Section DisplayAndPaste.
Import Strings Display App Invariants.

Lemma prefix_one (a c : ascii) (s : string) :
  prefix (String a EmptyString) (String c s) = Ascii.eqb c a.
Proof.
  cbn [prefix]. destruct (ascii_dec a c) as [->|Hne].
  - rewrite Ascii.eqb_refl. destruct s; reflexivity.
  - symmetry. apply Ascii.eqb_neq. congruence.
Qed.

Lemma remove_commas_cons (c : ascii) (s : string) :
  replace_all "," EmptyString (String c s)
  = if Ascii.eqb c "," then replace_all "," EmptyString s
    else String c (replace_all "," EmptyString s).
Proof.
  unfold replace_all. cbn [replace_from]. rewrite prefix_one.
  destruct (Ascii.eqb c ","); reflexivity.
Qed.

Lemma remove_commas_app (a b : string) :
  replace_all "," EmptyString (a ++ b)
  = replace_all "," EmptyString a ++ replace_all "," EmptyString b.
Proof.
  induction a as [|c a IH]; [reflexivity|].
  change (String c a ++ b) with (String c (a ++ b)).
  rewrite !remove_commas_cons, IH. destruct (Ascii.eqb c ","); reflexivity.
Qed.

Lemma includes_cons (a c : ascii) (s : string) :
  includes (String a EmptyString) (String c s)
  = Ascii.eqb c a || includes (String a EmptyString) s.
Proof. cbn [includes]. rewrite prefix_one. reflexivity. Qed.

Lemma remove_commas_id (s : string) :
  includes "," s = false -> replace_all "," EmptyString s = s.
Proof.
  induction s as [|c s IH]; [reflexivity|].
  rewrite includes_cons, remove_commas_cons. intros H.
  apply orb_false_iff in H. destruct H as [Hc Hs].
  rewrite Hc, (IH Hs). reflexivity.
Qed.

Lemma remove_commas_group (s : string) : forall prev : option ascii,
  replace_all "," EmptyString (group_from prev s) = replace_all "," EmptyString s.
Proof.
  induction s as [|c s IH]; intros prev; [reflexivity|].
  cbn [group_from].
  destruct (_ && _ && _).
  - rewrite remove_commas_cons. cbn [Ascii.eqb Bool.eqb].
    rewrite !remove_commas_cons, IH. reflexivity.
  - rewrite !remove_commas_cons, IH. reflexivity.
Qed.

(** Joining the pieces of a text split at the dots gives the text back. *)
Lemma split_dot_join (s : string) :
  exists piece pieces,
    split "." s = piece :: pieces /\ join "." (piece :: pieces) = s.
Proof.
  unfold split, join. induction s as [|c s (piece & pieces & Hs & Hj)].
  - exists EmptyString, []. split; reflexivity.
  - cbn [split_from String.length Nat.sub]. rewrite prefix_one.
    destruct (Ascii.eqb_spec c ".") as [->|Hne].
    + exists EmptyString, (piece :: pieces). rewrite Hs. split; [reflexivity|].
      cbn [String.concat] in Hj |- *. rewrite Hj. reflexivity.
    + rewrite Hs. exists (String c piece), pieces. split; [reflexivity|].
      destruct pieces as [|p2 pieces]; cbn [String.concat] in Hj |- *;
        rewrite <- Hj; reflexivity.
Qed.

Lemma join_cons (sep : string) (pieces : list string) :
  exists tail, forall piece, join sep (piece :: pieces) = piece ++ tail.
Proof.
  unfold join. destruct pieces as [|p pieces].
  - exists EmptyString. intros piece. cbn. 
    induction piece as [|c piece IH]; [reflexivity|]. cbn. f_equal. exact IH.
  - exists (sep ++ String.concat sep (p :: pieces)). intros piece. reflexivity.
Qed.

(** Deleting the commas from what the display shows gives the value. *)
Lemma remove_commas_formatDisplayValue (value : string) :
  includes "," value = false ->
  replace_all "," EmptyString (formatDisplayValue value) = value.
Proof.
  intros Hc. unfold formatDisplayValue.
  destruct (_ || _); [apply remove_commas_id; exact Hc|].
  destruct (split_dot_join value) as (piece & pieces & -> & Hj).
  destruct (join_cons "." pieces) as (tail & Ht).
  rewrite Ht, remove_commas_app. unfold group_thousands.
  rewrite remove_commas_group, <- remove_commas_app, <- Ht, Hj.
  apply remove_commas_id. exact Hc.
Qed.

(** X17: [formatDisplayValue] only inserts commas: deleting them gives the value
    back; an error message and a text with an [e] are shown as they are. *)
Theorem formatDisplayValue_only_inserts_commas :
  forall value : string,
    (includes "," value = false ->
     replace_all "," EmptyString (formatDisplayValue value) = value)
    /\ (isError value = true \/ includes "e" value = true ->
        formatDisplayValue value = value).
Proof.
  intros value. split; [apply remove_commas_formatDisplayValue|].
  intros [He|He]; unfold formatDisplayValue.
  - revert He. unfold isError. cbn [existsb].
    repeat match goal with
           | |- (String.eqb value ?t || _) = true -> _ =>
               destruct (String.eqb_spec value t) as [->|_];
                 [intros _; vm_compute; reflexivity|cbn [orb]]
           end.
    discriminate.
  - rewrite He, orb_true_r. reflexivity.
Qed.

Lemma formatDisplayValue_only_inserts_commas_witness :
  formatDisplayValue "1234567.25" = "1,234,567.25"
  /\ includes "," "1234567.25" = false
  /\ replace_all "," EmptyString (formatDisplayValue "1234567.25") = "1234567.25"
  /\ isError "Format Error" = true
  /\ formatDisplayValue "Format Error" = "Format Error".
Proof.
  split; [vm_compute; reflexivity|]. split; [reflexivity|].
  split.
  - apply (proj1 (formatDisplayValue_only_inserts_commas "1234567.25")). reflexivity.
  - split; [reflexivity|].
    apply (proj2 (formatDisplayValue_only_inserts_commas "Format Error")).
    left. reflexivity.
Defined.

(** X18: pasting what the display shows for a number puts the number back on the
    display, after saving the state. *)
Theorem pasting_the_displayed_text_restores_the_value :
  forall (value : string) (s : Session),
    isError (displayValue (currentState s)) = false ->
    isNaN (StringToNumber value) = false ->
    value <> EmptyString ->
    trim value = value ->
    includes "," value = false ->
    handlePaste (formatDisplayValue value) s
    = ({| currentState :=
            {| expression := expression (currentState s);
               displayValue := value;
               overwrite := false;
               openParenCount := openParenCount (currentState s) |};
          undoStack := firstn 50 (currentState s :: undoStack s);
          redoStack := [];
          showHistory := showHistory s |}, true).
Proof.
  intros value s Herr Hnum Hne Htrim Hc. unfold handlePaste.
  rewrite Herr, (remove_commas_formatDisplayValue value Hc), Htrim, Hnum.
  cbn [negb orb andb].
  destruct (String.eqb_spec value EmptyString) as [E|_]; [contradiction|].
  reflexivity.
Qed.

Lemma pasting_the_displayed_text_restores_the_value_witness :
  formatDisplayValue "-1234.5" = "-1,234.5"
  /\ handlePaste "-1,234.5" initial
     = ({| currentState :=
             {| expression := EmptyString; displayValue := "-1234.5";
                overwrite := false; openParenCount := 0 |};
           undoStack := [currentState initial];
           redoStack := [];
           showHistory := false |}, true).
Proof.
  split; [vm_compute; reflexivity|].
  apply (pasting_the_displayed_text_restores_the_value "-1234.5" initial);
    [reflexivity | vm_compute; reflexivity | discriminate
    | vm_compute; reflexivity | reflexivity].
Defined.

End DisplayAndPaste.

(** *** The history *)

Section History.
Import Strings App Invariants.

Lemma includes_space_cons (c : ascii) (s : string) :
  includes " " (String c s) = Ascii.eqb c " " || includes " " s.
Proof.
  cbn [includes prefix]. destruct (ascii_dec " " c) as [<-|Hne].
  - destruct s; reflexivity.
  - replace (Ascii.eqb c " ") with false; [reflexivity|].
    symmetry. apply Ascii.eqb_neq. congruence.
Qed.

(** What is left by [replace(/\s/g, '')] holds no space. *)
Lemma strip_from_no_space (s : string) : forall skip : nat,
  includes " " (strip_from skip s) = false.
Proof.
  induction s as [|c s IH]; intros skip; [destruct skip; reflexivity|].
  cbn [strip_from]. destruct skip as [|k]; [|apply IH].
  destruct (whitespace_length (String c s)) as [|k] eqn:Ew; [|apply IH].
  rewrite includes_space_cons, IH, orb_false_r.
  destruct (Ascii.eqb_spec c " ") as [->|Hne]; [|reflexivity].
  cbn in Ew. discriminate.
Qed.

Lemma numeric_no_space (s : string) :
  every numeric_char s -> includes " " s = false.
Proof.
  induction s as [|c s IH]; [reflexivity|]. intros [Hc Hs].
  rewrite includes_space_cons, (IH Hs), orb_false_r.
  destruct (Ascii.eqb_spec c " ") as [->|Hne]; [discriminate|reflexivity].
Qed.

Lemma split_without_separator (s : string) :
  includes " " s = false -> split " = " s = [s].
Proof.
  unfold split. induction s as [|c s IH]; [reflexivity|].
  rewrite includes_space_cons. intros H.
  apply orb_false_iff in H. destruct H as [Hc Hs].
  cbn [split_from prefix].
  destruct (ascii_dec " " c) as [<-|Hne]; [discriminate|].
  rewrite (IH Hs). reflexivity.
Qed.

Lemma split_entry (e r : string) :
  includes " " e = false -> includes " " r = false ->
  split " = " (e ++ " = " ++ r) = [e; r].
Proof.
  intros He Hr. unfold split. induction e as [|c e IH].
  - change (EmptyString ++ " = " ++ r) with (String " " (String "=" (String " " r))).
    cbn [split_from prefix String.length Nat.sub].
    destruct (ascii_dec " " " ") as [_|N]; [|congruence].
    destruct (ascii_dec "=" "=") as [_|N]; [|congruence].
    assert (Hp : prefix EmptyString r = true) by (destruct r; reflexivity).
    rewrite Hp.
    change (split_from " = " 0 r) with (split " = " r).
    rewrite (split_without_separator r Hr). reflexivity.
  - rewrite includes_space_cons in He.
    apply orb_false_iff in He. destruct He as [Hc He].
    change (String c e ++ " = " ++ r) with (String c (e ++ " = " ++ r)).
    cbn [split_from prefix].
    destruct (ascii_dec " " c) as [<-|Hne]; [discriminate|].
    rewrite (IH He). reflexivity.
Qed.

Lemma string_of_uint_nonempty (d : Decimal.uint) :
  d <> Decimal.Nil -> NilEmpty.string_of_uint d <> EmptyString.
Proof. destruct d; cbn; congruence. Qed.

Lemma digits_of_Z_nonempty (z : Z) : digits_of_Z z <> EmptyString.
Proof.
  destruct z; cbn; try discriminate.
  apply string_of_uint_nonempty, DecimalPos.Unsigned.to_uint_nonnil.
Qed.

Lemma app_nonempty_l (a b : string) : a <> EmptyString -> a ++ b <> EmptyString.
Proof. destruct a; [congruence|discriminate]. Qed.

Lemma app_nonempty_r (a b : string) : b <> EmptyString -> a ++ b <> EmptyString.
Proof. destruct a; [exact (fun H => H)|discriminate]. Qed.

Lemma layout_nonempty (s n k : Z) : layout s n k <> EmptyString.
Proof.
  unfold layout.
  repeat match goal with
         | |- (if ?c then _ else _) <> _ => destruct c
         end.
  - apply app_nonempty_l, digits_of_Z_nonempty.
  - apply app_nonempty_r. discriminate.
  - discriminate.
  - apply app_nonempty_l, digits_of_Z_nonempty.
  - apply app_nonempty_r. discriminate.
Qed.

Lemma Number_toString_nonempty (x : float) : Number_toString x <> EmptyString.
Proof.
  unfold Number_toString.
  destruct (is_nan x); [discriminate|].
  destruct (x =? 0)%float; [discriminate|].
  destruct (is_infinity x); [destruct (x <? 0)%float; discriminate|].
  destruct (shortest_digits (abs x)) as [[s n] k].
  apply app_nonempty_r, layout_nonempty.
Qed.

(** A text of [formatResult] that is no error message is not empty and
    holds no space. *)
Lemma formatResult_text (fuel : nat) (result : float) (text : string) :
  formatResult fuel (inl result) = Some text -> isError text = false ->
  text <> EmptyString /\ includes " " text = false.
Proof.
  unfold formatResult.
  destruct (negb (isFinite result)).
  { intros E; injection E as <-. discriminate. }
  destruct (isNaN result).
  { intros E; injection E as <-. discriminate. }
  destruct (_ <? _)%float.
  { intros E _; injection E as <-.
    split; [apply Number_toString_nonempty|].
    apply numeric_no_space, every_Number_toString. }
  destruct (decimalToFraction _ _ _ _) as [f|] eqn:Ef; [|discriminate].
  intros E _; injection E as <-. split.
  - revert Ef. unfold decimalToFraction.
    destruct (negb (isFinite _)).
    { intros E; injection E as <-. apply Number_toString_nonempty. }
    destruct (Number_isInteger _).
    { intros E; injection E as <-. apply Number_toString_nonempty. }
    destruct (cf_loop _ _ _ _ _ _) as [st|]; [|discriminate].
    destruct (_ || _); intros E; injection E as <-; cbn [String_of].
    + apply Number_toString_nonempty.
    + apply app_nonempty_l, Number_toString_nonempty.
  - apply numeric_no_space. eapply every_fraction. exact Ef.
Qed.

(** X19: clicking an entry of the history puts its result back: for the entry
    that the [=] key builds from an expression and the text of its result,
    [handleHistoryItemClick] saves the state, shows the result, empties the
    expression and closes the panel. *)
Theorem history_entry_restores_its_result :
  forall (finalExpression : string) (fuel : nat) (result : float)
         (formattedResult : string) (s : Session),
    formatResult fuel (inl result) = Some formattedResult ->
    isError formattedResult = false ->
    handleHistoryItemClick
      (strip_whitespace finalExpression ++ " = " ++ formattedResult) s
    = {| currentState :=
           {| expression := EmptyString;
              displayValue := formattedResult;
              overwrite := true;
              openParenCount := openParenCount (currentState s) |};
         undoStack := firstn 50 (currentState s :: undoStack s);
         redoStack := [];
         showHistory := false |}.
Proof.
  intros finalExpression fuel result formattedResult s Hf He.
  destruct (formatResult_text fuel result formattedResult Hf He) as [Hne Hsp].
  unfold handleHistoryItemClick.
  assert (Hexp : includes " " (strip_whitespace finalExpression) = false)
    by apply strip_from_no_space.
  rewrite (split_entry _ _ Hexp Hsp).
  cbn [nth_error].
  destruct formattedResult as [|c r]; [contradiction|]. reflexivity.
Qed.

Lemma history_entry_restores_its_result_witness :
  formatResult 2 (inl 0.5) = Some "1/2"
  /\ isError "1/2" = false
  /\ displayValue (currentState (handleHistoryItemClick "1/2 = 1/2" initial)) = "1/2".
Proof.
  split; [vm_compute; reflexivity|]. split; [reflexivity|].
  pose proof (history_entry_restores_its_result "1 / 2" 2 0.5 "1/2" initial) as H.
  change (strip_whitespace "1 / 2" ++ " = " ++ "1/2") with "1/2 = 1/2" in H.
  rewrite H; [reflexivity | vm_compute; reflexivity | reflexivity].
Defined.

End History.

(** *** When the normalization ends *)

Section EvaluatorTermination.
Import Strings Invariants.












End EvaluatorTermination.

(** *** What the [=] key records *)

Section EvaluateThenFormat.
Import App Invariants.



End EvaluateThenFormat.

(** *** Factorials of large literals *)

Section LargeFactorials.
Import Strings Invariants.

(** What the passes of the normalizer test on a digit or [!]. *)
Lemma digit_or_bang_cases (c : ascii) :
  is_digit c = true \/ c = "!"%char ->
  (forall s, whitespace_length (String c s) = 0%nat)
  /\ is_letter c = false /\ is_open_paren c = false /\ is_close_paren c = false
  /\ Ascii.eqb c "e" = false
  /\ (forall p, In p [195; 207; 226; 94; 97; 45]%nat ->
                Ascii.eqb (ascii_of_nat p) c = false).
Proof.
  intros [Hd| ->].
  - destruct c as [[] [] [] [] [] [] [] []]; try discriminate Hd;
      (split; [intros [|c2 [|c3 s]]; reflexivity|]);
      repeat split;
      intros p Hp; cbn in Hp;
      repeat (destruct Hp as [<-|Hp]; [reflexivity|]); contradiction.
  - split; [intros [|c2 [|c3 s]]; reflexivity|].
    repeat split.
    intros p Hp; cbn in Hp;
      repeat (destruct Hp as [<-|Hp]; [reflexivity|]); contradiction.
Qed.

Lemma digit_or_bang_spec (c : ascii) :
  digit_or_bang c = true -> is_digit c = true \/ c = "!"%char.
Proof.
  unfold digit_or_bang, is_bang. intros H. apply orb_true_iff in H.
  destruct H as [H|H]; [left; exact H|right; apply Ascii.eqb_eq; exact H].
Qed.

Lemma strip_whitespace_unchanged (s : string) :
  every digit_or_bang s -> strip_whitespace s = s.
Proof.
  unfold strip_whitespace. induction s as [|c s IH]; [reflexivity|].
  intros [Hc Hs]. cbn [strip_from].
  destruct (digit_or_bang_cases c (digit_or_bang_spec c Hc)) as (Hw & _).
  rewrite Hw, (IH Hs). reflexivity.
Qed.

Lemma replace_all_unchanged (p : nat) (pat rep s : string) :
  In p [195; 207; 226; 94; 97; 45]%nat ->
  every digit_or_bang s ->
  replace_all (String (ascii_of_nat p) pat) rep s = s.
Proof.
  intros Hp. unfold replace_all. induction s as [|c s IH]; [reflexivity|].
  intros [Hc Hs]. cbn [replace_from prefix].
  destruct (digit_or_bang_cases c (digit_or_bang_spec c Hc)) as (_ & _ & _ & _ & _ & Hn).
  destruct (ascii_dec (ascii_of_nat p) c) as [E|_].
  - specialize (Hn p Hp). rewrite E, Ascii.eqb_refl in Hn. discriminate.
  - rewrite (IH Hs). reflexivity.
Qed.

Lemma replace_e_unchanged (s : string) : forall prev : option ascii,
  every digit_or_bang s -> replace_e prev s = s.
Proof.
  induction s as [|c s IH]; intros prev Hs; [reflexivity|].
  destruct Hs as [Hc Hs]. cbn [replace_e].
  destruct (digit_or_bang_cases c (digit_or_bang_spec c Hc)) as (_ & _ & _ & _ & He & _).
  rewrite He, (IH _ Hs). reflexivity.
Qed.

Lemma replace_symbols_unchanged (s : string) :
  every digit_or_bang s -> replace_symbols s = s.
Proof.
  intros Hs. unfold replace_symbols, glyph_times, glyph_divide, glyph_pi,
    glyph_phi, glyph_sqrt, utf8.
  cbn [map string_of_list_ascii].
  change "--" with (String (ascii_of_nat 45) "-").
  change "abs(" with (String (ascii_of_nat 97) "bs(").
  change "^" with (String (ascii_of_nat 94) EmptyString).
  rewrite (replace_all_unchanged 195 _ _ s) by (cbn; tauto || exact Hs).
  rewrite (replace_all_unchanged 195 _ _ s) by (cbn; tauto || exact Hs).
  rewrite (replace_all_unchanged 207 _ _ s) by (cbn; tauto || exact Hs).
  rewrite (replace_e_unchanged s None Hs).
  rewrite (replace_all_unchanged 207 _ _ s) by (cbn; tauto || exact Hs).
  rewrite (replace_all_unchanged 94 _ _ s) by (cbn; tauto || exact Hs).
  rewrite (replace_all_unchanged 226 _ _ s) by (cbn; tauto || exact Hs).
  rewrite (replace_all_unchanged 97 _ _ s) by (cbn; tauto || exact Hs).
  rewrite (replace_all_unchanged 45 _ _ s) by (cbn; tauto || exact Hs).
  reflexivity.
Qed.

(** No [*] is inserted where no character can be the right one, or where
    none can be the left one. *)
Lemma insert_star_no_right (L R : ascii -> bool) :
  forall (n : nat) (s : string),
    (String.length s <= n)%nat ->
    every (fun c => negb (R c)) s -> insert_star L R s = s.
Proof.
  induction n as [|n IH]; intros s Hn Hs.
  - destruct s; [reflexivity|cbn in Hn; lia].
  - destruct s as [|c1 [|c2 s]]; [reflexivity|reflexivity|].
    change (insert_star L R (String c1 (String c2 s)))
      with (if L c1 && R c2
            then String c1 (String "*" (String c2 (insert_star L R s)))
            else String c1 (insert_star L R (String c2 s))).
    destruct Hs as (_ & H2 & Hs).
    apply negb_true_iff in H2. rewrite H2, andb_false_r.
    rewrite (IH (String c2 s)); [reflexivity|cbn in Hn |- *; lia|].
    split; [apply negb_true_iff; exact H2|exact Hs].
Qed.

Lemma insert_star_no_left (L R : ascii -> bool) (t : string) :
  insert_star L R t = t ->
  forall s : string,
    every (fun c => negb (L c)) s -> insert_star L R (s ++ t) = s ++ t.
Proof.
  intros Ht. induction s as [|c1 s IH]; intros Hs; [exact Ht|].
  destruct Hs as [H1 Hs]. apply negb_true_iff in H1.
  change (String c1 s ++ t) with (String c1 (s ++ t)).
  destruct (s ++ t) as [|c2 r] eqn:E; [reflexivity|].
  change (insert_star L R (String c1 (String c2 r)))
    with (if L c1 && R c2
          then String c1 (String "*" (String c2 (insert_star L R r)))
          else String c1 (insert_star L R (String c2 r))).
  rewrite H1. cbn [andb]. rewrite (IH Hs). reflexivity.
Qed.

Lemma insert_star_never_left (L R : ascii -> bool) (s : string) :
  every (fun c => negb (L c)) s -> insert_star L R s = s.
Proof.
  induction s as [|c1 s IH]; intros Hs; [reflexivity|].
  destruct Hs as [H1 Hs]. apply negb_true_iff in H1.
  destruct s as [|c2 r]; [reflexivity|].
  change (insert_star L R (String c1 (String c2 r)))
    with (if L c1 && R c2
          then String c1 (String "*" (String c2 (insert_star L R r)))
          else String c1 (insert_star L R (String c2 r))).
  rewrite H1. cbn [andb]. rewrite (IH Hs). reflexivity.
Qed.

Lemma every_weaken (P Q : ascii -> bool) (s : string) :
  (forall c, P c = true -> Q c = true) -> every P s -> every Q s.
Proof.
  intros HPQ. induction s as [|c s IH]; [exact (fun H => H)|].
  intros [Hc Hs]. split; [apply HPQ; exact Hc|exact (IH Hs)].
Qed.

Lemma every_digits_app_bang (digits : string) :
  every is_digit digits -> every digit_or_bang (digits ++ "!").
Proof.
  intros Hd. apply every_app.
  - apply (every_weaken is_digit); [|exact Hd].
    intros c Hc. unfold digit_or_bang. rewrite Hc. reflexivity.
  - split; [reflexivity|exact I].
Qed.

Lemma implicit_multiplication_unchanged (digits : string) :
  every is_digit digits ->
  implicit_multiplication (digits ++ "!") = digits ++ "!".
Proof.
  intros Hd. unfold implicit_multiplication.
  pose proof (every_digits_app_bang digits Hd) as Hall.
  rewrite (insert_star_no_right is_digit letter_or_open _ (digits ++ "!") (Nat.le_refl _)).
  2:{ apply (every_weaken digit_or_bang); [|exact Hall].
      intros c Hc.
      destruct (digit_or_bang_cases c (digit_or_bang_spec c Hc))
        as (_ & Hl & Ho & _).
      unfold letter_or_open. rewrite Hl, Ho. reflexivity. }
  rewrite (insert_star_never_left is_close_paren alnum_or_open).
  2:{ apply (every_weaken digit_or_bang); [|exact Hall].
      intros c Hc.
      destruct (digit_or_bang_cases c (digit_or_bang_spec c Hc))
        as (_ & _ & _ & Hc' & _).
      rewrite Hc'. reflexivity. }
  apply (insert_star_no_left is_bang alnum_or_open "!" eq_refl).
  apply (every_weaken is_digit); [|exact Hd].
  intros c Hc. destruct c as [[] [] [] [] [] [] [] []]; try discriminate Hc; reflexivity.
Qed.

Lemma span_digits_app_bang (digits : string) :
  every is_digit digits -> span_digits (digits ++ "!") = (digits, "!").
Proof.
  induction digits as [|c d IH]; [reflexivity|]. intros [Hc Hd].
  change (String c d ++ "!") with (String c (d ++ "!")).
  cbn [span_digits]. rewrite Hc, (IH Hd). reflexivity.
Qed.

(** X22: the factorial of a literal of 2^53 or more keeps [evaluateExpression]
    from returning: the text passes steps 1 to 3 unchanged and step 4 calls
    [factorial] on the number, whose loop does not end. *)
Theorem evaluateExpression_diverges_on_large_factorials :
  forall (H : Host) (fuel : nat) (angleMode : AngleMode) (digits : string),
    digits <> EmptyString ->
    every is_digit digits ->
    (9007199254740992 <=? Number_of_string digits) = true ->
    evaluateExpression H fuel (digits ++ "!") angleMode = None.
Proof.
  intros H fuel angleMode digits Hne Hd Hbig.
  pose proof (every_digits_app_bang digits Hd) as Hall.
  assert (Hsan : sanitize fuel (digits ++ "!") = None).
  { unfold sanitize, precompute_factorials.
    rewrite (strip_whitespace_unchanged _ Hall),
      (replace_symbols_unchanged _ Hall),
      (implicit_multiplication_unchanged _ Hd).
    destruct digits as [|c d]; [contradiction|].
    change (String.length (String c d ++ "!")) with (S (String.length (d ++ "!"))).
    apply (replace_factorials_stuck _ fuel _ (String c d) EmptyString).
    - exact (proj1 Hd).
    - unfold match_factorial. rewrite (span_digits_app_bang _ Hd). reflexivity.
    - apply factorial_stuck. exact Hbig. }
  unfold evaluateExpression. rewrite Hsan.
  destruct digits as [|c d]; [contradiction|]. reflexivity.
Qed.

Lemma evaluateExpression_diverges_on_large_factorials_witness :
  "9007199254740992" <> EmptyString
  /\ every is_digit "9007199254740992"
  /\ (9007199254740992 <=? Number_of_string "9007199254740992") = true
  /\ evaluateExpression example_host 1000 "9007199254740992!" deg = None.
Proof.
  split; [discriminate|].
  split; [cbn; tauto|].
  split; [vm_compute; reflexivity|].
  apply (evaluateExpression_diverges_on_large_factorials example_host 1000 deg
           "9007199254740992");
    [discriminate | cbn; tauto | vm_compute; reflexivity].
Defined.

End LargeFactorials.
